(** * TITAN EMR backend: tenant isolation, field encryption and the
      consistency triggers

    A shallow embedding of the parts of the backend that carry invariants:

    - the PostgreSQL schema script (session settings, row-level-security
      policies, the audit / invoice / commission / stock triggers and the
      column types they write to);
    - [server/db/rls.ts] and [server/_core/trpc.ts] (the RLS context and the
      [requireUser] / [requireAdmin] middlewares);
    - [server/services/pgp.ts] and [server/services/auth.ts];
    - the data-access helpers of [server/db.ts] and the procedures of the
      doctors, pharmacy, appointments and authentication routers that the
      statements below talk about.

    Conventions.  A JavaScript [Promise] that rejects is a [Throw]; one that
    resolves is an [Ok].  The handle of [getDb()] is a drizzle handle over a
    pool of the [postgres] driver: the tables are shared, the session
    settings belong to one connection each, and what [db.execute] resolves
    to is the array of the rows.  SQL tables are lists of rows in insertion
    order, a nullable column is an [option], a three-valued SQL condition
    is an [option bool] and a row is selected only when the condition is
    [Some true].  [NUMERIC(p,s)] columns are integers counting units of
    [10^-s].  Statements are atomic: a statement (with the triggers it fires)
    either yields the next database state or raises and leaves the state it
    started from.  Policies are modelled as they apply to a role that is
    subject to row-level security. *)

From Stdlib Require Import ZArith NArith List String Ascii Bool Lia DecimalString.
From Stdlib Require Import Permutation.
From Stdlib.Strings Require Import Byte.
Import ListNotations.
Open Scope string_scope.
Open Scope list_scope.

Set Implicit Arguments.

(** ** Errors and results *)

Inductive trpc_code : Type :=
| UNAUTHORIZED
| FORBIDDEN
| NOT_FOUND
| BAD_REQUEST
| CONFLICT
| INTERNAL_SERVER_ERROR.

(** Errors raised by the storage engine. *)
Inductive pg_error : Type :=
| syntax_error
| invalid_text_representation
| row_security_violation
| foreign_key_violation
| numeric_field_overflow
| integer_out_of_range
| external_routine_exception
| unique_violation.

(** What is thrown: a [TRPCError], a plain [Error], an [Error] whose message
    interpolates another one after a prefix, an error of the engine, or the
    [TypeError] the runtime raises when a property of [undefined] is read. *)
Inductive exn : Type :=
| TRPCError (code : trpc_code) (message : string)
| JsError (message : string)
| JsErrorOf (prefix : string) (cause : exn)
| PgError (e : pg_error)
| TypeError.

Inductive result (A : Type) : Type :=
| Ok (a : A)
| Throw (e : exn).

Arguments Ok {A} a.
Arguments Throw {A} e.

Definition bind {A B : Type} (r : result A) (k : A -> result B) : result B :=
  match r with
  | Ok a => k a
  | Throw e => Throw e
  end.

Notation "x <- r ;; k" := (bind r (fun x => k))
  (at level 61, r at next level, right associativity).

Definition is_ok {A : Type} (r : result A) : bool :=
  match r with Ok _ => true | Throw _ => false end.

(** *** What [db.execute] resolves to *)

(** [getDb()] builds its handle with [drizzle-orm/postgres-js].  On that
    driver [await db.execute(...)] is the array of the rows itself, and the
    array has no property [rows]: [result.rows] is [undefined], whatever the
    statement returned. *)
Definition result_rows {A : Type} (returned : list A) : option (list A) := None.

(** [x[0]]: a [TypeError] on [undefined], else the first element if any. *)
Definition index_0 {A : Type} (x : option (list A)) : result (option A) :=
  match x with
  | None => Throw TypeError
  | Some l => Ok (hd_error l)
  end.

(** [COALESCE(v, d)] on a nullable value. *)
Definition COALESCE {A : Type} (v : option A) (d : A) : A :=
  match v with Some x => x | None => d end.

(** The operation a row trigger is fired for ([TG_OP]). *)
Inductive tg_op : Type := INSERT | UPDATE | DELETE.

(** A number interpolated into a message. *)
Definition show_Z (z : Z) : string := NilZero.string_of_int (Z.to_int z).

(** Identifiers are UUIDs in their text form. *)
Abbreviation uuid := string (only parsing).

(** ** SQL three-valued logic *)

Module Sql3.

(** [a = b] on nullable text: unknown when either side is NULL. *)
Definition eq (a b : option string) : option bool :=
  match a, b with
  | Some x, Some y => Some (String.eqb x y)
  | _, _ => None
  end.

Definition or (a b : option bool) : option bool :=
  match a, b with
  | Some true, _ => Some true
  | _, Some true => Some true
  | Some false, Some false => Some false
  | _, _ => None
  end.

(** A [WHERE], [USING] or [WITH CHECK] condition passes only when true. *)
Definition holds (c : option bool) : bool :=
  match c with Some true => true | _ => false end.

End Sql3.

(** ** Fixed-point [NUMERIC(p,s)] arithmetic *)

Module Numeric.

Local Open Scope Z_scope.

(** [n / d] rounded to the nearest integer, ties away from zero, as the
    engine rounds a [numeric] to a smaller scale ([d > 0]). *)
Definition round_half_away (n d : Z) : Z :=
  Z.sgn n * ((2 * Z.abs n + d) / (2 * d)).

(** A value with [p] significant digits. *)
Definition fits (p : Z) (v : Z) : bool := Z.abs v <? 10 ^ p.

(** Store a product carrying [drop] extra fractional digits into a
    [NUMERIC(p,_)] column: round, then check the precision. *)
Definition store (p drop : Z) (v : Z) : result Z :=
  let r := round_half_away v (10 ^ drop) in
  if fits p r then Ok r else Throw (PgError numeric_field_overflow).

End Numeric.

(** ** Commission amounts of a medical act ([compute_act_commissions]) *)

(** The statements run for a caller whose context reaches the act. *)

Module Commission.

Local Open Scope Z_scope.

(** A [medical_acts] row: [price] is [NUMERIC(10,2)] (hundredths), the rates
    are [NUMERIC(5,4)] (ten-thousandths), the amounts [NUMERIC(10,2)]. *)
Record medical_act : Type := {
  id : uuid;
  encounter_id : option uuid;
  price : Z;
  commission_internal_rate : option Z;
  commission_external_rate : option Z;
  commission_internal_amount : option Z;
  commission_external_amount : option Z
}.

(** The row function of trigger [trg_medact_comm], [BEFORE INSERT OR UPDATE]:
    both amounts of [NEW] are overwritten; the assignment to a
    [NUMERIC(10,2)] field rounds the six-digit-scale product. *)
Definition compute_act_commissions (NEW : medical_act) : result medical_act :=
  ia <- Numeric.store 10 4 (price NEW * COALESCE (commission_internal_rate NEW) 0) ;;
  ea <- Numeric.store 10 4 (price NEW * COALESCE (commission_external_rate NEW) 0) ;;
  Ok {| id := id NEW;
        encounter_id := encounter_id NEW;
        price := price NEW;
        commission_internal_rate := commission_internal_rate NEW;
        commission_external_rate := commission_external_rate NEW;
        commission_internal_amount := Some ia;
        commission_external_amount := Some ea |}.

(** [INSERT INTO medical_acts VALUES (NEW)]: the row that is written is the
    one the trigger returns. *)
Definition insert_medical_act (tbl : list medical_act) (NEW : medical_act)
  : result (list medical_act) :=
  row <- compute_act_commissions NEW ;;
  Ok (tbl ++ [row]).

(** [UPDATE medical_acts SET ... WHERE id = target]: [set] builds [NEW] from
    [OLD] (it may assign the amount columns); the trigger then runs on every
    updated row. *)
Fixpoint update_medical_act (tbl : list medical_act) (target : uuid)
  (set : medical_act -> medical_act) : result (list medical_act) :=
  match tbl with
  | [] => Ok []
  | OLD :: rest =>
      if String.eqb (id OLD) target then
        row <- compute_act_commissions (set OLD) ;;
        rest' <- update_medical_act rest target set ;;
        Ok (row :: rest')
      else
        rest' <- update_medical_act rest target set ;;
        Ok (OLD :: rest')
  end.

(** *** Vocabulary of the statements about the trigger *)

(** What the column of an act ends up holding for a given rate: the product
    rounded to hundredths. *)
Definition derived_amount (NEW : medical_act) (rate : option Z) : Z :=
  Numeric.round_half_away (price NEW * COALESCE rate 0) (10 ^ 4).

(** The row written for [NEW]: everything as supplied, except the two
    amount columns. *)
Definition persisted (NEW : medical_act) : medical_act :=
  {| id := id NEW;
     encounter_id := encounter_id NEW;
     price := price NEW;
     commission_internal_rate := commission_internal_rate NEW;
     commission_external_rate := commission_external_rate NEW;
     commission_internal_amount :=
       Some (derived_amount NEW (commission_internal_rate NEW));
     commission_external_amount :=
       Some (derived_amount NEW (commission_external_rate NEW)) |}.

Definition amounts_fit (NEW : medical_act) : Prop :=
  Numeric.fits 10 (derived_amount NEW (commission_internal_rate NEW)) = true /\
  Numeric.fits 10 (derived_amount NEW (commission_external_rate NEW)) = true.

(** The act of the specification: price 100.00, rates 0.1500 and 0.0500,
    and a client that claims amounts of 999.99 and 0.01. *)
Definition act_100 : medical_act :=
  {| id := "a1"; encounter_id := Some "e1"; price := 10000;
     commission_internal_rate := Some 1500;
     commission_external_rate := Some 500;
     commission_internal_amount := Some 99999;
     commission_external_amount := Some 1 |}.

(** An act priced 0.10 with an internal rate of 0.1500. *)
Definition act_sub_cent : medical_act :=
  {| id := "a2"; encounter_id := Some "e1"; price := 10;
     commission_internal_rate := Some 1500;
     commission_external_rate := Some 0;
     commission_internal_amount := None;
     commission_external_amount := None |}.

End Commission.

(** ** Pharmacy stock ([fn_update_pharmacy_stock], [createTransaction]) *)

Module Pharmacy.

Local Open Scope Z_scope.

(** [pharmacy_items]: [current_stock INTEGER DEFAULT 0]. *)
Record pharmacy_item : Type := {
  id : uuid;
  center_id : option uuid;
  current_stock : option Z
}.

(** [transaction_type TEXT CHECK (transaction_type IN ('in', 'out'))]. *)
Inductive transaction_type : Type := tx_in | tx_out.

(** [pharmacy_transactions]: [quantity INTEGER NOT NULL].  The rows here
    name an item, as every row the routers write does, and take their key
    from the default of the column, so the key is new. *)
Record pharmacy_transaction : Type := {
  tx_id : uuid;
  item_id : uuid;
  tx_type : transaction_type;
  quantity : Z
}.

Record db : Type := {
  pharmacy_items : list pharmacy_item;
  pharmacy_transactions : list pharmacy_transaction
}.

(** The range of an [INTEGER] column. *)
Definition int4 (v : Z) : bool := (- 2 ^ 31 <=? v) && (v <=? 2 ^ 31 - 1).

(** [-q] on [INTEGER]: the negation of the least value raises. *)
Definition int4um (q : Z) : result Z :=
  if int4 (- q) then Ok (- q) else Throw (PgError integer_out_of_range).

(** [UPDATE pharmacy_items SET current_stock = current_stock + delta
     WHERE id = target]: [delta] is evaluated for each row reached; a NULL
    stock stays NULL, a sum outside [INTEGER] raises. *)
Fixpoint add_stock (items : list pharmacy_item) (target : uuid)
  (delta : result Z) : result (list pharmacy_item) :=
  match items with
  | [] => Ok []
  | it :: rest =>
      if String.eqb (id it) target then
        stock <- (dl <- delta ;;
                  match current_stock it with
                  | None => Ok None
                  | Some s =>
                      if int4 (s + dl) then Ok (Some (s + dl))
                      else Throw (PgError integer_out_of_range)
                  end) ;;
        rest' <- add_stock rest target delta ;;
        Ok ({| id := id it; center_id := center_id it;
               current_stock := stock |} :: rest')
      else
        rest' <- add_stock rest target delta ;;
        Ok (it :: rest')
  end.

(** The row function of [trg_pharmacy_upd], [AFTER INSERT ON
    pharmacy_transactions FOR EACH ROW]. *)
Definition fn_update_pharmacy_stock (op : tg_op) (NEW : pharmacy_transaction)
  (d : db) : result db :=
  match op with
  | INSERT =>
      items <- add_stock (pharmacy_items d) (item_id NEW)
                 (match tx_type NEW with
                  | tx_in => Ok (quantity NEW)
                  | tx_out => int4um (quantity NEW)
                  end) ;;
      Ok {| pharmacy_items := items;
            pharmacy_transactions := pharmacy_transactions d |}
  | _ => Ok d
  end.

(** [INSERT INTO pharmacy_transactions VALUES (NEW)]: the quantity must be an
    [INTEGER], the item must exist, then the trigger runs. *)
Definition insert_pharmacy_transaction (d : db) (NEW : pharmacy_transaction)
  : result db :=
  if negb (int4 (quantity NEW)) then Throw (PgError integer_out_of_range)
  else if negb (existsb (fun it => String.eqb (id it) (item_id NEW))
                  (pharmacy_items d))
  then Throw (PgError foreign_key_violation)
  else
    fn_update_pharmacy_stock INSERT NEW
      {| pharmacy_items := pharmacy_items d;
         pharmacy_transactions := pharmacy_transactions d ++ [NEW] |}.

(** The input of [createTransaction], as [transactionSchema] types it. *)
Record transaction_input : Type := {
  itemId : uuid;
  transactionType : transaction_type;
  input_quantity : Z
}.

Record transaction_output : Type := {
  transaction : pharmacy_transaction;
  newStock : Z
}.

(** [SELECT * FROM pharmacy_items WHERE id = itemId LIMIT 1]. *)
Definition select_item (d : db) (target : uuid) : option pharmacy_item :=
  find (fun it => String.eqb (id it) target) (pharmacy_items d).

(** [parseInt(item.currentStock?.toString() || "0")]. *)
Definition parse_stock (it : pharmacy_item) : Z := COALESCE (current_stock it) 0.

(** The [createTransaction] procedure of the pharmacy router, after the
    [requireUser] middleware: input validation, then the mutation.
    [database] is what [getDb()] returns and [new_id] the generated key of
    the ledger row.  Every [Throw] leaves the database as it was: the only
    statement that writes is the insert, and it is atomic. *)
Definition createTransaction (database : option db) (new_id : uuid)
  (input : transaction_input) : result (db * transaction_output) :=
  if input_quantity input <=? 0 then
    Throw (TRPCError BAD_REQUEST "Quantity must be positive")
  else
  match database with
  | None => Throw (TRPCError INTERNAL_SERVER_ERROR "Database not available")
  | Some d =>
      match select_item d (itemId input) with
      | None => Throw (TRPCError NOT_FOUND "Pharmacy item not found")
      | Some item =>
          let currentStock := parse_stock item in
          if match transactionType input with
             | tx_out => currentStock <? input_quantity input
             | tx_in => false
             end
          then
            Throw (TRPCError BAD_REQUEST
                     ("Insufficient stock. Current: " ++ show_Z currentStock
                      ++ ", Requested: " ++ show_Z (input_quantity input)))
          else
            let NEW := {| tx_id := new_id; item_id := itemId input;
                          tx_type := transactionType input;
                          quantity := input_quantity input |} in
            d' <- insert_pharmacy_transaction d NEW ;;
            match select_item d' (itemId input) with
            | None => Throw (JsError "Cannot read properties of undefined")
            | Some updatedItem =>
                Ok (d', {| transaction := NEW;
                           newStock := parse_stock updatedItem |})
            end
      end
  end.

(** The procedure of the same name in [pharmacyRouter], the pharmacy router
    of [remaining.ts] that one version of the application router mounts as
    [pharmacy]: input validation, then the insert, with no look at the
    stock. *)
Module pharmacyRouter.

Definition createTransaction (database : option db) (new_id : uuid)
  (input : transaction_input) : result (db * pharmacy_transaction) :=
  if input_quantity input <=? 0 then
    Throw (TRPCError BAD_REQUEST "Number must be greater than 0")
  else
  match database with
  | None => Throw (TRPCError INTERNAL_SERVER_ERROR "Database not available")
  | Some d =>
      let NEW := {| tx_id := new_id; item_id := itemId input;
                    tx_type := transactionType input;
                    quantity := input_quantity input |} in
      d' <- insert_pharmacy_transaction d NEW ;;
      Ok (d', NEW)
  end.

End pharmacyRouter.

(** A server handling a sequence of [createTransaction] requests: a request
    that throws leaves the database unchanged. *)
Definition step (d : db) (req : uuid * transaction_input) : db :=
  match createTransaction (Some d) (fst req) (snd req) with
  | Ok (d', _) => d'
  | Throw _ => d
  end.

Definition serve (d : db) (reqs : list (uuid * transaction_input)) : db :=
  fold_left step reqs d.

(** *** Vocabulary of the statements about the stock *)

(** The effect of the trigger's [UPDATE] on one row. *)
Definition bump (target : uuid) (delta : Z) (it : pharmacy_item) : pharmacy_item :=
  if String.eqb (id it) target then
    {| id := id it; center_id := center_id it;
       current_stock := option_map (fun s => s + delta) (current_stock it) |}
  else it.

(** [id] is the primary key of [pharmacy_items]. *)
Definition primary_key (d : db) : Prop := NoDup (map id (pharmacy_items d)).

(** No item holds a negative stock. *)
Definition stock_nonneg (d : db) : Prop :=
  Forall (fun it => forall s, current_stock it = Some s -> 0 <= s)
    (pharmacy_items d).

(** The stock of the first item with key [target]. *)
Definition stock_of (d : db) (target : uuid) : option Z :=
  match select_item d target with
  | Some it => current_stock it
  | None => None
  end.

(** One item holding 10 units, no ledger entry yet. *)
Definition shelf : db :=
  {| pharmacy_items := [ {| id := "item1"; center_id := Some "c1";
                            current_stock := Some 10 |} ];
     pharmacy_transactions := [] |}.

Definition out_of (n : Z) : transaction_input :=
  {| itemId := "item1"; transactionType := tx_out; input_quantity := n |}.

End Pharmacy.

(** ** Row-level security: session context, policies, middlewares *)

Module Rls.

(** The tables the statements below talk about.  Row-level security is
    enabled on the first seven (section 7.1 of the schema script);
    [encounters], [doctors] and [pharmacy_items] carry a [center_id] but have
    no policy. *)
Inductive table : Type :=
| users
| patients
| appointments
| invoices
| documents
| medical_acts
| prescriptions
| encounters
| doctors
| pharmacy_items.

Definition table_eq_dec (a b : table) : {a = b} + {a <> b}.
Proof. decide equality. Defined.

(** The columns the policies read; a column a table does not have is
    NULL.  The other columns of a row are taken to be in order: what must
    be given is given, and what the row refers to (its center, its
    patient) exists. *)
Record row : Type := {
  id : uuid;
  center_id : option uuid;
  is_superadmin : option bool;
  encounter_id : option uuid
}.

(** The custom settings of a connection: [None] is a setting that was never
    assigned ([current_setting(name, TRUE)] is then NULL). *)
Record session : Type := {
  app_user_id : option string;
  app_center_id : option string
}.

(** [audit_logs]: [user_id REFERENCES users(id)]; the two images of the row
    are kept as rows. *)
Record audit_entry : Type := {
  audit_table : table;
  audit_operation : tg_op;
  audit_user_id : option uuid;
  audit_record_id : option uuid;
  audit_old : option row;
  audit_new : option row
}.

(** One connection of the pool that [getDb()] hands out, with the tables
    and the audit trail behind it.  The pool itself is [Pool.pool]
    below. *)
Record pg : Type := {
  sess : session;
  contents : table -> list row;
  audit_logs : list audit_entry
}.

(** Behaviour that the sources leave to their environment: whether the
    engine accepts the literal of [SET app.center_id = NULL], and the two
    messages imported from [@shared/const]. *)
Record env : Type := {
  null_literal_accepted : bool;
  UNAUTHED_ERR_MSG : string;
  NOT_ADMIN_ERR_MSG : string
}.

(** Computations whose statements all run on one connection: the
    connection state survives a rejection. *)
Definition M (A : Type) : Type := option pg -> result A * option pg.

(** [NULLIF(v, s)]. *)
Definition NULLIF (v : option string) (s : string) : option string :=
  match v with
  | Some x => if String.eqb x s then None else Some x
  | None => None
  end.

(** [get_user_center_id()]: [NULLIF(current_setting('app.center_id', TRUE),
    '')::UUID].  Identifiers are kept in text form, the cast is the
    identity on them. *)
Definition get_user_center_id (s : session) : option uuid :=
  NULLIF (app_center_id s) "".

(** [(SELECT center_id FROM encounters WHERE id = encounter_id)]. *)
Definition encounter_center (st : pg) (enc : option uuid) : option uuid :=
  match enc with
  | None => None
  | Some e =>
      match find (fun r => String.eqb (id r) e) (contents st encounters) with
      | Some r => center_id r
      | None => None
      end
  end.

(** [b = TRUE] on a nullable boolean. *)
Definition is_true (b : option bool) : option bool := b.

(** The [USING] expression of the policy of a table; [None] when row-level
    security is not enabled on it. *)
Definition policy_using (st : pg) (tbl : table) (r : row) : option (option bool) :=
  let mine := get_user_center_id (sess st) in
  match tbl with
  | users =>
      Some (Sql3.or (is_true (is_superadmin r)) (Sql3.eq (center_id r) mine))
  | patients | appointments | invoices | documents =>
      Some (Sql3.eq (center_id r) mine)
  | medical_acts | prescriptions =>
      Some (Sql3.eq (encounter_center st (encounter_id r)) mine)
  | encounters | doctors | pharmacy_items => None
  end.

(** The [WITH CHECK] expression. *)
Definition policy_with_check (st : pg) (tbl : table) (r : row) : option (option bool) :=
  let mine := get_user_center_id (sess st) in
  match tbl with
  | users | patients | appointments | invoices | documents =>
      Some (Sql3.eq (center_id r) mine)
  | medical_acts | prescriptions =>
      Some (Sql3.eq (encounter_center st (encounter_id r)) mine)
  | encounters | doctors | pharmacy_items => None
  end.

Definition passes (c : option (option bool)) : bool :=
  match c with
  | None => true
  | Some c => Sql3.holds c
  end.

Definition visible (st : pg) (tbl : table) (r : row) : bool :=
  passes (policy_using st tbl r).

Definition set_contents (st : pg) (tbl : table) (rows : list row) : pg :=
  {| sess := sess st;
     contents := fun t => if table_eq_dec t tbl then rows else contents st t;
     audit_logs := audit_logs st |}.

(** *** The audit triggers *)

(** [audit_users], [audit_patients], [audit_invoices]: [AFTER INSERT OR
    UPDATE OR DELETE ... FOR EACH ROW]. *)
Definition audited (tbl : table) : bool :=
  match tbl with
  | users | patients | invoices => true
  | _ => false
  end.

(** [get_current_user_id()]:
    [NULLIF(current_setting('app.user_id', TRUE), '')::UUID].  As for the
    center, the setting holds the text of a UUID (the middlewares set it
    from [ctx.user.id]); what the trigger does with another text is the
    matter of [Audit] below. *)
Definition get_current_user_id (s : session) : option uuid :=
  NULLIF (app_user_id s) "".

(** Whether [usr] can be stored in [audit_logs.user_id]: NULL, or the key
    of a row of [users] (the check of a reference does not go through the
    policies). *)
Definition referenced (st : pg) (usr : option uuid) : bool :=
  match usr with
  | Some u => existsb (fun r => String.eqb (id r) u) (contents st users)
  | None => true
  end.

(** [log_audit_change()] for one row: the insert into [audit_logs] is
    outside the block that has an exception handler. *)
Definition log_audit_change (tbl : table) (op : tg_op) (OLD NEW : option row)
  (st : pg) : result pg :=
  let usr_id := get_current_user_id (sess st) in
  if referenced st usr_id then
    Ok {| sess := sess st; contents := contents st;
          audit_logs := audit_logs st
                        ++ [ {| audit_table := tbl; audit_operation := op;
                                audit_user_id := usr_id;
                                audit_record_id :=
                                  match NEW with
                                  | Some n => Some (id n)
                                  | None => option_map id OLD
                                  end;
                                audit_old := OLD; audit_new := NEW |} ] |}
  else Throw (PgError foreign_key_violation).

(** The row triggers queued by a statement on [tbl], run once the statement
    has changed the table. *)
Fixpoint fire_audit (tbl : table) (op : tg_op)
  (events : list (option row * option row)) (st : pg) : result pg :=
  match events with
  | [] => Ok st
  | (OLD, NEW) :: rest =>
      if audited tbl then
        st' <- log_audit_change tbl op OLD NEW st ;;
        fire_audit tbl op rest st'
      else fire_audit tbl op rest st
  end.

(** How often a key occurs in a table. *)
Definition occurrences (key : uuid) (rows : list row) : nat :=
  List.length (filter (fun r => String.eqb (id r) key) rows).

(** *** Statements *)

(** [SELECT * FROM tbl WHERE cond]. *)
Definition select_from (st : pg) (tbl : table) (cond : row -> bool) : list row :=
  filter cond (filter (visible st tbl) (contents st tbl)).

(** [INSERT INTO tbl VALUES (r)]: the new row must pass [WITH CHECK], its
    key must be new ([id] is the primary key of every table), and the audit
    trigger of the table, if it has one, runs on the row. *)
Definition insert_into (st : pg) (tbl : table) (r : row) : result pg :=
  if passes (policy_with_check st tbl r)
  then
    if existsb (fun x => String.eqb (id x) (id r)) (contents st tbl)
    then Throw (PgError unique_violation)
    else fire_audit tbl INSERT [(None, Some r)]
           (set_contents st tbl (contents st tbl ++ [r]))
  else Throw (PgError row_security_violation).

(** [UPDATE tbl SET ... WHERE cond]: the rows in reach are those the
    [USING] expression shows; every new row must pass [WITH CHECK]; a key
    that changes must not meet another row; then the audit trigger runs on
    every updated row. *)
Definition update_set (st : pg) (tbl : table) (cond : row -> bool)
  (set : row -> row) : result (pg * list row) :=
  let hit := fun r => visible st tbl r && cond r in
  let reached := filter hit (contents st tbl) in
  let changed := map set reached in
  let after := map (fun r => if hit r then set r else r) (contents st tbl) in
  if forallb (fun r => passes (policy_with_check st tbl r)) changed
  then
    if forallb (fun r => String.eqb (id (set r)) (id r)
                         || Nat.eqb (occurrences (id (set r)) after) 1) reached
    then
      st' <- fire_audit tbl UPDATE (map (fun r => (Some r, Some (set r))) reached)
               (set_contents st tbl after) ;;
      Ok (st', changed)
    else Throw (PgError unique_violation)
  else Throw (PgError row_security_violation).

(** *** [server/db/rls.ts] *)

(** [SET app.user_id = '...'] and [SET app.center_id = '...'] (or [NULL],
    where the engine takes it): session-level settings of the connection
    that runs the statement. *)
Definition set_user_id (st : pg) (v : string) : pg :=
  {| sess := {| app_user_id := Some v; app_center_id := app_center_id (sess st) |};
     contents := contents st;
     audit_logs := audit_logs st |}.

Definition set_center_id (st : pg) (v : option string) : pg :=
  {| sess := {| app_user_id := app_user_id (sess st); app_center_id := v |};
     contents := contents st;
     audit_logs := audit_logs st |}.

(** A JavaScript string used as a condition: [null] and [""] are falsy. *)
Definition truthy (s : option string) : option string := NULLIF s "".

Definition setRLSContext (E : env) (userId : string) (centerId : option string)
  : M unit :=
  fun database =>
    match database with
    | None => (Throw (JsError "[RLS] Database not available"), None)
    | Some st =>
        let st1 := set_user_id st userId in
        match truthy centerId with
        | Some c => (Ok tt, Some (set_center_id st1 (Some c)))
        | None =>
            if null_literal_accepted E
            then (Ok tt, Some (set_center_id st1 None))
            else (Throw (JsError "Failed to apply RLS context"), Some st1)
        end
    end.

(** [getCurrentRLSContext()]: [null] without a database; else the two
    settings are selected and read through [result.rows[0]], with [|| null]
    applied, inside a [try] whose [catch] answers [null]. *)
Definition getCurrentRLSContext (database : option pg)
  : option (option string * option string) :=
  match database with
  | None => None
  | Some st =>
      let attempt :=
        row <- index_0 (result_rows [(app_user_id (sess st),
                                      app_center_id (sess st))]) ;;
        Ok (match row with
            | Some (user_id, center_id) => (truthy user_id, truthy center_id)
            | None => (None, None)
            end) in
      match attempt with
      | Ok context => Some context
      | Throw _ => None
      end
  end.

Definition validateRLSContext (database : option pg) : result unit :=
  match getCurrentRLSContext database with
  | Some (Some _, _) => Ok tt
  | _ => Throw (JsError
           "[RLS] Context not set. Call setRLSContext() before database operations.")
  end.

(** *** [server/_core/trpc.ts] *)

(** [ctx.user]. *)
Record principal : Type := {
  user_id : uuid;
  username : string;
  centerId : option uuid;
  isSuperadmin : bool
}.

Definition requireUser {A : Type} (E : env) (user : option principal)
  (next : principal -> M A) : M A :=
  fun database =>
    match user with
    | None => (Throw (TRPCError UNAUTHORIZED (UNAUTHED_ERR_MSG E)), database)
    | Some u =>
        match setRLSContext E (user_id u) (truthy (centerId u)) database with
        | (Throw _, db1) =>
            (Throw (TRPCError INTERNAL_SERVER_ERROR
                      "Failed to initialize secure context"), db1)
        | (Ok _, db1) => next u db1
        end
    end.

Definition requireAdmin {A : Type} (E : env) (user : option principal)
  (next : principal -> M A) : M A :=
  fun database =>
    match user with
    | None => (Throw (TRPCError UNAUTHORIZED (UNAUTHED_ERR_MSG E)), database)
    | Some u =>
        if negb (isSuperadmin u) then
          (Throw (TRPCError FORBIDDEN (NOT_ADMIN_ERR_MSG E)), database)
        else
          match setRLSContext E (user_id u) (truthy (centerId u)) database with
          | (Throw _, db1) =>
              (Throw (TRPCError INTERNAL_SERVER_ERROR
                        "Failed to initialize admin context"), db1)
          | (Ok _, db1) => next u db1
          end
    end.

(** *** Handlers and the helpers of [server/db.ts] *)

(** A handler that runs one query, as the list procedures of the routers do:
    [database.select().from(tbl).where(cond)]. *)
Definition query (tbl : table) (cond : row -> bool) : M (list row) :=
  fun database =>
    match database with
    | None => (Throw (TRPCError INTERNAL_SERVER_ERROR "Database not available"), None)
    | Some st => (Ok (select_from st tbl cond), Some st)
    end.

Definition center_is (c : uuid) (r : row) : bool :=
  Sql3.holds (Sql3.eq (center_id r) (Some c)).

(** [getPatientsByCenterId(centerId)]. *)
Definition getPatientsByCenterId (c : uuid) : M (list row) :=
  fun database =>
    match database with
    | None => (Ok [], None)
    | Some st => (Ok (select_from st patients (center_is c)), Some st)
    end.

(** [getDoctorsByCenterId(centerId)]. *)
Definition getDoctorsByCenterId (c : uuid) : M (list row) :=
  fun database =>
    match database with
    | None => (Ok [], None)
    | Some st => (Ok (select_from st doctors (center_is c)), Some st)
    end.

(** [createPatient(data)]: [undefined] without a database, else the
    inserted row. *)
Definition createPatient (data : row) : M (option row) :=
  fun database =>
    match database with
    | None => (Ok None, None)
    | Some st =>
        match insert_into st patients data with
        | Ok st' => (Ok (Some data), Some st')
        | Throw e => (Throw e, Some st)
        end
    end.

(** The input of the [list] procedure of the doctors router; [keep] stands
    for its [specialtyId] and [isActive] filters. *)
Record doctors_list_input : Type := {
  in_centerId : option uuid;
  keep : row -> bool;
  limit : nat;
  offset : nat
}.

(** The [list] procedure of the doctors router, after [requireUser]. *)
Definition doctors_list (input : doctors_list_input) (u : principal) : M (list row) :=
  fun database =>
    let c := match truthy (in_centerId input) with
             | Some c => Some c
             | None => truthy (centerId u)
             end in
    match c with
    | None =>
        if negb (isSuperadmin u) then
          (Throw (TRPCError FORBIDDEN "Must specify center or be superadmin"),
           database)
        else (Ok (firstn (limit input) (skipn (offset input) (filter (keep input) []))),
              database)
    | Some c =>
        match getDoctorsByCenterId c database with
        | (Ok found, db1) =>
            (Ok (firstn (limit input)
                   (skipn (offset input) (filter (keep input) found))), db1)
        | (Throw e, db1) => (Throw e, db1)
        end
    end.

(** *** Vocabulary of the statements about isolation *)

(** The tables whose policy compares the row's center with the caller's. *)
Definition center_scoped (tbl : table) : bool :=
  match tbl with
  | patients | appointments | invoices | documents
  | medical_acts | prescriptions => true
  | _ => false
  end.

(** The tenant a row belongs to: its own [center_id], or the one of its
    encounter for acts and prescriptions. *)
Definition owner (st : pg) (tbl : table) (r : row) : option uuid :=
  match tbl with
  | medical_acts | prescriptions => encounter_center st (encounter_id r)
  | _ => center_id r
  end.

Definition owned_by (st : pg) (tbl : table) (c : uuid) (r : row) : bool :=
  Sql3.holds (Sql3.eq (owner st tbl r) (Some c)).

(** No context was built on the connection. *)
Definition no_context (st : pg) : Prop :=
  get_user_center_id (sess st) = None.

(** *** A two-center installation *)

(** An engine that rejects the [NULL] literal; the two messages are
    stand-ins. *)
Definition E0 : env :=
  {| null_literal_accepted := false;
     UNAUTHED_ERR_MSG := "unauthenticated";
     NOT_ADMIN_ERR_MSG := "not an administrator" |}.

(** The same environment with an engine that takes the [NULL] literal. *)
Definition E1 : env :=
  {| null_literal_accepted := true;
     UNAUTHED_ERR_MSG := UNAUTHED_ERR_MSG E0;
     NOT_ADMIN_ERR_MSG := NOT_ADMIN_ERR_MSG E0 |}.

Definition plain (i : uuid) (c : option uuid) : row :=
  {| id := i; center_id := c; is_superadmin := None; encounter_id := None |}.

(** Patient P1 of center A, patient P2 of center B. *)
Definition P1 : row := plain "p1" (Some "center-a").
Definition P2 : row := plain "p2" (Some "center-b").

(** A doctor of center B. *)
Definition D2 : row := plain "d2" (Some "center-b").

(** The administrator, once assigned to center B (step 4 of the
    post-installation script), and a user of each center. *)
Definition admin_row : row :=
  {| id := "u0"; center_id := Some "center-b"; is_superadmin := Some true;
     encounter_id := None |}.
Definition alice_row : row :=
  {| id := "u1"; center_id := Some "center-a"; is_superadmin := Some false;
     encounter_id := None |}.
Definition bob_row : row :=
  {| id := "u2"; center_id := Some "center-b"; is_superadmin := Some false;
     encounter_id := None |}.

(** A fresh connection to the installation: no setting assigned. *)
Definition clinic : pg :=
  {| sess := {| app_user_id := None; app_center_id := None |};
     contents := fun t =>
       match t with
       | users => [admin_row; alice_row; bob_row]
       | patients => [P1; P2]
       | doctors => [D2]
       | _ => []
       end;
     audit_logs := [] |}.

(** A non-privileged principal of center A. *)
Definition alice : principal :=
  {| user_id := "u1"; username := "alice"; centerId := Some "center-a";
     isSuperadmin := false |}.

(** The seeded administrator: privileged, no center. *)
Definition root : principal :=
  {| user_id := "u0"; username := "admin"; centerId := None;
     isSuperadmin := true |}.

Definition everything : row -> bool := fun _ => true.

End Rls.
(** ** The pool of connections *)

Module Pool.

Import Rls.

(** What [getDb()] hands out: [postgres(DATABASE_URL)] is a pool.  Its
    connections share the tables and the audit trail, and each carries its
    own settings.  The driver sends every statement to a connection of its
    choosing; nothing in the sources ties the statements of a request to
    one connection (there is no transaction and no reserved connection). *)
Record pool : Type := {
  connections : list session;
  tables : table -> list row;
  trail : list audit_entry
}.

(** The settings of a connection that has just been opened. *)
Definition unset : session := {| app_user_id := None; app_center_id := None |}.

(** The connection a statement runs on: the [pick]-th of those open, or,
    past them, one that the pool opens for it. *)
Definition connection (p : pool) (pick : nat) : pg :=
  {| sess := nth pick (connections p) unset;
     contents := tables p;
     audit_logs := trail p |}.

Fixpoint put (l : list session) (pick : nat) (s : session) : list session :=
  match l, pick with
  | [], _ => [s]
  | _ :: rest, O => s :: rest
  | x :: rest, S n => x :: put rest n s
  end.

(** The pool once the statement has run. *)
Definition release (p : pool) (pick : nat) (st : pg) : pool :=
  {| connections := put (connections p) pick (sess st);
     tables := contents st;
     trail := audit_logs st |}.

Definition P (A : Type) : Type := option pool -> result A * option pool.

(** A statement [m] sent through the pool to the connection [pick]. *)
Definition on {A : Type} (pick : nat) (m : M A) : P A :=
  fun database =>
    match database with
    | None => (fst (m None), None)
    | Some p =>
        match m (Some (connection p pick)) with
        | (r, Some st) => (r, Some (release p pick st))
        | (r, None) => (r, Some p)
        end
    end.

(** [setRLSContext(userId, centerId)]: two statements, each on the
    connection the driver picks for it. *)
Definition setRLSContext (E : env) (userId : string) (centerId : option string)
  (picks : nat * nat) : P unit :=
  fun database =>
    match database with
    | None => (Throw (JsError "[RLS] Database not available"), None)
    | Some p =>
        let p1 := release p (fst picks)
                    (set_user_id (connection p (fst picks)) userId) in
        match truthy centerId with
        | Some c =>
            (Ok tt, Some (release p1 (snd picks)
                            (set_center_id (connection p1 (snd picks)) (Some c))))
        | None =>
            if null_literal_accepted E
            then (Ok tt, Some (release p1 (snd picks)
                                 (set_center_id (connection p1 (snd picks)) None)))
            else (Throw (JsError "Failed to apply RLS context"), Some p1)
        end
    end.

(** [requireUser], then the handler. *)
Definition requireUser {A : Type} (E : env) (user : option principal)
  (picks : nat * nat) (next : principal -> P A) : P A :=
  fun database =>
    match user with
    | None => (Throw (TRPCError UNAUTHORIZED (UNAUTHED_ERR_MSG E)), database)
    | Some u =>
        match setRLSContext E (user_id u) (truthy (centerId u)) picks database with
        | (Throw _, db1) =>
            (Throw (TRPCError INTERNAL_SERVER_ERROR
                      "Failed to initialize secure context"), db1)
        | (Ok _, db1) => next u db1
        end
    end.

(** A handler that runs one query. *)
Definition query (pick : nat) (tbl : table) (cond : row -> bool) : P (list row) :=
  on pick (Rls.query tbl cond).

(** *** An installation with two open connections *)

(** A non-privileged principal of center B. *)
Definition bob : principal :=
  {| user_id := "u2"; username := "bob"; centerId := Some "center-b";
     isSuperadmin := false |}.

Definition two_connections : pool :=
  {| connections := [unset; unset];
     tables := contents clinic;
     trail := [] |}.

End Pool.
(** ** Invoice totals ([recalc_invoice_totals]) *)

(** A statement on [invoice_items] and the triggers it queues run on one
    connection.  [invoice_items] has no policy; [invoices] has the policy
    [invoices_center], and [recalc_invoice_totals] is not [SECURITY
    DEFINER]: its [UPDATE invoices] reaches the rows the connection may
    see, and fires [audit_invoices] on each of them. *)

Module Invoice.

Local Open Scope Z_scope.

(** [invoices]: [center_id] is [NOT NULL], [total_amount] is
    [NUMERIC(10,2) DEFAULT 0.00]. *)
Record invoice : Type := {
  id : uuid;
  center_id : uuid;
  total_amount : option Z
}.

(** [invoice_items]: [quantity] and [unit_price] are [NUMERIC(10,2)]. *)
Record invoice_item : Type := {
  item_id : uuid;
  invoice_id : uuid;
  quantity : Z;
  unit_price : Z
}.

(** [total_price NUMERIC(10,2) GENERATED ALWAYS AS (quantity * unit_price)
    STORED]: a function of the row; the four-decimal product is rounded to
    the column's two decimals. *)
Definition total_price (it : invoice_item) : Z :=
  Numeric.round_half_away (quantity it * unit_price it) (10 ^ 2).

(** A row of [audit_logs] written by [audit_invoices] for an update:
    [user_id], [record_id], [old_data], [new_data]. *)
Record audit_entry : Type := {
  audit_user_id : option uuid;
  audit_record_id : uuid;
  audit_old : invoice;
  audit_new : invoice
}.

(** The connection: its settings, the keys of [users] (what
    [audit_logs.user_id] references), the two tables and the audit
    trail. *)
Record db : Type := {
  sess : Rls.session;
  users : list uuid;
  invoices : list invoice;
  invoice_items : list invoice_item;
  audit_logs : list audit_entry
}.

Definition with_invoices (d : db) (invs : list invoice) : db :=
  {| sess := sess d; users := users d; invoices := invs;
     invoice_items := invoice_items d; audit_logs := audit_logs d |}.

Definition with_invoice_items (d : db) (items : list invoice_item) : db :=
  {| sess := sess d; users := users d; invoices := invoices d;
     invoice_items := items; audit_logs := audit_logs d |}.

(** Policy [invoices_center]:
    [USING (center_id = get_user_center_id())], and the same expression
    [WITH CHECK]. *)
Definition invoices_center (d : db) (inv : invoice) : bool :=
  Sql3.holds (Sql3.eq (Some (center_id inv)) (Rls.get_user_center_id (sess d))).

(** [SELECT COALESCE(SUM(total_price), 0) FROM invoice_items
     WHERE invoice_id = target]. *)
Definition sum_total_price (items : list invoice_item) (target : uuid) : Z :=
  fold_right Z.add 0
    (map total_price
       (filter (fun it => String.eqb (invoice_id it) target) items)).

Definition with_total (inv : invoice) (total : Z) : invoice :=
  {| id := id inv; center_id := center_id inv; total_amount := Some total |}.

(** [UPDATE invoices SET total_amount = total WHERE id = target] on the
    rows the policy lets through ([reach]); the new value must fit
    [NUMERIC(10,2)] on every row it is assigned to.  The center of a row is
    not assigned, so a row that passes [USING] passes [WITH CHECK]. *)
Fixpoint set_total_amount (reach : invoice -> bool) (invs : list invoice)
  (target : uuid) (total : Z) : result (list invoice) :=
  match invs with
  | [] => Ok []
  | inv :: rest =>
      if reach inv && String.eqb (id inv) target then
        t <- Numeric.store 10 0 total ;;
        rest' <- set_total_amount reach rest target total ;;
        Ok (with_total inv t :: rest')
      else
        rest' <- set_total_amount reach rest target total ;;
        Ok (inv :: rest')
  end.

(** Whether the user of the context can be stored in
    [audit_logs.user_id]: NULL, or the key of a row of [users]. *)
Definition storable (d : db) : bool :=
  match Rls.get_current_user_id (sess d) with
  | Some usr => existsb (String.eqb usr) (users d)
  | None => true
  end.

(** [log_audit_change()] for one updated invoice. *)
Definition log_audit_change (OLD NEW : invoice) (d : db) : result db :=
  if storable d then
    Ok {| sess := sess d; users := users d; invoices := invoices d;
          invoice_items := invoice_items d;
          audit_logs := audit_logs d
                        ++ [ {| audit_user_id := Rls.get_current_user_id (sess d);
                                audit_record_id := id NEW;
                                audit_old := OLD; audit_new := NEW |} ] |}
  else Throw (PgError foreign_key_violation).

(** [audit_invoices], [AFTER ... UPDATE ... ON invoices FOR EACH ROW]. *)
Fixpoint audit_invoices (changes : list (invoice * invoice)) (d : db)
  : result db :=
  match changes with
  | [] => Ok d
  | (OLD, NEW) :: rest =>
      d' <- log_audit_change OLD NEW d ;;
      audit_invoices rest d'
  end.

(** The row function of [trg_invoice_recalc], [AFTER INSERT OR UPDATE OR
    DELETE ON invoice_items FOR EACH ROW]. *)
Definition recalc_invoice_totals (op : tg_op) (OLD NEW : option invoice_item)
  (d : db) : result db :=
  let target_id :=
    match op with
    | DELETE => option_map invoice_id OLD
    | _ => option_map invoice_id NEW
    end in
  match target_id with
  | None => Ok d
  | Some target =>
      let total := sum_total_price (invoice_items d) target in
      let hit := fun inv => invoices_center d inv && String.eqb (id inv) target in
      invs <- set_total_amount (invoices_center d) (invoices d) target total ;;
      audit_invoices
        (map (fun inv => (inv, with_total inv total)) (filter hit (invoices d)))
        (with_invoices d invs)
  end.

(** The triggers queued by a statement run once the statement has changed
    the table, one per affected row. *)
Fixpoint fire (op : tg_op) (events : list (option invoice_item * option invoice_item))
  (d : db) : result db :=
  match events with
  | [] => Ok d
  | (OLD, NEW) :: rest =>
      d' <- recalc_invoice_totals op OLD NEW d ;;
      fire op rest d'
  end.

(** The checks on a row about to be written: the generated column must
    fit, and [invoice_id] must reference an invoice (a reference is
    checked against the table, not through the policy). *)
Definition check_generated (it : invoice_item) : result unit :=
  if Numeric.fits 10 (total_price it) then Ok tt
  else Throw (PgError numeric_field_overflow).

Definition check_reference (d : db) (it : invoice_item) : result unit :=
  if existsb (fun inv => String.eqb (id inv) (invoice_id it)) (invoices d)
  then Ok tt
  else Throw (PgError foreign_key_violation).

Fixpoint for_each {A : Type} (check : A -> result unit) (l : list A)
  : result unit :=
  match l with
  | [] => Ok tt
  | x :: rest => _ <- check x ;; for_each check rest
  end.

(** How often a key occurs among the line items. *)
Definition occurrences (key : uuid) (items : list invoice_item) : nat :=
  List.length (filter (fun it => String.eqb (item_id it) key) items).

(** [INSERT INTO invoice_items VALUES (it)]: the generated column, the
    primary key, the reference, then the trigger. *)
Definition insert_checks (d : db) (it : invoice_item) : result unit :=
  _ <- check_generated it ;;
  _ <- (if existsb (fun x => String.eqb (item_id x) (item_id it)) (invoice_items d)
        then Throw (PgError unique_violation) else Ok tt) ;;
  check_reference d it.

Definition insert_invoice_item (d : db) (it : invoice_item) : result db :=
  _ <- insert_checks d it ;;
  fire INSERT [(None, Some it)] (with_invoice_items d (invoice_items d ++ [it])).

(** [UPDATE invoice_items SET ... WHERE id = target]; [set] may change any
    column, the key and the parent invoice included. *)
Definition update_checks (d : db) (target : uuid)
  (set : invoice_item -> invoice_item) : result unit :=
  let hit := fun it => String.eqb (item_id it) target in
  let affected := filter hit (invoice_items d) in
  let after := map (fun it => if hit it then set it else it) (invoice_items d) in
  _ <- for_each check_generated (map set affected) ;;
  _ <- (if forallb (fun it => String.eqb (item_id (set it)) (item_id it)
                              || Nat.eqb (occurrences (item_id (set it)) after) 1)
             affected
        then Ok tt else Throw (PgError unique_violation)) ;;
  for_each (check_reference d) (map set affected).

Definition update_invoice_item (d : db) (target : uuid)
  (set : invoice_item -> invoice_item) : result db :=
  let hit := fun it => String.eqb (item_id it) target in
  let affected := filter hit (invoice_items d) in
  _ <- update_checks d target set ;;
  fire UPDATE (map (fun OLD => (Some OLD, Some (set OLD))) affected)
    (with_invoice_items d
       (map (fun it => if hit it then set it else it) (invoice_items d))).

(** [DELETE FROM invoice_items WHERE id = target]. *)
Definition delete_invoice_item (d : db) (target : uuid) : result db :=
  let hit := fun it => String.eqb (item_id it) target in
  fire DELETE (map (fun OLD => (Some OLD, None)) (filter hit (invoice_items d)))
    (with_invoice_items d (filter (fun it => negb (hit it)) (invoice_items d))).

(** The three line-item statements. *)
Inductive mutation : Type :=
| Insert (it : invoice_item)
| Update (target : uuid) (set : invoice_item -> invoice_item)
| Delete (target : uuid).

Definition run (d : db) (m : mutation) : result db :=
  match m with
  | Insert it => insert_invoice_item d it
  | Update target set => update_invoice_item d target set
  | Delete target => delete_invoice_item d target
  end.

(** *** Vocabulary of the statements about the trigger *)

(** The invoices whose total the triggers of a statement recompute:
    [NEW.invoice_id] of each inserted or updated row, [OLD.invoice_id] of
    each deleted row. *)
Definition recomputed (d : db) (m : mutation) : list uuid :=
  match m with
  | Insert it => [invoice_id it]
  | Update target set =>
      map (fun OLD => invoice_id (set OLD))
        (filter (fun it => String.eqb (item_id it) target) (invoice_items d))
  | Delete target =>
      map invoice_id
        (filter (fun it => String.eqb (item_id it) target) (invoice_items d))
  end.

(** The invoice a queued trigger works on. *)
Definition trigger_target (op : tg_op)
  (ev : option invoice_item * option invoice_item) : option uuid :=
  match op with
  | DELETE => option_map invoice_id (fst ev)
  | _ => option_map invoice_id (snd ev)
  end.

(** The line items that survive a statement. *)
Definition surviving (d : db) (m : mutation) : list invoice_item :=
  match m with
  | Insert it => invoice_items d ++ [it]
  | Update target set =>
      map (fun it => if String.eqb (item_id it) target then set it else it)
        (invoice_items d)
  | Delete target =>
      filter (fun it => negb (String.eqb (item_id it) target)) (invoice_items d)
  end.

(** The invoice with its total set to the sum of its stored line totals. *)
Definition retotal (items : list invoice_item) (inv : invoice) : invoice :=
  with_total inv (sum_total_price items (id inv)).

(** Every stored copy of the total of [target] is the sum of the stored
    line totals of its items. *)
Definition total_consistent (d : db) (target : uuid) : Prop :=
  Forall (fun t => t = Some (sum_total_price (invoice_items d) target))
    (map total_amount
       (filter (fun inv => String.eqb (id inv) target) (invoices d))).


(** The checks a statement makes before its triggers run. *)
Definition checks (d : db) (m : mutation) : result unit :=
  match m with
  | Insert it => insert_checks d it
  | Update target set => update_checks d target set
  | Delete _ => Ok tt
  end.

(** A statement that passes its checks and whose recomputed totals fit
    their column. *)
Definition admissible (d : db) (m : mutation) : Prop :=
  checks d m = Ok tt /\
  forall t, In t (recomputed d m) ->
            Numeric.fits 10 (sum_total_price (surviving d m) t) = true.


(** An invoice of center [c1] with total 0, seen from a connection whose
    context is the user [u1] at center [c], and the two line items of the
    specification. *)
Definition fresh_at (c : string) : db :=
  {| sess := {| Rls.app_user_id := Some "u1"; Rls.app_center_id := Some c |};
     users := ["u1"];
     invoices := [ {| id := "inv1"; center_id := "c1"; total_amount := Some 0 |} ];
     invoice_items := [];
     audit_logs := [] |}.

Definition fresh : db := fresh_at "c1".

Definition item_2x50 : invoice_item :=
  {| item_id := "i1"; invoice_id := "inv1"; quantity := 200; unit_price := 5000 |}.

Definition item_1x25 : invoice_item :=
  {| item_id := "i2"; invoice_id := "inv1"; quantity := 100; unit_price := 2500 |}.


End Invoice.

(** ** Field encryption ([PGPService]) *)

Module Pgp.

(** A JavaScript string is a sequence of 16-bit code units, each kept as
    its high and low byte; a [Buffer] is a sequence of bytes. *)
Definition code_unit : Type := (byte * byte)%type.
Definition js_string : Type := list code_unit.
Definition buffer : Type := list byte.

(** The code units [String.prototype.trim] strips: white space and line
    terminators. *)
Definition is_white_space (c : code_unit) : bool :=
  match c with
  | (x00, (x09 | x0a | x0b | x0c | x0d | x20 | xa0)) => true
  | (x16, x80) => true
  | (x20, (x00 | x01 | x02 | x03 | x04 | x05 | x06 | x07 | x08 | x09 | x0a
           | x28 | x29 | x2f | x5f)) => true
  | (x30, x00) => true
  | (xfe, xff) => true
  | _ => false
  end.

Fixpoint trim_start (s : js_string) : js_string :=
  match s with
  | c :: rest => if is_white_space c then trim_start rest else s
  | [] => []
  end.

Definition trim (s : js_string) : js_string :=
  rev (trim_start (rev (trim_start s))).

(** [!plaintext || plaintext.trim().length === 0]. *)
Definition blank (s : js_string) : bool :=
  Nat.eqb (List.length s) 0 || Nat.eqb (List.length (trim s)) 0.

(** [!ciphertext || ciphertext.length === 0] on a buffer that is there. *)
Definition empty (c : buffer) : bool := Nat.eqb (List.length c) 0.

(** The symmetric cipher of [pgcrypto]: encryption draws randomness,
    decryption raises on a wrong key or corrupt data ([None]). *)
Record cipher : Type := {
  pgp_sym_encrypt : js_string -> string -> N -> buffer;
  pgp_sym_decrypt : buffer -> string -> option js_string
}.

(** [system_settings]: the value of [value->>'encryption_key'] in the row
    [key = 'encryption'], NULL when the row or the field is missing. *)
Record pg : Type := {
  encryption_key : option string
}.

Section Service.

Variable C : cipher.

Definition app_get_encryption_key (d : pg) : option string := encryption_key d.

(** [encrypt_pgp_data(data)]: [pgp_sym_encrypt] is strict, a NULL key gives
    NULL. *)
Definition encrypt_pgp_data (d : pg) (data : js_string) (rnd : N) : option buffer :=
  match app_get_encryption_key d with
  | Some k => Some (pgp_sym_encrypt C data k rnd)
  | None => None
  end.

(** [decrypt_pgp_data(data)]. *)
Definition decrypt_pgp_data (d : pg) (data : buffer) : result (option js_string) :=
  match app_get_encryption_key d with
  | Some k =>
      match pgp_sym_decrypt C data k with
      | Some p => Ok (Some p)
      | None => Throw (PgError external_routine_exception)
      end
  | None => Ok None
  end.

(** [encrypt(plaintext)]: everything after the two guards sits in a [try]
    whose [catch] wraps the error. *)
Definition encrypt (database : option pg) (plaintext : js_string) (rnd : N)
  : result buffer :=
  match database with
  | None => Throw (JsError "[PGP] Database not available")
  | Some d =>
      if blank plaintext then Throw (JsError "[PGP] Cannot encrypt empty string")
      else
        let attempt :=
          row <- index_0 (result_rows [encrypt_pgp_data d plaintext rnd]) ;;
          match row with
          | Some (Some encrypted) => Ok encrypted
          | _ => Throw (JsError "Encryption returned null")
          end in
        match attempt with
        | Ok encrypted => Ok encrypted
        | Throw e => Throw (JsErrorOf "Encryption failed: " e)
        end
  end.

(** [decrypt(ciphertext)]: the statement raises when the cipher rejects the
    envelope; whatever it returns is then read through [result.rows[0]]. *)
Definition decrypt (database : option pg) (ciphertext : buffer) : result js_string :=
  match database with
  | None => Throw (JsError "[PGP] Database not available")
  | Some d =>
      if empty ciphertext then Throw (JsError "[PGP] Cannot decrypt empty buffer")
      else
        let attempt :=
          returned <- (v <- decrypt_pgp_data d ciphertext ;; Ok [v]) ;;
          row <- index_0 (result_rows returned) ;;
          match row with
          | Some (Some decrypted) => Ok decrypted
          | _ => Throw (JsError
                   "Decryption returned null - invalid ciphertext or wrong key")
          end in
        match attempt with
        | Ok decrypted => Ok decrypted
        | Throw e => Throw (JsErrorOf "Decryption failed: " e)
        end
  end.

(** The optional variants take [null] for an absent value; their [catch]
    turns every failure into [null]. *)
Definition encryptOptional (database : option pg) (plaintext : option js_string)
  (rnd : N) : result (option buffer) :=
  match plaintext with
  | None => Ok None
  | Some p =>
      if blank p then Ok None
      else
        match encrypt database p rnd with
        | Ok c => Ok (Some c)
        | Throw _ => Ok None
        end
  end.

Definition decryptOptional (database : option pg) (ciphertext : option buffer)
  : result (option js_string) :=
  match ciphertext with
  | None => Ok None
  | Some c =>
      if empty c then Ok None
      else
        match decrypt database c with
        | Ok p => Ok (Some p)
        | Throw _ => Ok None
        end
  end.

(** [decrypt(encrypt(s))]. *)
Definition roundtrip (database : option pg) (s : js_string) (rnd : N)
  : result js_string :=
  c <- encrypt database s rnd ;;
  decrypt database c.

End Service.

(** *** A reference cipher for the examples *)

(** The envelope is a marker byte followed by the code units of the
    plaintext, high byte first; the key is not used. *)
Fixpoint bytes_of (s : js_string) : buffer :=
  match s with
  | (hi, lo) :: rest => hi :: lo :: bytes_of rest
  | [] => []
  end.

Fixpoint units_of (b : buffer) : option js_string :=
  match b with
  | [] => Some []
  | hi :: lo :: rest =>
      match units_of rest with
      | Some s => Some ((hi, lo) :: s)
      | None => None
      end
  | _ => None
  end.

Definition sealed : cipher :=
  {| pgp_sym_encrypt := fun p _ _ => x01 :: bytes_of p;
     pgp_sym_decrypt := fun c _ =>
       match c with
       | x01 :: body => units_of body
       | _ => None
       end |}.

(** Text in the Latin-1 range as a JavaScript string. *)
Fixpoint js (s : string) : js_string :=
  match s with
  | EmptyString => []
  | String a rest => (x00, byte_of_ascii a) :: js rest
  end.

Definition configured : pg := {| encryption_key := Some "k-2025" |}.
Definition unconfigured : pg := {| encryption_key := None |}.

(** Not an envelope. *)
Definition malformed : buffer := [x02; x03].

End Pgp.

(** ** Password verification ([AuthService.verifyPassword]) *)

Module Auth.

(** [crypt(password, salt)] of [pgcrypto]; it raises on a salt it does not
    recognise. *)
Record pgcrypto : Type := {
  crypt : string -> string -> result string
}.

(** A statement sent to the database. *)
Inductive statement : Type :=
| select_crypt_matches (hashedPassword plainPassword : string).

(** [verifyPassword(plainPassword, hashedPassword)], with the statements it
    executed.  The comparison is read through [result.rows[0]] inside a
    [try] whose [catch] answers [false]. *)
Definition verifyPassword (database : option pgcrypto)
  (plainPassword hashedPassword : string) : result bool * list statement :=
  match database with
  | None => (Throw (JsError "[Auth] Database not available"), [])
  | Some pg =>
      if String.eqb plainPassword "" || String.eqb hashedPassword "" then
        (Ok false, [])
      else
        let sent := [select_crypt_matches hashedPassword plainPassword] in
        let attempt :=
          returned <- (h <- crypt pg plainPassword hashedPassword ;;
                       Ok [String.eqb hashedPassword h]) ;;
          row <- index_0 (result_rows returned) ;;
          Ok (match row with Some true => true | _ => false end) in
        match attempt with
        | Ok isValid => (Ok isValid, sent)
        | Throw _ => (Ok false, sent)
        end
  end.

(** A stand-in for [crypt]: the digest of a password under a salt. *)
Definition toy_crypt : pgcrypto :=
  {| crypt := fun password salt =>
       if String.eqb salt "" then Throw (PgError external_routine_exception)
       else Ok (substring 0 4 salt ++ password)%string |}.

End Auth.

(** ** The audit trail ([log_audit_change]) *)

(** The statements run for a caller whose context reaches the rows it
    writes. *)

Module Audit.

(** The tables with an audit trigger ([audit_users], [audit_patients],
    [audit_invoices]). *)
Inductive audited : Type := users | patients | invoices.

Definition TG_TABLE_NAME (t : audited) : string :=
  match t with
  | users => "users"
  | patients => "patients"
  | invoices => "invoices"
  end.

Definition TG_OP (op : tg_op) : string :=
  match op with
  | INSERT => "INSERT"
  | UPDATE => "UPDATE"
  | DELETE => "DELETE"
  end.

Definition audited_eq_dec (a b : audited) : {a = b} + {a <> b}.
Proof. decide equality. Defined.

(** A row of an audited table: its key and the rest of it as [to_jsonb]
    renders it. *)
Record record : Type := {
  id : uuid;
  data : string
}.

(** [audit_logs]; [user_id REFERENCES users(id) ON DELETE SET NULL]. *)
Record audit_log : Type := {
  table_name : string;
  operation : string;
  user_id : option uuid;
  record_id : option uuid;
  old_data : option record;
  new_data : option record
}.

Record db : Type := {
  rows : audited -> list record;
  audit_logs : list audit_log
}.

Section Engine.

(** The texts the engine accepts for the cast [::UUID]. *)
Variable uuid_in : string -> bool.

(** [get_current_user_id()]:
    [NULLIF(current_setting('app.user_id', TRUE), '')::UUID]. *)
Definition get_current_user_id (app_user_id : option string) : result (option uuid) :=
  match Rls.NULLIF app_user_id "" with
  | None => Ok None
  | Some v =>
      if uuid_in v then Ok (Some v)
      else Throw (PgError invalid_text_representation)
  end.

(** [INSERT INTO audit_logs ...]: the reference to [users] is checked. *)
Definition insert_audit_log (d : db) (entry : audit_log) : result db :=
  match user_id entry with
  | Some u =>
      if existsb (fun r => String.eqb (id r) u) (rows d users)
      then Ok {| rows := rows d; audit_logs := audit_logs d ++ [entry] |}
      else Throw (PgError foreign_key_violation)
  | None => Ok {| rows := rows d; audit_logs := audit_logs d ++ [entry] |}
  end.

(** The row function of the audit triggers, [AFTER INSERT OR UPDATE OR
    DELETE ... FOR EACH ROW].  Only the lookup of the acting user sits in a
    block with an exception handler. *)
Definition log_audit_change (app_user_id : option string) (t : audited)
  (op : tg_op) (OLD NEW : option record) (d : db) : result db :=
  let usr_id :=
    match get_current_user_id app_user_id with
    | Ok v => v
    | Throw _ => None
    end in
  insert_audit_log d
    {| table_name := TG_TABLE_NAME t;
       operation := TG_OP op;
       user_id := usr_id;
       record_id := match NEW with
                    | Some n => Some (id n)
                    | None => option_map id OLD
                    end;
       old_data := OLD;
       new_data := NEW |}.

(** A write to an audited table. *)
Inductive mutation : Type :=
| Insert (r : record)
| Update (target : uuid) (set : record -> record)
| Delete (target : uuid).

Definition op_of (m : mutation) : tg_op :=
  match m with
  | Insert _ => INSERT
  | Update _ _ => UPDATE
  | Delete _ => DELETE
  end.

Definition hit (target : uuid) (r : record) : bool := String.eqb (id r) target.

(** The table after the write, before any trigger has run. *)
Definition written (m : mutation) (l : list record) : list record :=
  match m with
  | Insert r => l ++ [r]
  | Update target set => map (fun r => if hit target r then set r else r) l
  | Delete target => filter (fun r => negb (hit target r)) l
  end.

(** The [(OLD, NEW)] pairs of the rows the write touched. *)
Definition touched (m : mutation) (l : list record)
  : list (option record * option record) :=
  match m with
  | Insert r => [(None, Some r)]
  | Update target set =>
      map (fun r => (Some r, Some (set r))) (filter (hit target) l)
  | Delete target => map (fun r => (Some r, None)) (filter (hit target) l)
  end.

(** Deleting a user clears the references to it ([ON DELETE SET NULL]). *)
Definition clear_references (t : audited) (m : mutation) (logs : list audit_log)
  : list audit_log :=
  match t, m with
  | users, Delete target =>
      map (fun e =>
             match user_id e with
             | Some u =>
                 if String.eqb u target
                 then {| table_name := table_name e; operation := operation e;
                         user_id := None; record_id := record_id e;
                         old_data := old_data e; new_data := new_data e |}
                 else e
             | None => e
             end) logs
  | _, _ => logs
  end.

Definition business_write (t : audited) (m : mutation) (d : db) : db :=
  {| rows := fun t' => if audited_eq_dec t' t then written m (rows d t)
                       else rows d t';
     audit_logs := clear_references t m (audit_logs d) |}.

Fixpoint fire (app_user_id : option string) (t : audited) (op : tg_op)
  (events : list (option record * option record)) (d : db) : result db :=
  match events with
  | [] => Ok d
  | (OLD, NEW) :: rest =>
      d' <- log_audit_change app_user_id t op OLD NEW d ;;
      fire app_user_id t op rest d'
  end.

(** One statement on an audited table, run on a connection whose
    [app.user_id] is [app_user_id]: the write, then the audit trigger for
    each touched row.  An error raised by a trigger aborts the statement:
    nothing of it is kept. *)
Definition execute (app_user_id : option string) (t : audited) (m : mutation)
  (d : db) : result db :=
  fire app_user_id t (op_of m) (touched m (rows d t)) (business_write t m d).

(** The acting user a trigger records. *)
Definition acting_user (app_user_id : option string) : option uuid :=
  match get_current_user_id app_user_id with
  | Ok v => v
  | Throw _ => None
  end.

End Engine.

(** The entry a trigger appends for one touched row. *)
Definition entry_of (usr : option uuid) (t : audited) (op : tg_op)
  (ev : option record * option record) : audit_log :=
  {| table_name := TG_TABLE_NAME t;
     operation := TG_OP op;
     user_id := usr;
     record_id := match snd ev with
                  | Some n => Some (id n)
                  | None => option_map id (fst ev)
                  end;
     old_data := fst ev;
     new_data := snd ev |}.

(** Whether [usr] can be stored in [audit_logs.user_id]: NULL, or the key
    of a row of [users]. *)
Definition referenced (d : db) (usr : option uuid) : bool :=
  match usr with
  | Some u => existsb (fun r => String.eqb (id r) u) (rows d users)
  | None => true
  end.

(** *** Vocabulary of the statements about the audit trail *)

(** The canonical text of a UUID: 8-4-4-4-12 hexadecimal digits. *)
Definition hex (a : ascii) : bool :=
  let n := nat_of_ascii a in
  ((48 <=? n) && (n <=? 57) || (97 <=? n) && (n <=? 102)
   || (65 <=? n) && (n <=? 70))%nat.

Fixpoint canonical_from (pos : nat) (s : string) : bool :=
  match s with
  | EmptyString => Nat.eqb pos 36
  | String a rest =>
      (if (Nat.eqb pos 8 || Nat.eqb pos 13 || Nat.eqb pos 18 || Nat.eqb pos 23)%bool
       then Ascii.eqb a "-" else hex a)
      && canonical_from (S pos) rest
  end.

Definition canonical_uuid (s : string) : bool := canonical_from 0 s.

(** The installation of the examples: one user, no patient, an empty
    trail. *)
Definition u_alice : uuid := "11111111-1111-4111-8111-111111111111".
Definition u_gone : uuid := "22222222-2222-4222-8222-222222222222".

Definition office : db :=
  {| rows := fun t => match t with
                      | users => [ {| id := u_alice; data := "alice" |} ]
                      | _ => []
                      end;
     audit_logs := [] |}.

Definition new_patient : record :=
  {| id := "33333333-3333-4333-8333-333333333333"; data := "Test Patient" |}.

End Audit.

(** ** The rest of [AuthService]: hashing, re-hashing, strength, generation *)

(** A [string] stands for a JavaScript string of one-byte characters, as in
    [Pgp.js]: its length is the number of its code units. *)

Module AuthService.

Import Auth.

(** What [hashPassword] and [rehashPassword] send to the database. *)
Inductive sent : Type :=
| verification (s : statement)
| select_crypt_gen_salt (plainPassword : string).

(** [hashPassword(plainPassword)]; [salt] is what [gen_salt('bf')] draws.
    The digest is read through [result.rows[0]] inside a [try] whose [catch]
    wraps the error. *)
Definition hashPassword (database : option pgcrypto) (plainPassword salt : string)
  : result string * list sent :=
  match database with
  | None => (Throw (JsError "[Auth] Database not available"), [])
  | Some pg =>
      if String.eqb plainPassword "" || (String.length plainPassword <? 8)%nat then
        (Throw (JsError "[Auth] Password must be at least 8 characters long"), [])
      else
        let log := [select_crypt_gen_salt plainPassword] in
        let attempt :=
          returned <- (h <- crypt pg plainPassword salt ;; Ok [h]) ;;
          row <- index_0 (result_rows returned) ;;
          match row with
          | Some hashed =>
              if String.eqb hashed "" then Throw (JsError "Hashing returned null")
              else Ok hashed
          | None => Throw (JsError "Hashing returned null")
          end in
        match attempt with
        | Ok hashed => (Ok hashed, log)
        | Throw e => (Throw (JsErrorOf "Password hashing failed: " e), log)
        end
  end.

(** [rehashPassword(plainPassword, currentHash)]: [null] when the password
    does not verify. *)
Definition rehashPassword (database : option pgcrypto)
  (plainPassword currentHash salt : string) : result (option string) * list sent :=
  match verifyPassword database plainPassword currentHash with
  | (Throw e, log) => (Throw e, map verification log)
  | (Ok false, log) => (Ok None, map verification log)
  | (Ok true, log) =>
      match hashPassword database plainPassword salt with
      | (Ok h, log') => (Ok (Some h), map verification log ++ log')
      | (Throw e, log') => (Throw e, map verification log ++ log')
      end
  end.

(** *** [validatePasswordStrength] *)

Definition between (lo hi : nat) (a : ascii) : bool :=
  let n := nat_of_ascii a in ((lo <=? n) && (n <=? hi))%nat.

(** [/[A-Z]/], [/[a-z]/], [/[0-9]/]. *)
Definition is_upper (a : ascii) : bool := between 65 90 a.
Definition is_lower (a : ascii) : bool := between 97 122 a.
Definition is_digit (a : ascii) : bool := between 48 57 a.

(** The characters of the class of the last test: the punctuation below,
    the double quote (code 34) among it. *)
Definition special_class : list ascii :=
  list_ascii_of_string "!@#$%^&*" ++ list_ascii_of_string "(),.?"
  ++ [ascii_of_nat 34] ++ list_ascii_of_string ":{}|<>".

Definition is_special (a : ascii) : bool :=
  existsb (Ascii.eqb a) special_class.

(** [regex.test(password)] for a one-character class. *)
Definition test (class : ascii -> bool) (password : string) : bool :=
  existsb class (list_ascii_of_string password).

Record strength : Type := {
  isValid : bool;
  errors : list string
}.

Definition validatePasswordStrength (password : string) : strength :=
  let errors :=
    (if (String.length password <? 8)%nat
     then ["Password must be at least 8 characters long"] else [])
    ++ (if negb (test is_upper password)
        then ["Password must contain at least one uppercase letter"] else [])
    ++ (if negb (test is_lower password)
        then ["Password must contain at least one lowercase letter"] else [])
    ++ (if negb (test is_digit password)
        then ["Password must contain at least one digit"] else [])
    ++ (if negb (test is_special password)
        then ["Password must contain at least one special character"] else []) in
  {| isValid := Nat.eqb (List.length errors) 0; errors := errors |}.

(** *** [generateSecurePassword] *)

Definition uppercase : string := "ABCDEFGHIJKLMNOPQRSTUVWXYZ".
Definition lowercase : string := "abcdefghijklmnopqrstuvwxyz".
Definition digits : string := "0123456789".
Definition special : string := ("!@#$%^&*" ++ "(),.?:{}|<>")%string.
Definition allChars : string := (uppercase ++ lowercase ++ digits ++ special)%string.

(** [s[Math.floor(Math.random() * s.length)]]: the random source is a
    sequence of naturals, a draw below [n] is the next one modulo [n]. *)
Definition pick (s : string) (r : nat) : ascii :=
  nth (r mod String.length s) (list_ascii_of_string s) "000"%char.

(** The characters appended by the loop [for (i = password.length; i <
    length; i++)], [i] counting from [from]. *)
Fixpoint fill (rnd : nat -> nat) (from count : nat) : list ascii :=
  match count with
  | O => []
  | S count' => pick allChars (rnd from) :: fill rnd (S from) count'
  end.

(** The password before it is shuffled. *)
Definition drawn (length : nat) (rnd : nat -> nat) : list ascii :=
  [pick uppercase (rnd 0); pick lowercase (rnd 1);
   pick digits (rnd 2); pick special (rnd 3)]
  ++ fill rnd 4 (length - 4).

(** [generateSecurePassword(length)]; [shuffle] is what
    [.split("").sort(() => Math.random() - 0.5)] does to the characters. *)
Definition generateSecurePassword (length : nat) (rnd : nat -> nat)
  (shuffle : list ascii -> list ascii) : result string :=
  if (length <? 12)%nat then
    Throw (JsError "Password length must be at least 12 characters")
  else Ok (string_of_list_ascii (shuffle (drawn length rnd))).

End AuthService.

(** ** The rest of [PGPService]: batches and the change of key *)

Module PGPService.

Import Pgp.

(** [Promise.all]: the values in order, or the first rejection. *)
Fixpoint all {A : Type} (ps : list (result A)) : result (list A) :=
  match ps with
  | [] => Ok []
  | Ok a :: rest =>
      match all rest with
      | Ok l => Ok (a :: l)
      | Throw e => Throw e
      end
  | Throw e :: _ => Throw e
  end.

(** [l.map(f)] with the index at hand: the [i]-th encryption draws its own
    randomness. *)
Fixpoint map_from {A B : Type} (f : nat -> A -> B) (i : nat) (l : list A) : list B :=
  match l with
  | [] => []
  | x :: rest => f i x :: map_from f (S i) rest
  end.

Section Service.

Variable C : cipher.

Definition encryptBatch (database : option pg) (plaintexts : list (option js_string))
  (rnd : nat -> N) : result (list (option buffer)) :=
  all (map_from (fun i text => encryptOptional C database text (rnd i)) 0 plaintexts).

Definition decryptBatch (database : option pg) (ciphertexts : list (option buffer))
  : result (list (option js_string)) :=
  all (map (fun cipher => decryptOptional C database cipher) ciphertexts).

End Service.

(** [system_settings] as [updateEncryptionKey] sees it: the row
    [key = 'encryption'] may be missing ([None]); when it is there it holds
    the value of the field [encryption_key], if any. *)
Record settings : Type := {
  encryption : option (option string)
}.

(** What the cipher functions read from those settings. *)
Definition pg_of (s : settings) : pg :=
  {| encryption_key := match encryption s with
                       | Some v => v
                       | None => None
                       end |}.

(** [updateEncryptionKey(newKey)]: the [UPDATE ... WHERE key = 'encryption']
    sets the field on the row when there is one. *)
Definition updateEncryptionKey (database : option settings) (newKey : string)
  : result unit * option settings :=
  match database with
  | None => (Throw (JsError "[PGP] Database not available"), None)
  | Some s =>
      if (String.length newKey <? 32)%nat then
        (Throw (JsError "[PGP] Encryption key must be at least 32 characters long"),
         Some s)
      else
        (Ok tt,
         Some {| encryption := match encryption s with
                               | Some _ => Some (Some newKey)
                               | None => None
                               end |})
  end.

(** *** A cipher that looks at its key *)

Definition key_tag (k : string) : byte :=
  match k with
  | String a _ => byte_of_ascii a
  | EmptyString => x00
  end.

(** The envelope is a marker byte, a byte taken from the key, and the code
    units of the plaintext; it opens only under a key with the same
    byte. *)
Definition keyed : cipher :=
  {| pgp_sym_encrypt := fun p k _ => x01 :: key_tag k :: bytes_of p;
     pgp_sym_decrypt := fun c k =>
       match c with
       | x01 :: t :: body =>
           if Byte.eqb t (key_tag k) then units_of body else None
       | _ => None
       end |}.

Definition old_key : string := "CHANGE_THIS_KEY_IMMEDIATELY_IN_PROD".
Definition new_key : string := "a-32-character-long-random-key-01".

Definition installed : settings := {| encryption := Some (Some old_key) |}.

End PGPService.
(** ** Logging in ([authRouter.login]) *)

(** [login] is a [publicProcedure]: no middleware runs before it, so its
    statements see [users] through the policy under whatever context the
    connection they run on carries.  The handler is followed here on one
    connection. *)

Module Login.

Import Auth.

(** [users]: the columns of the policy ([row]) and those [login] reads or
    writes; [is_active] and [last_login] are nullable. *)
Record account : Type := {
  row : Rls.row;
  username : string;
  email : string;
  fullName : string;
  hashedPassword : string;
  isActive : option bool;
  lastLogin : option Z
}.

Record db : Type := {
  sess : Rls.session;
  accounts : list account;
  crypto : pgcrypto;
  audit_logs : list Rls.audit_entry
}.

(** The connection as the policy of [users] reads it. *)
Definition connection (d : db) : Rls.pg :=
  {| Rls.sess := sess d; Rls.contents := fun _ => []; Rls.audit_logs := [] |}.

Definition shown (d : db) (u : account) : bool :=
  Rls.passes (Rls.policy_using (connection d) Rls.users (row u)).

Definition checked (d : db) (u : account) : bool :=
  Rls.passes (Rls.policy_with_check (connection d) Rls.users (row u)).

(** [getUserByUsername(username)] of [db.ts]. *)
Definition getUserByUsername (database : option db) (name : string)
  : option account :=
  match database with
  | None => None
  | Some d =>
      hd_error (filter (fun u => String.eqb (username u) name)
                  (filter (shown d) (accounts d)))
  end.

(** The [data] of [updateUser] as [login] builds it: [{ lastLogin }]. *)
Definition stamp (now : Z) (u : account) : account :=
  {| row := row u; username := username u; email := email u;
     fullName := fullName u; hashedPassword := hashedPassword u;
     isActive := isActive u; lastLogin := Some now |}.

(** Whether the trigger [audit_users] can store the user of the context:
    [audit_logs.user_id] references [users]. *)
Definition storable (d : db) : bool :=
  match Rls.get_current_user_id (sess d) with
  | Some usr => existsb (fun u => String.eqb (Rls.id (row u)) usr) (accounts d)
  | None => true
  end.

Definition audit_of (d : db) (now : Z) (u : account) : Rls.audit_entry :=
  {| Rls.audit_table := Rls.users; Rls.audit_operation := UPDATE;
     Rls.audit_user_id := Rls.get_current_user_id (sess d);
     Rls.audit_record_id := Some (Rls.id (row u));
     Rls.audit_old := Some (row u);
     Rls.audit_new := Some (row (stamp now u)) |}.

(** [updateUser(id, { lastLogin: now })] of [db.ts]: the rows reached are
    checked by the policy, then [audit_users] runs for each of them. *)
Definition updateUser (database : option db) (target : uuid) (now : Z)
  : result (option account) * option db :=
  match database with
  | None => (Ok None, None)
  | Some d =>
      let hit := fun u => shown d u && String.eqb (Rls.id (row u)) target in
      let reached := filter hit (accounts d) in
      let changed := map (stamp now) reached in
      if forallb (checked d) changed
      then if match reached with [] => true | _ :: _ => storable d end
           then (Ok (hd_error changed),
                 Some {| sess := sess d;
                         accounts := map (fun u => if hit u then stamp now u else u)
                                       (accounts d);
                         crypto := crypto d;
                         audit_logs := audit_logs d ++ map (audit_of d now) reached |})
           else (Throw (PgError foreign_key_violation), Some d)
      else (Throw (PgError row_security_violation), Some d)
  end.

(** What the handler takes from its surroundings: the token the SDK makes
    for a user name and a display name (the expiry is a constant), and the
    message of a rejected input. *)
Record sdk : Type := {
  createSessionToken : string -> string -> result string;
  invalid_input : string
}.

(** [loginSchema]. *)
Definition loginSchema (name password : string) : bool :=
  (3 <=? String.length name)%nat && (8 <=? String.length password)%nat.

(** The reply of [login] and the session cookie it sets. *)
Record reply : Type := {
  cookie : string;
  user_id : uuid;
  user_username : string;
  user_email : string;
  user_fullName : string;
  user_centerId : option uuid;
  user_isSuperadmin : option bool
}.

Definition login (S : sdk) (name password : string) (now : Z)
  (database : option db) : result reply * option db :=
  if negb (loginSchema name password) then
    (Throw (TRPCError BAD_REQUEST (invalid_input S)), database)
  else
  match getUserByUsername database name with
  | None => (Throw (TRPCError UNAUTHORIZED "Invalid username or password"), database)
  | Some user =>
      match isActive user with
      | Some true =>
          match fst (verifyPassword (option_map crypto database) password
                       (hashedPassword user)) with
          | Throw e => (Throw e, database)
          | Ok false =>
              (Throw (TRPCError UNAUTHORIZED "Invalid username or password"),
               database)
          | Ok true =>
              match updateUser database (Rls.id (row user)) now with
              | (Throw e, database') => (Throw e, database')
              | (Ok _, database') =>
                  match createSessionToken S (username user) (fullName user) with
                  | Throw e => (Throw e, database')
                  | Ok sessionToken =>
                      (Ok {| cookie := sessionToken;
                             user_id := Rls.id (row user);
                             user_username := username user;
                             user_email := email user;
                             user_fullName := fullName user;
                             user_centerId := Rls.center_id (row user);
                             user_isSuperadmin := Rls.is_superadmin (row user) |},
                       database')
                  end
              end
          end
      | _ =>
          (Throw (TRPCError FORBIDDEN "Account is inactive. Contact administrator."),
           database)
      end
  end.

(** *** Vocabulary *)

(** The account is stored, and is the only one with its name and the only
    one with its key. *)
Definition registered (d : db) (u : account) : Prop :=
  In u (accounts d) /\
  forall v, In v (accounts d) ->
            username v = username u \/ Rls.id (row v) = Rls.id (row u) -> v = u.

(** An installation with a user of center A and the administrator, both
    with the password ["correct horse"], and a suspended account, on a
    connection with the context [c]. *)
Definition member : account :=
  {| row := Rls.alice_row; username := "alice";
     email := "alice@a.example"; fullName := "Alice";
     hashedPassword := "saltcorrect horse"; isActive := Some true;
     lastLogin := None |}.

Definition administrator : account :=
  {| row := Rls.admin_row; username := "admin";
     email := "admin@b.example"; fullName := "Administrator";
     hashedPassword := "saltcorrect horse"; isActive := Some true;
     lastLogin := None |}.

Definition suspended : account :=
  {| row := Rls.plain "u7" (Some "center-a"); username := "carol";
     email := "carol@a.example"; fullName := "Carol";
     hashedPassword := "saltcorrect horse"; isActive := Some false;
     lastLogin := None |}.

Definition site (c : option string) : db :=
  {| sess := {| Rls.app_user_id := None; Rls.app_center_id := c |};
     accounts := [administrator; member; suspended];
     crypto := toy_crypt;
     audit_logs := [] |}.

Definition tokens : sdk :=
  {| createSessionToken := fun name _ => Ok ("token-for-" ++ name)%string;
     invalid_input := "invalid input" |}.

End Login.

(** ** More of [rls.ts], [trpc.ts] and [db.ts] *)

Module Access.

Import Rls.

(** *** [server/db/rls.ts] *)

(** [RESET app.user_id; RESET app.center_id]: both settings go back to the
    empty string, which [NULLIF] and [|| null] read as no value.  Nothing is
    done without a database, and a failure is only logged. *)
Definition resetRLSContext : M unit :=
  fun database =>
    match database with
    | None => (Ok tt, None)
    | Some st =>
        (Ok tt, Some {| sess := {| app_user_id := Some ""; app_center_id := Some "" |};
                        contents := contents st;
                        audit_logs := audit_logs st |})
    end.


(** [SELECT COUNT( * ) FROM patients], as the connection sees the table. *)
Definition count_patients (st : pg) : nat :=
  List.length (select_from st patients (fun _ => true)).

(** [parseInt((result.rows[0] as any)?.count || "0")] on the result of the
    count. *)
Definition read_count (st : pg) : result nat :=
  row <- index_0 (result_rows [count_patients st]) ;;
  Ok (match row with Some n => n | None => 0 end).

Record isolation_report : Type := {
  user1Count : nat;
  user2Count : nat;
  isolated : bool
}.

(** [testRLSIsolation(user1, user2)]; the two arguments carry an [id] and a
    [centerId].  Nothing catches what the reads of the counts raise. *)
Definition testRLSIsolation (E : env) (user1 user2 : string * string)
  : M isolation_report :=
  fun database =>
    match database with
    | None => (Throw (JsError "Database not available"), None)
    | Some _ =>
        match setRLSContext E (fst user1) (Some (snd user1)) database with
        | (Throw e, db1) => (Throw e, db1)
        | (Ok _, None) => (Throw (JsError "Database not available"), None)
        | (Ok _, Some st1) =>
            match read_count st1 with
            | Throw e => (Throw e, Some st1)
            | Ok c1 =>
                match setRLSContext E (fst user2) (Some (snd user2)) (Some st1) with
                | (Throw e, db2) => (Throw e, db2)
                | (Ok _, None) => (Throw (JsError "Database not available"), None)
                | (Ok _, Some st2) =>
                    match read_count st2 with
                    | Throw e => (Throw e, Some st2)
                    | Ok c2 =>
                        (Ok {| user1Count := c1; user2Count := c2;
                               isolated := negb (Nat.eqb c1 c2) || Nat.eqb c1 0 |},
                         snd (resetRLSContext (Some st2)))
                    end
                end
            end
        end
    end.

(** *** [server/db.ts] *)

Definition id_is (target : uuid) (r : row) : bool := String.eqb (id r) target.

(** [db.select().from(tbl).where(eq(tbl.id, id)).limit(1)], then
    [result[0]] or [undefined]. *)
Definition get_by_id (tbl : table) (target : uuid) : M (option row) :=
  fun database =>
    match database with
    | None => (Ok None, None)
    | Some st => (Ok (hd_error (select_from st tbl (id_is target))), Some st)
    end.

Definition getPatientById : uuid -> M (option row) := get_by_id patients.
Definition getUserById : uuid -> M (option row) := get_by_id users.

(** [db.update(tbl).set(data).where(eq(tbl.id, id)).returning()], then
    [result[0]] or [undefined]; [data] is the assignment made to each row. *)
Definition update_by_id (tbl : table) (target : uuid) (data : row -> row)
  : M (option row) :=
  fun database =>
    match database with
    | None => (Ok None, None)
    | Some st =>
        match update_set st tbl (id_is target) data with
        | Ok (st', changed) => (Ok (hd_error changed), Some st')
        | Throw e => (Throw e, Some st)
        end
    end.

Definition updatePatient : uuid -> (row -> row) -> M (option row) :=
  update_by_id patients.
Definition updateUser : uuid -> (row -> row) -> M (option row) :=
  update_by_id users.

(** *** Vocabulary *)

(** The assignment [SET center_id = c]. *)
Definition move_to (c : uuid) (r : row) : row :=
  {| id := id r; center_id := Some c; is_superadmin := is_superadmin r;
     encounter_id := encounter_id r |}.

(** The connection once the context of [uid] at center [c] is set. *)
Definition under (st : pg) (uid : string) (c : uuid) : pg :=
  set_center_id (set_user_id st uid) (Some c).

(** The patients of a center, as stored. *)
Definition patients_of (st : pg) (c : uuid) : list row :=
  filter (owned_by st patients c) (contents st patients).

(** The user that the audit trigger records on a connection under the
    context of [uid]: [get_current_user_id()] there. *)
Definition acting (uid : string) : option uuid := NULLIF (Some uid) "".

End Access.
(** ** The notes of an appointment ([appointmentsRouter]) *)

(** The handlers run behind [requireUser]; [center] is what
    [get_user_center_id()] gives on the connection. *)

Module Appointments.

Import Pgp.

(** [appointments]: the columns the handlers below read or write; the other
    columns are carried along unchanged. *)
Record appointment : Type := {
  id : uuid;
  center_id : option uuid;
  status : option string;
  notes_encrypted : option buffer
}.

Record db : Type := {
  center : option uuid;
  settings : pg;
  appointments : list appointment
}.

(** Policy [appointments_center]: the same expression for [USING] and
    [WITH CHECK]. *)
Definition appointments_center (d : db) (a : appointment) : bool :=
  Sql3.holds (Sql3.eq (center_id a) (center d)).

Definition id_is (target : uuid) (a : appointment) : bool :=
  String.eqb (id a) target.

(** [getAppointmentById(id)] of [db.ts]. *)
Definition getAppointmentById (database : option db) (target : uuid)
  : option appointment :=
  match database with
  | None => None
  | Some d =>
      hd_error (filter (id_is target)
                  (filter (appointments_center d) (appointments d)))
  end.

(** The [data] argument of [updateAppointment], for the two columns that
    [cancel] assigns: [None] is a column left out. *)
Record appointment_update : Type := {
  new_status : option (option string);
  new_notesEncrypted : option (option buffer)
}.

Definition assign (data : appointment_update) (a : appointment) : appointment :=
  {| id := id a;
     center_id := center_id a;
     status := match new_status data with Some v => v | None => status a end;
     notes_encrypted := match new_notesEncrypted data with
                        | Some v => v
                        | None => notes_encrypted a
                        end |}.

(** [updateAppointment(id, data)] of [db.ts]. *)
Definition updateAppointment (database : option db) (target : uuid)
  (data : appointment_update) : result (option appointment) * option db :=
  match database with
  | None => (Ok None, None)
  | Some d =>
      let hit := fun a => appointments_center d a && id_is target a in
      let changed := map (assign data) (filter hit (appointments d)) in
      if forallb (appointments_center d) changed
      then (Ok (hd_error changed),
            Some {| center := center d; settings := settings d;
                    appointments := map (fun a => if hit a then assign data a else a)
                                      (appointments d) |})
      else (Throw (PgError row_security_violation), Some d)
  end.

(** What a handler returns for an appointment: the row without its
    envelope, and the notes in clear. *)
Record appointment_out : Type := {
  out_id : uuid;
  out_center_id : option uuid;
  out_status : option string;
  notes : option js_string
}.

(** A JavaScript string used as a condition. *)
Definition truthy (s : option js_string) : option js_string :=
  match s with
  | Some (c :: rest) => Some (c :: rest)
  | _ => None
  end.

(** The template [[CANCELLED ${timestamp}] ${reason}], and the same after
    the former notes and an empty line. *)
Definition cancellation (timestamp reason : js_string) : js_string :=
  js "[CANCELLED " ++ timestamp ++ js "] " ++ reason.

Definition appended (notes timestamp reason : js_string) : js_string :=
  notes ++ [(x00, x0a); (x00, x0a)] ++ cancellation timestamp reason.

Section Router.

Variable C : cipher.

(** [getById]. *)
Definition getById (target : uuid) (database : option db) : result appointment_out :=
  match getAppointmentById database target with
  | None => Throw (TRPCError NOT_FOUND "Appointment not found")
  | Some a =>
      text <- decryptOptional C (option_map settings database) (notes_encrypted a) ;;
      Ok {| out_id := id a; out_center_id := center_id a;
            out_status := status a; notes := text |}
  end.

(** [cancel]; [timestamp] is [new Date().toISOString()] and [rnd] the
    randomness the encryption draws.  The result [tt] stands for
    [{ success: true }]. *)
Definition cancel (target : uuid) (reason : option js_string)
  (timestamp : js_string) (rnd : N) (database : option db)
  : result unit * option db :=
  match getAppointmentById database target with
  | None => (Throw (TRPCError NOT_FOUND "Appointment not found"), database)
  | Some a =>
      match decryptOptional C (option_map settings database) (notes_encrypted a) with
      | Throw e => (Throw e, database)
      | Ok former =>
          let text :=
            match truthy reason with
            | Some r =>
                match truthy former with
                | Some n => Some (appended n timestamp r)
                | None => Some (cancellation timestamp r)
                end
            | None => former
            end in
          match encryptOptional C (option_map settings database) text rnd with
          | Throw e => (Throw e, database)
          | Ok notesEncrypted =>
              match updateAppointment database target
                      {| new_status := Some (Some "cancelled");
                         new_notesEncrypted := Some notesEncrypted |} with
              | (Throw e, database') => (Throw e, database')
              | (Ok _, database') => (Ok tt, database')
              end
          end
      end
  end.

End Router.

(** *** Vocabulary *)

(** The appointment is within reach of the connection and is the only row
    with its key. *)
Definition reachable (d : db) (a : appointment) : Prop :=
  In a (appointments d) /\ appointments_center d a = true /\
  forall a', In a' (appointments d) -> id a' = id a -> a' = a.

(** An agenda with one appointment of center [c1] whose notes are sealed. *)
Definition agenda (key : option string) : db :=
  {| center := Some "c1";
     settings := {| encryption_key := key |};
     appointments :=
       [ {| id := "a1"; center_id := Some "c1"; status := Some "pending";
            notes_encrypted := Some (x01 :: bytes_of (js "allergy")) |} ] |}.

End Appointments.
(** ** The pharmacy ledger *)

Module Ledger.

Import Pharmacy.
Local Open Scope Z_scope.

(** What the trigger adds to the stock for one ledger row. *)
Definition signed (tx : pharmacy_transaction) : Z :=
  match tx_type tx with
  | tx_in => quantity tx
  | tx_out => - quantity tx
  end.

(** [SUM(CASE transaction_type WHEN 'in' THEN quantity ELSE -quantity END)]
    over the ledger rows of one item. *)
Fixpoint movement (target : uuid) (txs : list pharmacy_transaction) : Z :=
  match txs with
  | [] => 0
  | tx :: rest =>
      (if String.eqb (item_id tx) target then signed tx else 0)
      + movement target rest
  end.

(** A run of [INSERT INTO pharmacy_transactions] statements, stopping at
    the first one that raises. *)
Fixpoint insert_all (d : db) (txs : list pharmacy_transaction) : result db :=
  match txs with
  | [] => Ok d
  | tx :: rest => d' <- insert_pharmacy_transaction d tx ;; insert_all d' rest
  end.

(** The item with its stock moved by [delta]; a NULL stock stays NULL. *)
Definition moved (delta : Z) (it : pharmacy_item) : pharmacy_item :=
  {| id := id it; center_id := center_id it;
     current_stock := option_map (fun s => s + delta) (current_stock it) |}.

(** An item whose stock was never filled in, and a receipt for it. *)
Definition unfilled : db :=
  {| pharmacy_items := [ {| id := "item2"; center_id := Some "c1";
                            current_stock := None |} ];
     pharmacy_transactions := [] |}.

Definition receipt (n : Z) : transaction_input :=
  {| itemId := "item2"; transactionType := tx_in; input_quantity := n |}.

Definition entry (i : uuid) (t : transaction_type) (n : Z) : pharmacy_transaction :=
  {| tx_id := i; item_id := "item1"; tx_type := t; quantity := n |}.

End Ledger.
(** ** More vocabulary for the invoice triggers *)

Module InvoiceFrame.

Import Invoice.
Local Open Scope Z_scope.

(** An update that leaves every line item it reaches under its invoice. *)
Definition keeps_parent (d : db) (m : mutation) : Prop :=
  match m with
  | Update target set =>
      forall it, In it (invoice_items d) -> item_id it = target ->
                 invoice_id (set it) = invoice_id it
  | _ => True
  end.

(** The context of the connection reaches every invoice the statement
    recomputes. *)
Definition in_reach (d : db) (m : mutation) : Prop :=
  forall inv, In inv (invoices d) -> In (id inv) (recomputed d m) ->
              invoices_center d inv = true.

(** Every invoice agrees with its line items. *)
Definition consistent (d : db) : Prop := forall t, total_consistent d t.

(** Two invoices of two centers with one line item each, totals in place,
    on a connection whose context is the user [u1] at center [c]. *)
Definition two_invoices_at (c : string) : db :=
  {| sess := {| Rls.app_user_id := Some "u1"; Rls.app_center_id := Some c |};
     users := ["u1"];
     invoices := [ {| id := "inv1"; center_id := "c1"; total_amount := Some 10000 |};
                   {| id := "inv2"; center_id := "c2"; total_amount := Some 2500 |} ];
     invoice_items :=
       [ item_2x50;
         {| item_id := "i9"; invoice_id := "inv2"; quantity := 100;
            unit_price := 2500 |} ];
     audit_logs := [] |}.

End InvoiceFrame.

(** * Properties *)

(** ** Rounding to a column's scale *)

Section Rounding.

Local Open Scope Z_scope.

Lemma round_half_away_nonneg (n d : Z) :
  0 <= n -> 0 < d ->
  Numeric.round_half_away n d = (2 * n + d) / (2 * d).
Proof.
  intros Hn Hd. unfold Numeric.round_half_away.
  rewrite Z.abs_eq by lia.
  destruct (Z.eq_dec n 0) as [-> | Hne].
  - cbn [Z.sgn]. rewrite Z.mul_0_l.
    symmetry. apply Z.div_small. lia.
  - rewrite Z.sgn_pos by lia. lia.
Qed.

(** The rounded quotient is within half a unit of the exact one. *)
Lemma round_half_away_error (n d : Z) :
  0 < d -> 2 * Z.abs (Numeric.round_half_away n d * d - n) <= d.
Proof.
  intros Hd. unfold Numeric.round_half_away.
  set (a := Z.abs n).
  assert (Ha : 0 <= a) by (subst a; apply Z.abs_nonneg).
  set (q := (2 * a + d) / (2 * d)).
  assert (Hq : 2 * d * q <= 2 * a + d < 2 * d * q + 2 * d).
  { subst q. pose proof (Z.mul_div_le (2 * a + d) (2 * d)).
    pose proof (Z.mul_succ_div_gt (2 * a + d) (2 * d)). lia. }
  destruct (Z.abs_spec n) as [[Hn Hab] | [Hn Hab]]; fold a in Hab.
  - destruct (Z.eq_dec n 0) as [Hz | Hnz].
    + assert (a = 0) by lia. rewrite Hz. cbn [Z.sgn]. lia.
    + rewrite Z.sgn_pos by lia. lia.
  - rewrite Z.sgn_neg by lia. lia.
Qed.

(** A product that already has the column's scale is stored unchanged. *)
Lemma round_half_away_exact (n d : Z) :
  0 < d -> n mod d = 0 -> Numeric.round_half_away n d * d = n.
Proof.
  intros Hd Hmod.
  pose proof (round_half_away_error n Hd) as Herr.
  apply Z.mod_divide in Hmod; [| lia].
  destruct Hmod as [k Hk]. subst n.
  set (r := Numeric.round_half_away (k * d) d) in *.
  assert (Hfac : r * d - k * d = (r - k) * d) by lia.
  rewrite Hfac in Herr. rewrite Z.abs_mul in Herr.
  rewrite (Z.abs_eq d) in Herr by lia.
  assert (Z.abs (r - k) = 0) by nia.
  assert (r = k) by lia. lia.
Qed.

Lemma store_fits (p drop v : Z) :
  Numeric.fits p (Numeric.round_half_away v (10 ^ drop)) = true ->
  Numeric.store p drop v = Ok (Numeric.round_half_away v (10 ^ drop)).
Proof. intros H. unfold Numeric.store. now rewrite H. Qed.

Lemma store_overflow (p drop v : Z) :
  Numeric.fits p (Numeric.round_half_away v (10 ^ drop)) = false ->
  Numeric.store p drop v = Throw (PgError numeric_field_overflow).
Proof. intros H. unfold Numeric.store. now rewrite H. Qed.

End Rounding.

(** ** Commission amounts *)

Section CommissionProperties.

Import Commission.
Local Open Scope Z_scope.


Lemma compute_act_commissions_ok (NEW : medical_act) :
  amounts_fit NEW -> compute_act_commissions NEW = Ok (persisted NEW).
Proof.
  intros [Hi He]. unfold compute_act_commissions.
  unfold derived_amount in Hi, He.
  rewrite (store_fits _ _ _ Hi). cbn [bind].
  rewrite (store_fits _ _ _ He). reflexivity.
Qed.

(** An amount that does not fit [NUMERIC(10,2)] aborts the write. *)
Lemma compute_act_commissions_overflow (NEW : medical_act) :
  Numeric.fits 10 (derived_amount NEW (commission_internal_rate NEW)) = false ->
  compute_act_commissions NEW = Throw (PgError numeric_field_overflow).
Proof.
  intros Hi. unfold compute_act_commissions. unfold derived_amount in Hi.
  now rewrite (store_overflow _ _ _ Hi).
Qed.

(** The amounts a client put into [NEW] never reach the table. *)
Lemma compute_act_commissions_ignores_supplied (NEW : medical_act) (a b : option Z) :
  compute_act_commissions
    {| id := id NEW; encounter_id := encounter_id NEW; price := price NEW;
       commission_internal_rate := commission_internal_rate NEW;
       commission_external_rate := commission_external_rate NEW;
       commission_internal_amount := a;
       commission_external_amount := b |}
  = compute_act_commissions NEW.
Proof. reflexivity. Qed.

Lemma update_medical_act_other (tbl : list medical_act) (target : uuid)
  (set : medical_act -> medical_act) :
  Forall (fun r => id r <> target) tbl ->
  update_medical_act tbl target set = Ok tbl.
Proof.
  induction 1 as [| r rest Hr _ IH]; cbn [update_medical_act].
  - reflexivity.
  - apply String.eqb_neq in Hr. rewrite Hr, IH. reflexivity.
Qed.

Lemma update_medical_act_app (t1 t2 : list medical_act) (target : uuid)
  (set : medical_act -> medical_act) :
  Forall (fun r => id r <> target) t1 ->
  update_medical_act (t1 ++ t2) target set =
  (rest <- update_medical_act t2 target set ;; Ok (t1 ++ rest)).
Proof.
  induction 1 as [| r rest Hr _ IH]; cbn [update_medical_act app].
  - now destruct (update_medical_act t2 target set).
  - apply String.eqb_neq in Hr. rewrite Hr, IH.
    now destruct (update_medical_act t2 target set).
Qed.

Lemma derived_amount_error (NEW : medical_act) (rate : option Z) :
  2 * Z.abs (derived_amount NEW rate * 10 ^ 4 - price NEW * COALESCE rate 0)
  <= 10 ^ 4.
Proof. unfold derived_amount. apply round_half_away_error. reflexivity. Qed.

Lemma derived_amount_exact (NEW : medical_act) (rate : option Z) :
  (price NEW * COALESCE rate 0) mod 10 ^ 4 = 0 ->
  derived_amount NEW rate * 10 ^ 4 = price NEW * COALESCE rate 0.
Proof. unfold derived_amount. apply round_half_away_exact. reflexivity. Qed.

(** C7 (as amended).  Whenever an act is inserted or updated, the row that
    is written carries [internalAmount] and [externalAmount] equal to
    [price * COALESCE(rate, 0)] rounded to the two decimals of the column
    (ties away from zero): within half a hundredth of the exact product, and
    equal to it when the product has no more than two decimals.  The amounts
    are derived by the [BEFORE] trigger, so the single write is consistent,
    and whatever the client supplied for the two amount columns is
    discarded. *)
Theorem commissions_derived_before_write (NEW : medical_act) :
  amounts_fit NEW ->
  (forall tbl, insert_medical_act tbl NEW = Ok (tbl ++ [persisted NEW])) /\
  (forall t1 t2 OLD set,
      set OLD = NEW ->
      Forall (fun r => id r <> id OLD) (t1 ++ t2) ->
      update_medical_act (t1 ++ OLD :: t2) (id OLD) set
      = Ok (t1 ++ persisted NEW :: t2)) /\
  (forall rate,
      2 * Z.abs (derived_amount NEW rate * 10 ^ 4 - price NEW * COALESCE rate 0)
      <= 10 ^ 4) /\
  (forall rate,
      (price NEW * COALESCE rate 0) mod 10 ^ 4 = 0 ->
      derived_amount NEW rate * 10 ^ 4 = price NEW * COALESCE rate 0).
Proof.
  intros Hfit. repeat split.
  - intros tbl. unfold insert_medical_act.
    now rewrite (compute_act_commissions_ok Hfit).
  - intros t1 t2 OLD set Hset Hall.
    apply Forall_app in Hall. destruct Hall as [H1 H2].
    rewrite (update_medical_act_app _ _ H1).
    cbn [update_medical_act]. rewrite String.eqb_refl, Hset.
    rewrite (compute_act_commissions_ok Hfit). cbn [bind].
    now rewrite (update_medical_act_other _ H2).
  - intros rate. apply derived_amount_error.
  - intros rate. apply derived_amount_exact.
Qed.


Lemma commissions_derived_before_write_witness :
  amounts_fit act_100 /\
  insert_medical_act [] act_100
  = Ok [ {| id := "a1"; encounter_id := Some "e1"; price := 10000;
            commission_internal_rate := Some 1500;
            commission_external_rate := Some 500;
            commission_internal_amount := Some 1500;
            commission_external_amount := Some 500 |} ].
Proof.
  split.
  - split; reflexivity.
  - apply (proj1 (commissions_derived_before_write (NEW := act_100)
                    (conj eq_refl eq_refl)) []).
Defined.

(** C7 as stated fails on sub-cent products: an act priced 0.10 with an
    internal rate of 0.1500 is written with an internal amount of 0.02,
    whereas price times rate is 0.015. *)
Lemma commissions_exact_product_counterexample :
  exists row,
    insert_medical_act [] act_sub_cent = Ok [row] /\
    commission_internal_amount row = Some 2 /\
    2 * 10 ^ 4 <> price act_sub_cent * 1500.
Proof.
  eexists. split; [reflexivity |]. split; [reflexivity |].
  cbn. lia.
Qed.

End CommissionProperties.
(** ** Invoice totals *)

Section InvoiceProperties.

Import Invoice.
Local Open Scope Z_scope.

Lemma round_half_away_unit (n : Z) : Numeric.round_half_away n (10 ^ 0) = n.
Proof.
  pose proof (@round_half_away_exact n (10 ^ 0) eq_refl (Z.mod_1_r n)) as H.
  change (10 ^ 0) with 1 in *. lia.
Qed.

Lemma store_same_scale (v t : Z) : Numeric.store 10 0 v = Ok t -> t = v.
Proof.
  unfold Numeric.store. rewrite round_half_away_unit.
  destruct (Numeric.fits 10 v); congruence.
Qed.

(** What a successful [UPDATE invoices] leaves behind. *)
Lemma set_total_amount_ok (reach : invoice -> bool) (invs invs' : list invoice)
  (target : uuid) (total : Z) :
  set_total_amount reach invs target total = Ok invs' ->
  invs' = map (fun inv =>
                 if reach inv && String.eqb (id inv) target
                 then with_total inv total else inv) invs.
Proof.
  revert invs'. induction invs as [| inv rest IH]; intros invs' H;
    cbn [set_total_amount map] in *.
  - congruence.
  - destruct (reach inv && String.eqb (id inv) target).
    + destruct (Numeric.store 10 0 total) as [t |] eqn:Hs; cbn [bind] in H;
        [| discriminate].
      apply store_same_scale in Hs. subst t.
      destruct (set_total_amount reach rest target total) as [rest' |];
        cbn [bind] in H; [| discriminate].
      injection H as <-. now rewrite (IH rest' eq_refl).
    + destruct (set_total_amount reach rest target total) as [rest' |];
        cbn [bind] in H; [| discriminate].
      injection H as <-. now rewrite (IH rest' eq_refl).
Qed.

Lemma set_total_amount_fits (reach : invoice -> bool) (invs : list invoice)
  (target : uuid) (total : Z) :
  Numeric.fits 10 total = true ->
  exists invs', set_total_amount reach invs target total = Ok invs'.
Proof.
  intros Hfit. induction invs as [| inv rest [rest' IH]];
    cbn [set_total_amount].
  - eauto.
  - rewrite IH. unfold Numeric.store. rewrite round_half_away_unit, Hfit.
    destruct (reach inv && String.eqb (id inv) target); cbn [bind]; eauto.
Qed.

(** The policy reads the settings of the connection and the center of the
    row, nothing else. *)
Lemma invoices_center_sess (d d' : db) (inv : invoice) :
  sess d' = sess d -> invoices_center d' inv = invoices_center d inv.
Proof. intros H. unfold invoices_center. now rewrite H. Qed.

Lemma storable_sess (d d' : db) :
  sess d' = sess d -> users d' = users d -> storable d' = storable d.
Proof. intros Hs Hu. unfold storable. now rewrite Hs, Hu. Qed.

(** What [audit_invoices] leaves behind. *)
Lemma audit_invoices_inv (changes : list (invoice * invoice)) :
  forall d r,
    audit_invoices changes d = r ->
    match r with
    | Ok d' =>
        sess d' = sess d /\ users d' = users d /\
        invoices d' = invoices d /\ invoice_items d' = invoice_items d /\
        exists added,
          audit_logs d' = audit_logs d ++ added /\
          Forall (fun e => audit_user_id e = Rls.get_current_user_id (sess d) /\
                           In (audit_old e, audit_new e) changes /\
                           audit_record_id e = id (audit_new e)) added
    | Throw e =>
        e = PgError foreign_key_violation /\ storable d = false /\ changes <> []
    end.
Proof.
  induction changes as [| [OLD NEW] rest IH]; intros d r <-;
    cbn [audit_invoices].
  - repeat split. exists []. rewrite app_nil_r. split; [reflexivity | constructor].
  - unfold log_audit_change. destruct (storable d) eqn:Hst; cbn [bind].
    + match goal with
      | |- context [audit_invoices rest ?d1] =>
          specialize (IH d1 _ eq_refl);
          destruct (audit_invoices rest d1) as [d' | e]
      end; cbn [sess users invoices invoice_items audit_logs] in IH.
      * destruct IH as (Hs & Hu & Hi & Hit & added & Hlog & Hall).
        repeat (split; [assumption |]).
        eexists (_ :: added). rewrite Hlog, <- app_assoc. cbn [app].
        split; [reflexivity |]. constructor.
        -- cbn. repeat split. now left.
        -- eapply Forall_impl; [| exact Hall]. cbv beta.
           intros e (H1 & H2 & H3). repeat split; [exact H1 | now right | exact H3].
      * destruct IH as (_ & Habs & _).
        unfold storable in Habs, Hst. cbn [sess users] in Habs. congruence.
    + repeat split. discriminate.
Qed.

(** What one run of the trigger function leaves behind: the invoices of
    its target that the connection reaches carry the sum of their line
    totals, the others are as they were. *)
Lemma recalc_invoice_totals_shape (op : tg_op) (OLD NEW : option invoice_item)
  (d d' : db) :
  recalc_invoice_totals op OLD NEW d = Ok d' ->
  sess d' = sess d /\ users d' = users d /\
  invoice_items d' = invoice_items d /\
  invoices d'
  = map (fun inv =>
           if invoices_center d inv
              && match trigger_target op (OLD, NEW) with
                 | Some t => String.eqb (id inv) t
                 | None => false
                 end
           then retotal (invoice_items d) inv else inv) (invoices d) /\
  exists added,
    audit_logs d' = audit_logs d ++ added /\
    Forall (fun e => audit_user_id e = Rls.get_current_user_id (sess d) /\
                     trigger_target op (OLD, NEW) = Some (audit_record_id e))
      added.
Proof.
  unfold recalc_invoice_totals, trigger_target. cbn [fst snd].
  destruct (match op with
            | DELETE => option_map invoice_id OLD
            | _ => option_map invoice_id NEW
            end) as [target |].
  2:{ intros [= <-]. repeat split.
      - rewrite <- (map_id (invoices d)) at 1. apply map_ext. intros inv.
        now rewrite andb_false_r.
      - exists []. rewrite app_nil_r. split; [reflexivity | constructor]. }
  cbv zeta.
  destruct (set_total_amount (invoices_center d) (invoices d) target
              (sum_total_price (invoice_items d) target)) as [invs |] eqn:Hset;
    cbn [bind]; [| discriminate].
  apply set_total_amount_ok in Hset. intros Haudit.
  apply audit_invoices_inv in Haudit.
  cbn [with_invoices sess users invoices invoice_items audit_logs] in Haudit.
  destruct Haudit as (Hs & Hu & Hi & Hit & added & Hlog & Hall).
  split; [exact Hs |]. split; [exact Hu |]. split; [exact Hit |]. split.
  - rewrite Hi, Hset. apply map_ext. intros inv.
    destruct (invoices_center d inv); cbn [andb]; [| reflexivity].
    destruct (String.eqb_spec (id inv) target) as [<- | _]; reflexivity.
  - exists added. split; [exact Hlog |].
    eapply Forall_impl; [| exact Hall]. cbv beta.
    intros e (H1 & H2 & H3). split; [exact H1 |].
    apply in_map_iff in H2. destruct H2 as (inv & Hpair & Hin).
    apply filter_In in Hin. destruct Hin as [_ Hhit].
    apply andb_prop in Hhit. destruct Hhit as [_ Hid].
    apply String.eqb_eq in Hid.
    injection Hpair as _ Hnew. rewrite H3, <- Hnew. cbn [with_total id].
    now rewrite Hid.
Qed.

(** The invoices after the queued triggers have run. *)
Lemma fire_shape (op : tg_op)
  (events : list (option invoice_item * option invoice_item)) :
  forall d d',
    fire op events d = Ok d' ->
    sess d' = sess d /\ users d' = users d /\
    invoice_items d' = invoice_items d /\
    invoices d'
    = map (fun inv =>
             if invoices_center d inv
                && existsb (fun ev => match trigger_target op ev with
                                      | Some t => String.eqb (id inv) t
                                      | None => false
                                      end) events
             then retotal (invoice_items d) inv else inv) (invoices d) /\
    exists added,
      audit_logs d' = audit_logs d ++ added /\
      Forall (fun e => audit_user_id e = Rls.get_current_user_id (sess d) /\
                       exists ev, In ev events /\
                                  trigger_target op ev = Some (audit_record_id e))
        added.
Proof.
  induction events as [| [OLD NEW] rest IH]; intros d d' H; cbn [fire] in H.
  - injection H as <-. repeat split.
    + rewrite <- (map_id (invoices d)) at 1. apply map_ext. intros inv.
      cbn [existsb]. now rewrite andb_false_r.
    + exists []. rewrite app_nil_r. split; [reflexivity | constructor].
  - destruct (recalc_invoice_totals op OLD NEW d) as [d1 |] eqn:H1;
      cbn [bind] in H; [| discriminate].
    apply recalc_invoice_totals_shape in H1.
    destruct H1 as (Hs1 & Hu1 & Hit1 & Hinv1 & added1 & Hlog1 & Hall1).
    destruct (IH d1 d' H) as (Hs & Hu & Hit & Hinv & added & Hlog & Hall).
    split; [congruence |]. split; [congruence |]. split; [congruence |]. split.
    + rewrite Hinv, Hinv1, Hit1, map_map. apply map_ext. intros inv.
      cbn [existsb].
      set (here := match trigger_target op (OLD, NEW) with
                   | Some t => String.eqb (id inv) t
                   | None => false
                   end).
      rewrite !(@invoices_center_sess d d1 _ Hs1).
      destruct (invoices_center d inv) eqn:Hc; cbn [andb].
      * destruct here; cbn [orb].
        -- change (invoices_center d (retotal (invoice_items d) inv))
             with (invoices_center d inv).
           rewrite Hc. cbn [andb].
           change (id (retotal (invoice_items d) inv)) with (id inv).
           now destruct (existsb _ rest).
        -- now rewrite Hc.
      * now rewrite Hc.
    + exists (added1 ++ added). rewrite Hlog, Hlog1, app_assoc.
      split; [reflexivity |]. apply Forall_app. split.
      * eapply Forall_impl; [| exact Hall1]. cbv beta.
        intros e (Hu' & Ht). split; [exact Hu' |].
        exists (OLD, NEW). split; [now left | exact Ht].
      * eapply Forall_impl; [| exact Hall]. cbv beta.
        intros e (Hu' & ev & Hev & Ht). split; [congruence |].
        exists ev. split; [now right | exact Ht].
Qed.

Lemma existsb_map {A B : Type} (f : B -> bool) (g : A -> B) (l : list A) :
  existsb f (map g l) = existsb (fun x => f (g x)) l.
Proof.
  induction l as [| x l IH]; cbn [map existsb]; [reflexivity | now rewrite IH].
Qed.

(** The database after a statement that went through. *)
Lemma run_shape (d d' : db) (m : mutation) :
  run d m = Ok d' ->
  sess d' = sess d /\ users d' = users d /\
  invoice_items d' = surviving d m /\
  invoices d'
  = map (fun inv => if invoices_center d inv
                       && existsb (String.eqb (id inv)) (recomputed d m)
                    then retotal (surviving d m) inv else inv) (invoices d) /\
  exists added,
    audit_logs d' = audit_logs d ++ added /\
    Forall (fun e => audit_user_id e = Rls.get_current_user_id (sess d) /\
                     In (audit_record_id e) (recomputed d m)) added.
Proof.
  intros Hrun.
  destruct m as [it | target set | target]; cbn [run surviving recomputed] in *.
  - unfold insert_invoice_item in Hrun.
    destruct (insert_checks d it); cbn [bind] in Hrun; [| discriminate].
    apply fire_shape in Hrun.
    cbn [with_invoice_items sess users invoices invoice_items audit_logs] in Hrun.
    destruct Hrun as (Hs & Hu & Hit & Hinv & added & Hlog & Hall).
    split; [exact Hs |]. split; [exact Hu |]. split; [exact Hit |]. split.
    + rewrite Hinv. apply map_ext. intros inv. reflexivity.
    + exists added. split; [exact Hlog |].
      eapply Forall_impl; [| exact Hall]. cbv beta.
      intros e (Hu' & ev & [<- | []] & Ht). split; [exact Hu' |].
      cbn in Ht. injection Ht as <-. now left.
  - unfold update_invoice_item in Hrun. cbv zeta in Hrun.
    destruct (update_checks d target set); cbn [bind] in Hrun; [| discriminate].
    apply fire_shape in Hrun.
    cbn [with_invoice_items sess users invoices invoice_items audit_logs] in Hrun.
    destruct Hrun as (Hs & Hu & Hit & Hinv & added & Hlog & Hall).
    split; [exact Hs |]. split; [exact Hu |]. split; [exact Hit |]. split.
    + rewrite Hinv. apply map_ext. intros inv. now rewrite !existsb_map.
    + exists added. split; [exact Hlog |].
      eapply Forall_impl; [| exact Hall]. cbv beta.
      intros e (Hu' & ev & Hev & Ht). split; [exact Hu' |].
      apply in_map_iff in Hev. destruct Hev as (OLD & <- & Hin).
      cbn in Ht. injection Ht as <-. apply in_map_iff. now exists OLD.
  - unfold delete_invoice_item in Hrun. cbv zeta in Hrun.
    apply fire_shape in Hrun.
    cbn [with_invoice_items sess users invoices invoice_items audit_logs] in Hrun.
    destruct Hrun as (Hs & Hu & Hit & Hinv & added & Hlog & Hall).
    split; [exact Hs |]. split; [exact Hu |]. split; [exact Hit |]. split.
    + rewrite Hinv. apply map_ext. intros inv. now rewrite !existsb_map.
    + exists added. split; [exact Hlog |].
      eapply Forall_impl; [| exact Hall]. cbv beta.
      intros e (Hu' & ev & Hev & Ht). split; [exact Hu' |].
      apply in_map_iff in Hev. destruct Hev as (OLD & <- & Hin).
      cbn in Ht. injection Ht as <-. apply in_map_iff. now exists OLD.
Qed.



(** The triggers of a statement all succeed when the sums they compute fit
    the column and the user of the context can be stored in the audit
    trail. *)
Lemma fire_succeeds (op : tg_op)
  (events : list (option invoice_item * option invoice_item)) :
  forall d,
    storable d = true ->
    (forall ev t, In ev events -> trigger_target op ev = Some t ->
                  Numeric.fits 10 (sum_total_price (invoice_items d) t) = true) ->
    exists d', fire op events d = Ok d'.
Proof.
  induction events as [| [OLD NEW] rest IH]; intros d Hst Hfit; cbn [fire].
  - eauto.
  - assert (H1 : exists d1, recalc_invoice_totals op OLD NEW d = Ok d1).
    { unfold recalc_invoice_totals.
      pose proof (Hfit (OLD, NEW)) as Hev. unfold trigger_target in Hev.
      cbn [fst snd] in Hev.
      destruct (match op with
                | DELETE => option_map invoice_id OLD
                | _ => option_map invoice_id NEW
                end) as [t |] eqn:Ht; [| eauto].
      cbv zeta.
      destruct (@set_total_amount_fits (invoices_center d) (invoices d) t
                  (sum_total_price (invoice_items d) t)) as [invs Hinvs].
      { apply Hev; [now left |]. destruct op; reflexivity. }
      rewrite Hinvs. cbn [bind].
      match goal with
      | |- exists d1, audit_invoices ?ch ?d0 = Ok d1 =>
          pose proof (@audit_invoices_inv ch d0 _ eq_refl) as Haud;
          destruct (audit_invoices ch d0) as [d1 | e]; [now exists d1 |]
      end.
      destruct Haud as (_ & Habs & _).
      unfold storable in Habs, Hst. cbn [with_invoices sess users] in Habs.
      congruence. }
    destruct H1 as [d1 H1]. rewrite H1. cbn [bind].
    apply recalc_invoice_totals_shape in H1.
    destruct H1 as (Hs & Hu & Hi & _).
    apply IH.
    + now rewrite (@storable_sess d d1 Hs Hu).
    + intros ev t Hin Ht. rewrite Hi. apply (Hfit ev); [now right | exact Ht].
Qed.

(** An admissible statement goes through when the user of the context can
    be stored in the audit trail. *)
Lemma run_succeeds (d : db) (m : mutation) :
  admissible d m -> storable d = true -> exists d', run d m = Ok d'.
Proof.
  intros [Hchk Hfit] Hst.
  destruct m as [it | target set | target];
    cbn [run surviving recomputed checks] in *.
  - unfold insert_invoice_item. rewrite Hchk. cbn [bind].
    apply fire_succeeds; [exact Hst |]. cbn [with_invoice_items invoice_items].
    intros ev t [<- | []] [= <-]. apply Hfit. now left.
  - unfold update_invoice_item. cbv zeta. rewrite Hchk. cbn [bind].
    apply fire_succeeds; [exact Hst |]. cbn [with_invoice_items invoice_items].
    intros ev t Hin Ht. apply in_map_iff in Hin.
    destruct Hin as (OLD & <- & Hin). cbn in Ht. injection Ht as <-.
    apply Hfit. apply in_map_iff. now exists OLD.
  - unfold delete_invoice_item. cbv zeta.
    apply fire_succeeds; [exact Hst |]. cbn [with_invoice_items invoice_items].
    intros ev t Hin Ht. apply in_map_iff in Hin.
    destruct Hin as (OLD & <- & Hin). cbn in Ht. injection Ht as <-.
    apply Hfit. apply in_map_iff. now exists OLD.
Qed.

(** The sequence of the specification, on a connection whose context is
    the center of the invoice: from total 0, two units at 50.00 and one at
    25.00 give 125.00; deleting the first item leaves 25.00. *)
Example invoice_total_sequence :
  exists d1 d2 d3,
    run fresh (Insert item_2x50) = Ok d1 /\
    map total_amount (invoices d1) = [Some 10000] /\
    run d1 (Insert item_1x25) = Ok d2 /\
    map total_amount (invoices d2) = [Some 12500] /\
    run d2 (Delete "i1") = Ok d3 /\
    map total_amount (invoices d3) = [Some 2500] /\
    invoice_items d3 = [item_1x25] /\
    List.length (audit_logs d3) = 3%nat.
Proof. do 3 eexists. repeat split; reflexivity. Qed.




(** An update that moves a line item to another invoice recomputes the
    total of the new parent only: the former parent keeps the total it had
    with the item. *)
Example reparenting_leaves_former_total :
  let two := with_invoices fresh
               [ {| id := "inv1"; center_id := "c1"; total_amount := Some 0 |};
                 {| id := "inv2"; center_id := "c1"; total_amount := Some 0 |} ] in
  exists d1 d2,
    run two (Insert item_2x50) = Ok d1 /\
    run d1 (Update "i1" (fun it => {| item_id := item_id it; invoice_id := "inv2";
                                      quantity := quantity it;
                                      unit_price := unit_price it |})) = Ok d2 /\
    map total_amount (invoices d2) = [Some 10000; Some 10000] /\
    sum_total_price (invoice_items d2) "inv1" = 0.
Proof. do 2 eexists. repeat split; reflexivity. Qed.

(** The statement of a user that [users] does not hold is undone by the
    audit trigger of the invoice it reaches. *)
Example unknown_user_cannot_retotal :
  run {| sess := {| Rls.app_user_id := Some "u9"; Rls.app_center_id := Some "c1" |};
         users := ["u1"];
         invoices := invoices fresh; invoice_items := []; audit_logs := [] |}
    (Insert item_2x50)
  = Throw (PgError foreign_key_violation).
Proof. reflexivity. Qed.

End InvoiceProperties.

(** ** Pharmacy stock *)

Section PharmacyProperties.

Import Pharmacy.
Local Open Scope Z_scope.

Lemma add_stock_ok (items items' : list pharmacy_item) (target : uuid) (delta : Z) :
  add_stock items target (Ok delta) = Ok items' ->
  items' = map (bump target delta) items.
Proof.
  revert items'. induction items as [| it rest IH]; intros items' H;
    cbn [add_stock map bind] in *.
  - congruence.
  - unfold bump at 1. destruct (String.eqb (id it) target).
    + destruct (current_stock it) as [s |] eqn:Hs.
      * destruct (int4 (s + delta)); cbn [bind] in H; [| discriminate].
        destruct (add_stock rest target (Ok delta)) as [rest' |];
          cbn [bind] in H; [| discriminate].
        injection H as <-. now rewrite (IH rest' eq_refl).
      * cbn [bind] in H.
        destruct (add_stock rest target (Ok delta)) as [rest' |];
          cbn [bind] in H; [| discriminate].
        injection H as <-. now rewrite (IH rest' eq_refl).
    + destruct (add_stock rest target (Ok delta)) as [rest' |];
        cbn [bind] in H; [| discriminate].
      injection H as <-. now rewrite (IH rest' eq_refl).
Qed.

Lemma add_stock_in_range (items : list pharmacy_item) (target : uuid) (delta : Z) :
  (forall it s, In it items -> id it = target -> current_stock it = Some s ->
                int4 (s + delta) = true) ->
  add_stock items target (Ok delta) = Ok (map (bump target delta) items).
Proof.
  induction items as [| it rest IH]; intros Hr; cbn [add_stock map bind].
  - reflexivity.
  - rewrite IH by (intros it' s Hin; apply Hr; now right).
    set (rest' := map (bump target delta) rest).
    unfold bump. destruct (String.eqb (id it) target) eqn:Hid.
    + apply String.eqb_eq in Hid.
      destruct (current_stock it) as [s |] eqn:Hs; [| reflexivity].
      now rewrite (Hr it s (or_introl eq_refl) Hid Hs).
    + reflexivity.
Qed.

(** The negation of a quantity above the least [INTEGER]. *)
Lemma int4um_in_range (q : Z) :
  int4 q = true -> - 2 ^ 31 < q -> int4um q = Ok (- q).
Proof.
  unfold int4um, int4. intros Hq Hlow.
  apply andb_prop in Hq. destruct Hq as [_ Hhi]. apply Z.leb_le in Hhi.
  assert (H : (- 2 ^ 31 <=? - q) && (- q <=? 2 ^ 31 - 1) = true).
  { apply andb_true_intro. split; apply Z.leb_le; lia. }
  now rewrite H.
Qed.

Lemma map_id_bump (items : list pharmacy_item) (target : uuid) (delta : Z) :
  map id (map (bump target delta) items) = map id items.
Proof.
  rewrite map_map. apply map_ext. intros it. unfold bump.
  now destruct (String.eqb (id it) target).
Qed.

(** Under the primary key, the row a lookup finds is the only one with
    that key. *)
Lemma select_item_unique (d : db) (target : uuid) (item : pharmacy_item) :
  primary_key d ->
  select_item d target = Some item ->
  forall it, In it (pharmacy_items d) -> id it = target -> it = item.
Proof.
  unfold primary_key, select_item.
  induction (pharmacy_items d) as [| x rest IH]; intros Hnd Hfind it Hin Hid;
    cbn [find map] in *.
  - contradiction.
  - apply NoDup_cons_iff in Hnd. destruct Hnd as [Hnotin Hnd'].
    destruct (String.eqb (id x) target) eqn:Hx.
    + injection Hfind as <-. destruct Hin as [-> | Hin]; [reflexivity |].
      exfalso. apply Hnotin. apply String.eqb_eq in Hx.
      rewrite Hx. apply in_map_iff. now exists it.
    + destruct Hin as [<- | Hin].
      * apply String.eqb_neq in Hx. contradiction.
      * now apply IH.
Qed.

Lemma select_item_some (d : db) (target : uuid) (item : pharmacy_item) :
  select_item d target = Some item ->
  In item (pharmacy_items d) /\ id item = target.
Proof.
  unfold select_item. intros H. apply find_some in H.
  destruct H as [Hin Hid]. now apply String.eqb_eq in Hid.
Qed.

Lemma select_item_bump (d : db) (target : uuid) (delta : Z)
  (item : pharmacy_item) (ledger : list pharmacy_transaction) :
  select_item d target = Some item ->
  select_item {| pharmacy_items := map (bump target delta) (pharmacy_items d);
                 pharmacy_transactions := ledger |} target
  = Some (bump target delta item).
Proof.
  unfold select_item. cbn [pharmacy_items].
  induction (pharmacy_items d) as [| x rest IH]; cbn [find map]; intros H.
  - discriminate.
  - destruct (String.eqb (id x) target) eqn:Hx.
    + injection H as <-. unfold bump at 1. rewrite Hx. cbn [id].
      rewrite Hx. unfold bump. now rewrite Hx.
    + unfold bump at 1. rewrite Hx, Hx. now apply IH.
Qed.

(** What a successful [createTransaction] did. *)
Lemma createTransaction_ok (d d' : db) (new_id : uuid)
  (input : transaction_input) (out : transaction_output) :
  createTransaction (Some d) new_id input = Ok (d', out) ->
  exists item delta,
    select_item d (itemId input) = Some item /\
    0 < input_quantity input /\
    delta = match transactionType input with
            | tx_in => input_quantity input
            | tx_out => - input_quantity input
            end /\
    (transactionType input = tx_out -> input_quantity input <= parse_stock item) /\
    pharmacy_items d' = map (bump (itemId input) delta) (pharmacy_items d) /\
    pharmacy_transactions d' = pharmacy_transactions d ++ [transaction out].
Proof.
  unfold createTransaction.
  destruct (input_quantity input <=? 0) eqn:Hq; [discriminate |].
  apply Z.leb_gt in Hq.
  destruct (select_item d (itemId input)) as [item |] eqn:Hsel; [| discriminate].
  destruct (match transactionType input with
            | tx_out => parse_stock item <? input_quantity input
            | tx_in => false
            end) eqn:Hchk; [discriminate |].
  unfold insert_pharmacy_transaction. cbn [quantity item_id].
  destruct (int4 (input_quantity input)) eqn:Hint; cbn [negb]; [| discriminate].
  destruct (existsb _ (pharmacy_items d)); cbn [negb]; [| discriminate].
  unfold fn_update_pharmacy_stock. cbn [pharmacy_items pharmacy_transactions
                                         item_id tx_type quantity].
  set (delta := match transactionType input with
                | tx_in => input_quantity input
                | tx_out => - input_quantity input
                end).
  assert (Hdelta : match transactionType input with
                   | tx_in => Ok (input_quantity input)
                   | tx_out => int4um (input_quantity input)
                   end = Ok delta).
  { unfold delta. destruct (transactionType input); [reflexivity |].
    apply int4um_in_range; [exact Hint | lia]. }
  rewrite Hdelta.
  destruct (add_stock (pharmacy_items d) (itemId input) (Ok delta))
    as [items |] eqn:Hadd; cbn [bind]; [| discriminate].
  apply add_stock_ok in Hadd. subst items.
  rewrite (@select_item_bump d (itemId input) delta item _ Hsel).
  intros [= <- <-]. exists item, delta. cbn [pharmacy_items pharmacy_transactions transaction].
  repeat split; auto.
  intros Hout. rewrite Hout in Hchk. now apply Z.ltb_ge in Hchk.
Qed.

(** One request keeps the primary key and the sign of every stock. *)
Lemma step_preserves (d : db) (req : uuid * transaction_input) :
  primary_key d -> stock_nonneg d ->
  primary_key (step d req) /\ stock_nonneg (step d req).
Proof.
  intros Hpk Hnn. unfold step.
  destruct (createTransaction (Some d) (fst req) (snd req)) as [[d' out] |] eqn:Hc;
    [| now split].
  apply createTransaction_ok in Hc.
  destruct Hc as (item & delta & Hsel & Hq & Hdelta & Hout & Hitems & _).
  split.
  - unfold primary_key. rewrite Hitems, map_id_bump. exact Hpk.
  - unfold stock_nonneg in *. rewrite Hitems.
    rewrite Forall_forall in *. intros it' Hin' s' Hs'.
    apply in_map_iff in Hin'. destruct Hin' as (it & <- & Hin).
    unfold bump in Hs'.
    destruct (String.eqb (id it) (itemId (snd req))) eqn:Hid;
      [| now apply (Hnn it Hin)].
    cbn [current_stock] in Hs'.
    destruct (current_stock it) as [s |] eqn:Hs; [| discriminate].
    cbn [option_map] in Hs'. injection Hs' as <-.
    pose proof (Hnn it Hin s Hs) as Hs0.
    apply String.eqb_eq in Hid.
    pose proof (select_item_unique Hpk Hsel it Hin Hid) as Heq. subst it.
    destruct (transactionType (snd req)).
    + lia.
    + specialize (Hout eq_refl). unfold parse_stock in Hout.
      rewrite Hs in Hout. cbn [COALESCE] in Hout. lia.
Qed.

Lemma serve_preserves (reqs : list (uuid * transaction_input)) :
  forall d, primary_key d -> stock_nonneg d ->
            primary_key (serve d reqs) /\ stock_nonneg (serve d reqs).
Proof.
  unfold serve. induction reqs as [| req rest IH]; intros d Hpk Hnn;
    cbn [fold_left].
  - now split.
  - destruct (step_preserves req Hpk Hnn) as [Hpk' Hnn']. now apply IH.
Qed.

(** An outbound entry larger than the stock is refused before the insert. *)
Lemma createTransaction_insufficient (d : db) (new_id : uuid)
  (input : transaction_input) (item : pharmacy_item) :
  select_item d (itemId input) = Some item ->
  transactionType input = tx_out ->
  0 < input_quantity input ->
  parse_stock item < input_quantity input ->
  createTransaction (Some d) new_id input
  = Throw (TRPCError BAD_REQUEST
             ("Insufficient stock. Current: " ++ show_Z (parse_stock item)
              ++ ", Requested: " ++ show_Z (input_quantity input))).
Proof.
  intros Hsel Hout Hq Hlt. unfold createTransaction.
  apply Z.leb_gt in Hq. rewrite Hq, Hsel, Hout.
  apply Z.ltb_lt in Hlt. now rewrite Hlt.
Qed.

(** An outbound entry of exactly the stock goes through and empties the
    item. *)
Lemma createTransaction_exact (d : db) (new_id : uuid)
  (input : transaction_input) (item : pharmacy_item) (s : Z) :
  primary_key d ->
  select_item d (itemId input) = Some item ->
  current_stock item = Some s ->
  0 < s -> int4 s = true ->
  transactionType input = tx_out ->
  input_quantity input = s ->
  let NEW := {| tx_id := new_id; item_id := itemId input;
                tx_type := tx_out; quantity := s |} in
  createTransaction (Some d) new_id input
  = Ok ({| pharmacy_items := map (bump (itemId input) (- s)) (pharmacy_items d);
           pharmacy_transactions := pharmacy_transactions d ++ [NEW] |},
        {| transaction := NEW; newStock := 0 |}).
Proof.
  intros Hpk Hsel Hs Hpos Hint Hout Hq NEW. subst NEW.
  unfold createTransaction. rewrite Hq, Hout.
  assert (Hq0 : (s <=? 0) = false) by (apply Z.leb_gt; lia).
  rewrite Hq0, Hsel.
  unfold parse_stock at 1. rewrite Hs. cbn [COALESCE].
  rewrite Z.ltb_irrefl.
  unfold insert_pharmacy_transaction. cbn [quantity item_id].
  rewrite Hint. cbn [negb].
  destruct (select_item_some _ _ Hsel) as [Hin Hid].
  assert (Hex : existsb (fun it => String.eqb (id it) (itemId input))
                  (pharmacy_items d) = true).
  { apply existsb_exists. exists item. split; [exact Hin |].
    now apply String.eqb_eq. }
  rewrite Hex. cbn [negb].
  unfold fn_update_pharmacy_stock.
  cbn [pharmacy_items pharmacy_transactions item_id tx_type quantity].
  rewrite (@int4um_in_range s Hint) by lia.
  rewrite add_stock_in_range.
  2:{ intros it s' Hin' Hid' Hs'.
      pose proof (select_item_unique Hpk Hsel it Hin' Hid') as ->.
      assert (s' = s) by congruence. subst s'.
      replace (s + - s) with 0 by lia. reflexivity. }
  cbn [bind].
  rewrite (@select_item_bump d (itemId input) (- s) item _ Hsel).
  unfold bump. apply String.eqb_eq in Hid. rewrite Hid.
  unfold parse_stock. cbn [current_stock]. rewrite Hs. cbn [option_map COALESCE].
  replace (s + - s) with 0 by lia. reflexivity.
Qed.

(** X16.  Through [createTransaction] of the pharmacy-items router, requests being
    handled one after the other: an outbound entry larger than the stock is
    refused before anything is inserted, and ledger and stock stay as they
    were; an outbound entry equal to the stock is accepted and leaves the
    stock at 0; and after any sequence of requests no stock is negative. *)
Lemma guarded_stock_never_negative (d : db) :
  primary_key d -> stock_nonneg d ->
  (forall new_id input item,
      select_item d (itemId input) = Some item ->
      transactionType input = tx_out ->
      parse_stock item < input_quantity input ->
      createTransaction (Some d) new_id input
      = Throw (TRPCError BAD_REQUEST
                 ("Insufficient stock. Current: " ++ show_Z (parse_stock item)
                  ++ ", Requested: " ++ show_Z (input_quantity input))) /\
      step d (new_id, input) = d) /\
  (forall new_id input item s,
      select_item d (itemId input) = Some item ->
      current_stock item = Some s ->
      0 < s -> int4 s = true ->
      transactionType input = tx_out ->
      input_quantity input = s ->
      exists d' tx,
        createTransaction (Some d) new_id input
        = Ok (d', {| transaction := tx; newStock := 0 |}) /\
        stock_of d' (itemId input) = Some 0 /\
        pharmacy_transactions d' = pharmacy_transactions d ++ [tx]) /\
  (forall reqs, stock_nonneg (serve d reqs)).
Proof.
  intros Hpk Hnn.
  assert (Hrej : forall new_id input item,
             select_item d (itemId input) = Some item ->
             transactionType input = tx_out ->
             parse_stock item < input_quantity input ->
             createTransaction (Some d) new_id input
             = Throw (TRPCError BAD_REQUEST
                        ("Insufficient stock. Current: " ++ show_Z (parse_stock item)
                         ++ ", Requested: " ++ show_Z (input_quantity input)))).
  { intros new_id input item Hsel Hout Hlt.
    apply createTransaction_insufficient; auto.
    destruct (select_item_some _ _ Hsel) as [Hin _].
    unfold stock_nonneg in Hnn. rewrite Forall_forall in Hnn.
    specialize (Hnn item Hin). unfold parse_stock in Hlt.
    destruct (current_stock item) as [s |]; cbn [COALESCE] in Hlt.
    - specialize (Hnn s eq_refl). lia.
    - lia. }
  split; [| split].
  - intros new_id input item Hsel Hout Hlt. split; [now apply Hrej |].
    unfold step. cbn [fst snd]. now rewrite (Hrej new_id input item).
  - intros new_id input item s Hsel Hs Hpos Hint Hout Hq.
    pose proof (@createTransaction_exact d new_id input item s
                  Hpk Hsel Hs Hpos Hint Hout Hq) as Hex.
    cbv zeta in Hex. eexists _, _. split; [exact Hex |]. split; [| reflexivity].
    unfold stock_of.
    rewrite (@select_item_bump d (itemId input) (- s) item _ Hsel).
    destruct (select_item_some _ _ Hsel) as [_ Hid].
    unfold bump. apply String.eqb_eq in Hid. rewrite Hid.
    cbn [current_stock]. rewrite Hs. cbn [option_map]. f_equal. lia.
  - intros reqs. now apply serve_preserves.
Qed.

Lemma guarded_stock_at_ten :
  primary_key shelf /\ stock_nonneg shelf /\
  (createTransaction (Some shelf) "t1" (out_of 15)
   = Throw (TRPCError BAD_REQUEST
              "Insufficient stock. Current: 10, Requested: 15") /\
   step shelf ("t1", out_of 15) = shelf) /\
  (exists d' tx,
      createTransaction (Some shelf) "t2" (out_of 10)
      = Ok (d', {| transaction := tx; newStock := 0 |}) /\
      stock_of d' "item1" = Some 0 /\
      pharmacy_transactions d' = pharmacy_transactions shelf ++ [tx]).
Proof.
  assert (Hpk : primary_key shelf).
  { unfold primary_key. cbn. constructor; [intros [] | constructor]. }
  assert (Hnn : stock_nonneg shelf).
  { unfold stock_nonneg. cbn. constructor; [| constructor].
    intros s [= <-]. lia. }
  split; [exact Hpk |]. split; [exact Hnn |].
  pose proof (@guarded_stock_never_negative shelf Hpk Hnn) as (Hrej & Hexact & _).
  split.
  - apply (Hrej "t1" (out_of 15) _ eq_refl eq_refl). cbn. lia.
  - apply (Hexact "t2" (out_of 10) _ 10 eq_refl eq_refl); [lia | reflexivity ..].
Defined.

(** C6 does not hold of the code.  [createTransaction] of [pharmacyRouter]
    inserts the ledger entry without comparing it with the stock, and the
    trigger subtracts whatever it is given: on an item holding 10 units an
    outbound entry of 15 is committed and the stock becomes -5. *)
Theorem unguarded_transaction_drives_stock_negative :
  exists d' tx,
    pharmacyRouter.createTransaction (Some shelf) "t1" (out_of 15) = Ok (d', tx) /\
    pharmacy_transactions d' = [tx] /\
    quantity tx = 15 /\ tx_type tx = tx_out /\
    stock_of d' "item1" = Some (-5) /\
    ~ stock_nonneg d'.
Proof.
  eexists _, _. split; [reflexivity |].
  split; [reflexivity |]. split; [reflexivity |]. split; [reflexivity |].
  split; [reflexivity |].
  unfold stock_nonneg. cbn. intros H. inversion H as [| ? ? Hneg _]; subst.
  specialize (Hneg (-5) eq_refl). lia.
Qed.

End PharmacyProperties.

(** ** Tenant isolation *)

Section RlsProperties.

Import Rls.

Lemma truthy_some (c : string) : c <> "" -> truthy (Some c) = Some c.
Proof.
  intros Hc. unfold truthy, NULLIF.
  apply String.eqb_neq in Hc. now rewrite Hc.
Qed.

Lemma truthy_idem (v : option string) : truthy (truthy v) = truthy v.
Proof.
  unfold truthy, NULLIF. destruct v as [x |]; [| reflexivity].
  destruct (String.eqb x "") eqn:Hx; [reflexivity | now rewrite Hx].
Qed.

(** With a center to set, the context is always established. *)
Lemma setRLSContext_center (E : env) (st : pg) (uid : string) (A : uuid) :
  A <> "" ->
  setRLSContext E uid (Some A) (Some st)
  = (Ok tt, Some (set_center_id (set_user_id st uid) (Some A))).
Proof.
  intros HA. unfold setRLSContext. now rewrite (truthy_some HA).
Qed.

(** Without one, the outcome is the engine's. *)
Lemma setRLSContext_null (E : env) (st : pg) (uid : string) (c : option string) :
  truthy c = None ->
  setRLSContext E uid c (Some st)
  = if null_literal_accepted E
    then (Ok tt, Some (set_center_id (set_user_id st uid) None))
    else (Throw (JsError "Failed to apply RLS context"), Some (set_user_id st uid)).
Proof. intros Hc. unfold setRLSContext. now rewrite Hc. Qed.

Lemma holds_eq_some (a : option uuid) (c : uuid) :
  Sql3.holds (Sql3.eq a (Some c)) = true <-> a = Some c.
Proof.
  destruct a as [x |]; cbn.
  - destruct (String.eqb_spec x c); split; congruence.
  - split; discriminate.
Qed.

(** Under a context for center [A], a center-scoped table shows exactly the
    rows of [A]. *)
Lemma visible_center_scoped (st : pg) (uid : string) (A : uuid) (tbl : table) (r : row) :
  A <> "" -> center_scoped tbl = true ->
  visible (set_center_id (set_user_id st uid) (Some A)) tbl r
  = owned_by st tbl A r.
Proof.
  intros HA Htbl. apply String.eqb_neq in HA.
  destruct tbl; try discriminate;
    unfold visible, owned_by, policy_using, owner, get_user_center_id, NULLIF;
    cbn [sess set_center_id set_user_id app_center_id contents];
    rewrite HA; reflexivity.
Qed.

(** Without a center in the session, a center-scoped table shows nothing. *)
Lemma visible_no_context (st : pg) (tbl : table) (r : row) :
  no_context st -> center_scoped tbl = true -> visible st tbl r = false.
Proof.
  unfold no_context. intros Hctx Htbl. unfold visible, policy_using.
  rewrite Hctx.
  destruct tbl; try discriminate; cbn [passes];
    match goal with
    | |- Sql3.holds (Sql3.eq ?a None) = false => now destruct a
    end.
Qed.

Lemma filter_none {A : Type} (f : A -> bool) (l : list A) :
  (forall x, f x = false) -> filter f l = [].
Proof.
  intros Hf. induction l as [| x l IH]; cbn [filter]; [reflexivity |].
  now rewrite Hf.
Qed.

(** A read of a center-scoped table on a connection without a center. *)
Lemma query_no_context (st : pg) (tbl : table) (cond : row -> bool) :
  no_context st -> center_scoped tbl = true ->
  query tbl cond (Some st) = (Ok [], Some st).
Proof.
  intros Hctx Htbl. unfold query, select_from.
  rewrite (filter_none (visible st tbl));
    [reflexivity | intros r; now apply visible_no_context].
Qed.

(** As long as the statements of a request share one connection: for a
    principal attached to center [A], a query that runs behind
    [requireUser] on one of the six tables whose policy compares the row's
    center with the caller's returns exactly the rows of [A] that match the
    query. *)
Lemma center_scoped_on_one_connection (E : env) (st : pg) (u : principal) (A : uuid)
  (tbl : table) (cond : row -> bool) :
  centerId u = Some A -> A <> "" -> center_scoped tbl = true ->
  exists st',
    requireUser E (Some u) (fun _ => query tbl cond) (Some st)
    = (Ok (filter cond (filter (owned_by st tbl A) (contents st tbl))), Some st') /\
    contents st' = contents st /\
    forall B r,
      B <> A -> owner st tbl r = Some B ->
      ~ In r (filter cond (filter (owned_by st tbl A) (contents st tbl))).
Proof.
  intros Hc HA Htbl.
  exists (set_center_id (set_user_id st (user_id u)) (Some A)).
  split; [| split].
  - unfold requireUser. rewrite Hc, (truthy_some HA), (setRLSContext_center _ _ _ HA).
    unfold query, select_from. cbn [contents set_center_id set_user_id].
    do 3 f_equal. apply filter_ext. intros r.
    now apply visible_center_scoped.
  - reflexivity.
  - intros B r HB Hown Hin.
    apply filter_In in Hin. destruct Hin as [Hin _].
    apply filter_In in Hin. destruct Hin as [_ Hmine].
    unfold owned_by in Hmine. apply holds_eq_some in Hmine. congruence.
Qed.

(** On [users] the policy also shows every row flagged [is_superadmin]:
    what is returned under a context for [A] is a row of [A] or such a
    row. *)
Lemma users_rows_visible (E : env) (st : pg) (u : principal) (A : uuid)
  (cond : row -> bool) (rows : list row) (db' : option pg) :
  centerId u = Some A -> A <> "" ->
  requireUser E (Some u) (fun _ => query users cond) (Some st) = (Ok rows, db') ->
  forall r, In r rows -> is_superadmin r = Some true \/ center_id r = Some A.
Proof.
  intros Hc HA. unfold requireUser.
  rewrite Hc, (truthy_some HA), (setRLSContext_center _ _ _ HA).
  unfold query, select_from. intros [= <- _] r Hin.
  apply filter_In in Hin. destruct Hin as [Hin _].
  apply filter_In in Hin. destruct Hin as [_ Hvis].
  unfold visible, policy_using, get_user_center_id, NULLIF in Hvis.
  cbn [sess set_center_id set_user_id app_center_id passes] in Hvis.
  apply String.eqb_neq in HA. rewrite HA in Hvis.
  unfold is_true in Hvis.
  destruct (is_superadmin r) as [[|] |]; [now left | |];
    (right; destruct (center_id r) as [c |]; cbn in Hvis; [| discriminate];
     destruct (String.eqb_spec c A); [congruence | discriminate]).
Qed.

(** When the driver sends the three statements of a request to one open
    connection, the request is the one-connection computation on it. *)
Lemma nth_put (l : list session) (i : nat) (s : session) :
  i < List.length l -> nth i (Pool.put l i s) Pool.unset = s.
Proof.
  revert i. induction l as [| x l IH]; intros i Hi; cbn [List.length] in Hi;
    [lia |].
  destruct i as [| i]; cbn [Pool.put nth]; [reflexivity |].
  apply IH. lia.
Qed.

Lemma put_put (l : list session) (i : nat) (s s' : session) :
  i < List.length l -> Pool.put (Pool.put l i s) i s' = Pool.put l i s'.
Proof.
  revert i. induction l as [| x l IH]; intros i Hi; cbn [List.length] in Hi;
    [lia |].
  destruct i as [| i]; cbn [Pool.put]; [reflexivity |].
  rewrite IH; [reflexivity | lia].
Qed.

Lemma connection_release (p : Pool.pool) (i : nat) (st : pg) :
  i < List.length (Pool.connections p) ->
  Pool.connection (Pool.release p i st) i = st.
Proof.
  intros Hi. destruct st as [s c a].
  unfold Pool.connection, Pool.release. cbn.
  now rewrite (@nth_put _ i s Hi).
Qed.

Lemma release_release (p : Pool.pool) (i : nat) (st st' : pg) :
  i < List.length (Pool.connections p) ->
  Pool.release (Pool.release p i st) i st' = Pool.release p i st'.
Proof.
  intros Hi. unfold Pool.release. cbn. now rewrite (@put_put _ i _ _ Hi).
Qed.

Lemma request_on_one_connection (E : env) (p : Pool.pool) (u : principal)
  (i : nat) (tbl : table) (cond : row -> bool) :
  i < List.length (Pool.connections p) ->
  Pool.requireUser E (Some u) (i, i) (fun _ => Pool.query i tbl cond) (Some p)
  = Pool.on i (requireUser E (Some u) (fun _ => query tbl cond)) (Some p).
Proof.
  intros Hi.
  unfold Pool.requireUser, Pool.setRLSContext. cbn [fst snd].
  unfold Pool.on at 1. unfold requireUser, setRLSContext.
  set (st0 := Pool.connection p i).
  rewrite (@connection_release p i (set_user_id st0 (user_id u)) Hi).
  destruct (truthy (truthy (centerId u))) as [c |].
  - unfold Pool.query, Pool.on. cbv beta iota.
    repeat rewrite (@release_release p i _ _ Hi).
    rewrite (@connection_release p i _ Hi). unfold query.
    now repeat rewrite (@release_release p i _ _ Hi).
  - destruct (null_literal_accepted E); [| reflexivity].
    unfold Pool.query, Pool.on. cbv beta iota.
    repeat rewrite (@release_release p i _ _ Hi).
    rewrite (@connection_release p i _ Hi). unfold query.
    now repeat rewrite (@release_release p i _ _ Hi).
Qed.

(** C1 does not hold of the code.  The context is set by two session-level
    [SET] statements and the handler's query is a third statement; the pool
    sends each to a connection of its choosing.  With two connections open:
    a request of a principal of center B leaves its context on the first;
    the next request, of a non-privileged principal of center A, has its
    two [SET]s sent to the second connection and its query to the first,
    and the patient list it gets is the patient of B.  And on one
    connection, under the context of A, a read of [users] returns the
    administrator's row, which belongs to B: the policy tests the flag of
    the row, not of the caller. *)
Theorem pooled_context_crosses_tenants :
  exists p1 p2 st',
    Pool.requireUser E0 (Some Pool.bob) (0, 0)
      (fun _ => Pool.query 0 patients everything) (Some Pool.two_connections)
    = (Ok [P2], Some p1) /\
    Pool.requireUser E0 (Some alice) (1, 1)
      (fun _ => Pool.query 0 patients everything) (Some p1)
    = (Ok [P2], Some p2) /\
    centerId alice = Some "center-a" /\ isSuperadmin alice = false /\
    owner clinic patients P2 = Some "center-b" /\
    In P1 (Pool.tables Pool.two_connections patients) /\
    requireUser E0 (Some alice) (fun _ => query users everything) (Some clinic)
    = (Ok [admin_row; alice_row], Some st') /\
    owner clinic users admin_row = Some "center-b".
Proof.
  do 3 eexists.
  split; [reflexivity |]. split; [reflexivity |].
  split; [reflexivity |]. split; [reflexivity |]. split; [reflexivity |].
  split; [now left |]. split; reflexivity.
Qed.

(** The tables without a policy are read whatever the context: the [list]
    procedure of the doctors router, asked for center B by a principal of
    center A, returns the doctor of center B. *)
Example doctors_list_unscoped :
  exists db',
    requireUser E0 (Some alice)
      (doctors_list {| in_centerId := Some "center-b"; keep := everything;
                       limit := 50; offset := 0 |})
      (Some clinic)
    = (Ok [D2], db') /\
    owner clinic doctors D2 = Some "center-b".
Proof. eexists. split; reflexivity. Qed.

(** ** Data access without a context *)

(** C2 (as amended).  Data access without a context never raises a
    context-missing error.  On a connection where no center was set, a read
    of a center-scoped table succeeds with no row, an update succeeds and
    touches no row, an insert is refused by the policy's [WITH CHECK]; the
    helpers of [db.ts] return an empty list when there is no database at all;
    only [validateRLSContext], when something calls it, raises. *)
Theorem no_context_behaviour (st : pg) (tbl : table) :
  no_context st -> center_scoped tbl = true ->
  (forall cond, query tbl cond (Some st) = (Ok [], Some st)) /\
  (forall c, getPatientsByCenterId c (Some st) = (Ok [], Some st)) /\
  (forall c, getPatientsByCenterId c None = (Ok [], None)) /\
  (forall cond set,
      exists st', update_set st tbl cond set = Ok (st', []) /\
                  sess st' = sess st /\
                  forall t, contents st' t = contents st t) /\
  (forall r, insert_into st tbl r = Throw (PgError row_security_violation)) /\
  (forall data,
      createPatient data (Some st)
      = (Throw (PgError row_security_violation), Some st)) /\
  (truthy (app_user_id (sess st)) = None ->
   validateRLSContext (Some st)
   = Throw (JsError
       "[RLS] Context not set. Call setRLSContext() before database operations.")).
Proof.
  intros Hctx Htbl.
  assert (Hvis : forall r, visible st tbl r = false)
    by (intros r; now apply visible_no_context).
  split; [| split; [| split; [| split; [| split; [| split]]]]].
  - intros cond. now apply query_no_context.
  - intros c. unfold getPatientsByCenterId, select_from.
    rewrite (filter_none (visible st patients));
      [reflexivity | intros r; now apply visible_no_context].
  - reflexivity.
  - intros cond set. unfold update_set.
    assert (Hhit : forall r, visible st tbl r && cond r = false)
      by (intros r; now rewrite Hvis).
    rewrite (filter_none _ _ Hhit). cbn [map forallb].
    eexists. split; [reflexivity |]. split; [reflexivity |].
    intros t. unfold set_contents. cbn [contents].
    destruct (table_eq_dec t tbl) as [-> |]; [| reflexivity].
    rewrite <- (map_id (contents st tbl)) at 2.
    apply map_ext. intros r. now rewrite Hhit.
  - intros r. unfold insert_into.
    assert (Hchk : passes (policy_with_check st tbl r) = false).
    { pose proof (Hvis r) as Hv. unfold visible in Hv.
      destruct tbl; try discriminate; exact Hv. }
    now rewrite Hchk.
  - intros data. unfold createPatient, insert_into.
    assert (Hchk : passes (policy_with_check st patients data) = false).
    { apply (@visible_no_context st patients data Hctx eq_refl). }
    now rewrite Hchk.
  - intros _. reflexivity.
Qed.

Lemma no_context_behaviour_witness :
  no_context clinic /\ center_scoped patients = true /\
  getPatientsByCenterId "center-a" (Some clinic) = (Ok [], Some clinic) /\
  insert_into clinic patients (plain "p3" (Some "center-a"))
  = Throw (PgError row_security_violation).
Proof.
  split; [reflexivity |]. split; [reflexivity |].
  pose proof (@no_context_behaviour clinic patients eq_refl eq_refl)
    as (_ & Hget & _ & _ & Hins & _ & _).
  split; [apply Hget | apply Hins].
Defined.

(** C2 as stated fails.  On a fresh connection (no context),
    [getPatientsByCenterId] resolves to an empty list although center A has a
    patient, it resolves to an empty list when there is no database,
    [getDoctorsByCenterId] returns the doctor of center B, and a read of
    [users] returns the administrator's row: empty successes and unscoped
    reads, no error. *)
Lemma context_missing_counterexample :
  In P1 (contents clinic patients) /\
  validateRLSContext (Some clinic)
  = Throw (JsError
      "[RLS] Context not set. Call setRLSContext() before database operations.") /\
  getPatientsByCenterId "center-a" (Some clinic) = (Ok [], Some clinic) /\
  getPatientsByCenterId "center-a" None = (Ok [], None) /\
  getDoctorsByCenterId "center-b" (Some clinic) = (Ok [D2], Some clinic) /\
  query users everything (Some clinic) = (Ok [admin_row], Some clinic).
Proof. repeat split; try reflexivity. now left. Qed.

(** ** The privileged principal without a center *)

(** C8 does not hold of the code.  For a superadmin with no center, a read
    of a center-scoped table behind [requireAdmin] or [requireUser] never
    returns a row: where the engine takes [SET app.center_id = NULL] the
    session center is NULL and every policy filters every row; where it
    rejects the statement the middleware fails the request. *)
Theorem superadmin_without_center_reads_nothing (E : env) (st : pg)
  (u : principal) (tbl : table) (cond : row -> bool) :
  isSuperadmin u = true -> truthy (centerId u) = None ->
  center_scoped tbl = true ->
  requireAdmin E (Some u) (fun _ => query tbl cond) (Some st)
  = (if null_literal_accepted E
     then (Ok [], Some (set_center_id (set_user_id st (user_id u)) None))
     else (Throw (TRPCError INTERNAL_SERVER_ERROR
                    "Failed to initialize admin context"),
           Some (set_user_id st (user_id u)))) /\
  requireUser E (Some u) (fun _ => query tbl cond) (Some st)
  = (if null_literal_accepted E
     then (Ok [], Some (set_center_id (set_user_id st (user_id u)) None))
     else (Throw (TRPCError INTERNAL_SERVER_ERROR
                    "Failed to initialize secure context"),
           Some (set_user_id st (user_id u)))).
Proof.
  intros Hadmin Hc Htbl.
  assert (Hq : query tbl cond
                 (Some (set_center_id (set_user_id st (user_id u)) None))
               = (Ok [], Some (set_center_id (set_user_id st (user_id u)) None))).
  { apply query_no_context; [reflexivity | exact Htbl]. }
  unfold requireAdmin, requireUser. rewrite Hadmin. cbn [negb].
  rewrite (setRLSContext_null E st (user_id u) (truthy (centerId u)))
    by (rewrite truthy_idem; exact Hc).
  destruct (null_literal_accepted E); now rewrite ?Hq.
Qed.

Lemma superadmin_without_center_reads_nothing_witness :
  isSuperadmin root = true /\ truthy (centerId root) = None /\
  center_scoped patients = true /\
  In P1 (contents clinic patients) /\
  fst (requireAdmin E1 (Some root) (fun _ => query patients everything) (Some clinic))
  = Ok [] /\
  fst (requireAdmin E0 (Some root) (fun _ => query patients everything) (Some clinic))
  = Throw (TRPCError INTERNAL_SERVER_ERROR "Failed to initialize admin context").
Proof.
  split; [reflexivity |]. split; [reflexivity |]. split; [reflexivity |].
  split; [now left |].
  split.
  - rewrite (proj1 (@superadmin_without_center_reads_nothing E1 clinic root
                      patients everything eq_refl eq_refl eq_refl)).
    reflexivity.
  - rewrite (proj1 (@superadmin_without_center_reads_nothing E0 clinic root
                      patients everything eq_refl eq_refl eq_refl)).
    reflexivity.
Defined.

End RlsProperties.

(** ** Field encryption *)

Section PgpProperties.

Import Pgp.

Lemma trim_start_nil (s : js_string) :
  trim_start s = [] <-> forallb is_white_space s = true.
Proof.
  induction s as [| c rest IH]; cbn [trim_start forallb].
  - tauto.
  - destruct (is_white_space c); cbn [andb]; [exact IH |].
    split; discriminate.
Qed.

Lemma trim_start_last (s : js_string) (c : code_unit) :
  is_white_space c = false -> trim_start (s ++ [c]) <> [].
Proof.
  intros Hc. induction s as [| x rest IH]; cbn [trim_start app].
  - rewrite Hc. discriminate.
  - destruct (is_white_space x); [exact IH | discriminate].
Qed.

Lemma trim_start_head (s : js_string) :
  trim_start s = [] \/
  exists c rest, trim_start s = c :: rest /\ is_white_space c = false.
Proof.
  induction s as [| c rest IH]; cbn [trim_start].
  - now left.
  - destruct (is_white_space c) eqn:Hc; [exact IH |].
    right. now exists c, rest.
Qed.

(** A string is refused exactly when it consists of white space only. *)
Lemma blank_spec (s : js_string) : blank s = forallb is_white_space s.
Proof.
  unfold blank, trim.
  destruct (trim_start_head s) as [Hnil | (c & rest & Hs & Hc)].
  - rewrite Hnil. cbn [rev trim_start List.length Nat.eqb].
    rewrite orb_true_r. symmetry. now apply trim_start_nil.
  - assert (Hall : forallb is_white_space s = false).
    { destruct (forallb is_white_space s) eqn:Hf; [| reflexivity].
      apply trim_start_nil in Hf. congruence. }
    rewrite Hall, Hs. cbn [rev].
    assert (Hne : s <> []) by (intros ->; discriminate).
    destruct s as [| x s']; [contradiction |]. cbn [List.length Nat.eqb orb].
    pose proof (@trim_start_last (rev rest) c Hc) as Hlast.
    rewrite length_rev.
    destruct (trim_start (rev rest ++ [c])); [contradiction | reflexivity].
Qed.

Lemma units_of_bytes_of (s : js_string) : units_of (bytes_of s) = Some s.
Proof.
  induction s as [| [hi lo] rest IH]; cbn [bytes_of units_of].
  - reflexivity.
  - now rewrite IH.
Qed.

Lemma optional_absent (C : cipher) (database : option pg) (rnd : N) :
  encryptOptional C database None rnd = Ok None /\
  decryptOptional C database None = Ok None.
Proof. split; reflexivity. Qed.

(** An empty or blank optional field produces no envelope either. *)
Lemma encryptOptional_blank (C : cipher) (database : option pg)
  (s : js_string) (rnd : N) :
  blank s = true -> encryptOptional C database (Some s) rnd = Ok None.
Proof. intros Hb. unfold encryptOptional. now rewrite Hb. Qed.

(** Whatever the statement returns, reading it through [result.rows[0]]
    raises: [encrypt] has no successful outcome. *)
Lemma encrypt_throws (C : cipher) (d : pg) (s : js_string) (rnd : N) :
  blank s = false ->
  encrypt C (Some d) s rnd = Throw (JsErrorOf "Encryption failed: " TypeError).
Proof. intros Hs. unfold encrypt. now rewrite Hs. Qed.

Lemma encrypt_never_ok (C : cipher) (database : option pg) (s : js_string) (rnd : N) :
  is_ok (encrypt C database s rnd) = false.
Proof.
  destruct database as [d |]; [| reflexivity].
  unfold encrypt. now destruct (blank s).
Qed.

(** [decrypt] on an envelope that is not empty: the error of the engine
    when the cipher rejects it, the [TypeError] otherwise. *)
Lemma decrypt_throws (C : cipher) (d : pg) (c : buffer) :
  empty c = false ->
  decrypt C (Some d) c
  = Throw (JsErrorOf "Decryption failed: "
             (match encryption_key d with
              | Some k =>
                  match pgp_sym_decrypt C c k with
                  | Some _ => TypeError
                  | None => PgError external_routine_exception
                  end
              | None => TypeError
              end)).
Proof.
  intros Hc. unfold decrypt, decrypt_pgp_data, app_get_encryption_key.
  rewrite Hc. destruct (encryption_key d) as [k |]; [| reflexivity].
  now destruct (pgp_sym_decrypt C c k).
Qed.

Lemma decrypt_never_ok (C : cipher) (database : option pg) (c : buffer) :
  is_ok (decrypt C database c) = false.
Proof.
  destruct database as [d |]; [| reflexivity].
  destruct (empty c) eqn:Hc.
  - unfold decrypt. now rewrite Hc.
  - now rewrite (@decrypt_throws C d c Hc).
Qed.

Lemma encryptOptional_null (C : cipher) (database : option pg)
  (text : option js_string) (rnd : N) :
  encryptOptional C database text rnd = Ok None.
Proof.
  unfold encryptOptional. destruct text as [p |]; [| reflexivity].
  destruct (blank p); [reflexivity |].
  pose proof (encrypt_never_ok C database p rnd) as H.
  now destruct (encrypt C database p rnd).
Qed.

Lemma decryptOptional_null (C : cipher) (database : option pg)
  (envelope : option buffer) :
  decryptOptional C database envelope = Ok None.
Proof.
  unfold decryptOptional. destruct envelope as [c |]; [| reflexivity].
  destruct (empty c); [reflexivity |].
  pose proof (decrypt_never_ok C database c) as H.
  now destruct (decrypt C database c).
Qed.

(** C4 does not hold of the code.  [encrypt] reads the row it asked for
    through [result.rows[0]], which raises on the handle [getDb()] builds:
    for every cipher, database and string, [encrypt] has no successful
    outcome, so [decrypt(encrypt(s))] never gives [s] back, and
    [encryptOptional] resolves to [null] for every value; with the key
    configured, the round trip of the example given with [encrypt] rejects
    with "Encryption failed". *)
Theorem roundtrip_never_returns (C : cipher) (database : option pg)
  (s : js_string) (rnd : N) :
  is_ok (encrypt C database s rnd) = false /\
  is_ok (roundtrip C database s rnd) = false /\
  encryptOptional C database (Some s) rnd = Ok None /\
  roundtrip C (Some configured) (js "Notes confidentielles") rnd
  = Throw (JsErrorOf "Encryption failed: " TypeError).
Proof.
  pose proof (encrypt_never_ok C database s rnd) as Henc.
  split; [exact Henc |]. split; [| split].
  - unfold roundtrip. now destruct (encrypt C database s rnd).
  - apply encryptOptional_null.
  - unfold roundtrip. now rewrite (@encrypt_throws C configured (js "Notes confidentielles") rnd eq_refl).
Qed.

Lemma sealed_decrypt_encrypt (p : js_string) (k : string) (rnd : N) :
  pgp_sym_decrypt sealed (pgp_sym_encrypt sealed p k rnd) k = Some p.
Proof. cbn [sealed pgp_sym_decrypt pgp_sym_encrypt]. apply units_of_bytes_of. Qed.

(** C3 (as amended).  [decrypt] raises a "Decryption failed" error, which
    reaches its caller, both when the cipher rejects the envelope (malformed,
    or made under another key: the cause is the error of the engine) and
    when no key is configured (the statement returns NULL and the cause is
    the [TypeError] of the read of the result); there is no separate
    key-unavailable error.  The optional variants catch every failure:
    [decryptOptional] of such an envelope resolves to [null], and without a
    key [encrypt] raises "Encryption failed" while [encryptOptional]
    resolves to [null]. *)
Theorem decryption_failure_handling (C : cipher) (d : pg) (c : buffer) :
  empty c = false ->
  (forall k, encryption_key d = Some k -> pgp_sym_decrypt C c k = None) ->
  decrypt C (Some d) c
  = Throw (JsErrorOf "Decryption failed: "
             (match encryption_key d with
              | Some _ => PgError external_routine_exception
              | None => TypeError
              end)) /\
  decryptOptional C (Some d) (Some c) = Ok None /\
  (encryption_key d = None ->
   forall s rnd,
     blank s = false ->
     encrypt C (Some d) s rnd = Throw (JsErrorOf "Encryption failed: " TypeError) /\
     encryptOptional C (Some d) (Some s) rnd = Ok None).
Proof.
  intros Hc Hrej. split; [| split].
  - rewrite (@decrypt_throws C d c Hc).
    destruct (encryption_key d) as [k |]; [| reflexivity].
    now rewrite (Hrej k eq_refl).
  - apply decryptOptional_null.
  - intros _ s rnd Hs. split; [now apply encrypt_throws |].
    apply encryptOptional_null.
Qed.

Lemma decryption_failure_handling_witness :
  empty malformed = false /\
  (forall k, encryption_key configured = Some k ->
             pgp_sym_decrypt sealed malformed k = None) /\
  decrypt sealed (Some configured) malformed
  = Throw (JsErrorOf "Decryption failed: " (PgError external_routine_exception)) /\
  decryptOptional sealed (Some configured) (Some malformed) = Ok None.
Proof.
  split; [reflexivity |]. split; [reflexivity |].
  pose proof (@decryption_failure_handling sealed configured malformed
                eq_refl (fun k _ => eq_refl)) as (Hdec & Hopt & _).
  split; [exact Hdec | exact Hopt].
Defined.

(** C3 as stated fails on the optional path: for an envelope the cipher
    rejects, and for a good envelope when no key is configured,
    [decryptOptional] resolves to [null] instead of failing. *)
Lemma decryptOptional_null_counterexample :
  is_ok (decrypt sealed (Some configured) malformed) = false /\
  decryptOptional sealed (Some configured) (Some malformed) = Ok None /\
  is_ok (decrypt sealed (Some unconfigured) (x01 :: bytes_of (js "plan"))) = false /\
  decryptOptional sealed (Some unconfigured) (Some (x01 :: bytes_of (js "plan")))
  = Ok None.
Proof. repeat split; reflexivity. Qed.

End PgpProperties.

(** ** Password verification *)

Section AuthProperties.

Import Auth.

(** C10 (as amended).  With a database handle, [verifyPassword] returns
    [false] for an empty password whatever the digest, and for an empty
    digest whatever the password, without sending a statement; without a
    database handle it raises before it looks at its arguments. *)
Theorem verifyPassword_empty_material (pg : pgcrypto) (p d : string) :
  verifyPassword (Some pg) "" d = (Ok false, []) /\
  verifyPassword (Some pg) p "" = (Ok false, []) /\
  verifyPassword None p d = (Throw (JsError "[Auth] Database not available"), []).
Proof.
  split; [| split].
  - reflexivity.
  - unfold verifyPassword. cbn [String.eqb]. now rewrite orb_true_r.
  - reflexivity.
Qed.

(** Outside that case the statement is sent and the answer is [false]:
    the comparison made by the engine is read through [result.rows[0]],
    and the [catch] turns the [TypeError], like an error of the engine,
    into a mismatch. *)
Lemma verifyPassword_false (pg : pgcrypto) (p d : string) :
  p <> "" -> d <> "" ->
  verifyPassword (Some pg) p d = (Ok false, [select_crypt_matches d p]).
Proof.
  intros Hp Hd. unfold verifyPassword.
  apply String.eqb_neq in Hp, Hd. rewrite Hp, Hd. cbn [orb].
  now destruct (crypt pg p d).
Qed.

Lemma verifyPassword_never_true (database : option pgcrypto) (p d : string) :
  fst (verifyPassword database p d) <> Ok true.
Proof.
  destruct database as [pg |]; [| discriminate].
  unfold verifyPassword.
  destruct (String.eqb p "" || String.eqb d ""); [discriminate |].
  now destruct (crypt pg p d).
Qed.

(** C10 as stated fails: with no database handle the call raises, for an
    empty password as for an empty digest. *)
Lemma verifyPassword_raises_counterexample :
  fst (verifyPassword None "" "$2a$06$abcdefghijklmnopqrstuv")
  = Throw (JsError "[Auth] Database not available") /\
  fst (verifyPassword None "Admin123!" "")
  = Throw (JsError "[Auth] Database not available").
Proof. split; reflexivity. Qed.

End AuthProperties.

(** ** The audit trail *)

Section AuditProperties.

Import Audit.

Variable uuid_in : string -> bool.

Lemma log_audit_change_referenced (app_user_id : option string) (t : audited)
  (op : tg_op) (OLD NEW : option record) (d : db) :
  referenced d (acting_user uuid_in app_user_id) = true ->
  log_audit_change uuid_in app_user_id t op OLD NEW d
  = Ok {| rows := rows d;
          audit_logs := audit_logs d
                        ++ [entry_of (acting_user uuid_in app_user_id) t op (OLD, NEW)] |}.
Proof.
  unfold log_audit_change, insert_audit_log, referenced, acting_user, entry_of.
  cbn [user_id fst snd].
  destruct (match get_current_user_id uuid_in app_user_id with
            | Ok v => v
            | Throw _ => None
            end) as [u |]; [| reflexivity].
  now intros ->.
Qed.

Lemma log_audit_change_dangling (app_user_id : option string) (t : audited)
  (op : tg_op) (OLD NEW : option record) (d : db) :
  referenced d (acting_user uuid_in app_user_id) = false ->
  log_audit_change uuid_in app_user_id t op OLD NEW d
  = Throw (PgError foreign_key_violation).
Proof.
  unfold log_audit_change, insert_audit_log, referenced, acting_user.
  cbn [user_id].
  destruct (match get_current_user_id uuid_in app_user_id with
            | Ok v => v
            | Throw _ => None
            end) as [u |]; [| discriminate].
  now intros ->.
Qed.

Lemma fire_referenced (app_user_id : option string) (t : audited) (op : tg_op)
  (events : list (option record * option record)) :
  forall d,
    referenced d (acting_user uuid_in app_user_id) = true ->
    fire uuid_in app_user_id t op events d
    = Ok {| rows := rows d;
            audit_logs := audit_logs d
                          ++ map (entry_of (acting_user uuid_in app_user_id) t op)
                               events |}.
Proof.
  induction events as [| [OLD NEW] rest IH]; intros d Href; cbn [fire map].
  - rewrite app_nil_r. now destruct d.
  - rewrite (log_audit_change_referenced _ _ _ _ _ _ Href). cbn [bind].
    rewrite IH by exact Href. cbn [rows audit_logs].
    now rewrite <- app_assoc.
Qed.

Lemma fire_dangling (app_user_id : option string) (t : audited) (op : tg_op)
  (events : list (option record * option record)) (d : db) :
  events <> [] ->
  referenced d (acting_user uuid_in app_user_id) = false ->
  fire uuid_in app_user_id t op events d = Throw (PgError foreign_key_violation).
Proof.
  intros Hne Href. destruct events as [| [OLD NEW] rest]; [contradiction |].
  cbn [fire]. now rewrite (log_audit_change_dangling _ _ _ _ _ _ Href).
Qed.

(** The handler of the trigger covers one thing: a setting that is not a
    UUID is recorded as no user. *)
Lemma acting_user_invalid (v : string) :
  v <> "" -> uuid_in v = false -> acting_user uuid_in (Some v) = None.
Proof.
  intros Hv Hbad. unfold acting_user, get_current_user_id, Rls.NULLIF.
  apply String.eqb_neq in Hv. now rewrite Hv, Hbad.
Qed.

(** C9 (as amended).  The audit entry is written by a row trigger inside the
    statement it describes, and the two share one fate.  A statement that
    touches a row succeeds, with its write and one audit entry per touched
    row, when the acting user can be stored in the trail (no user, or a user
    that exists once the write is done); when the audit insert fails, the
    statement fails with that error and the write is not kept.  The only
    failure the trigger absorbs is an [app.user_id] that is not a UUID, which
    is recorded as no user. *)
Theorem audit_shares_fate (app_user_id : option string) (t : audited)
  (m : mutation) (d : db) :
  touched m (rows d t) <> [] ->
  (referenced (business_write t m d) (acting_user uuid_in app_user_id) = false ->
   execute uuid_in app_user_id t m d = Throw (PgError foreign_key_violation)) /\
  (referenced (business_write t m d) (acting_user uuid_in app_user_id) = true ->
   execute uuid_in app_user_id t m d
   = Ok {| rows := rows (business_write t m d);
           audit_logs :=
             audit_logs (business_write t m d)
             ++ map (entry_of (acting_user uuid_in app_user_id) t (op_of m))
                  (touched m (rows d t)) |}) /\
  (forall v, app_user_id = Some v -> v <> "" -> uuid_in v = false ->
             acting_user uuid_in app_user_id = None).
Proof.
  intros Hne. split; [| split].
  - intros Href. unfold execute. now apply fire_dangling.
  - intros Href. unfold execute. now apply fire_referenced.
  - intros v -> Hv Hbad. now apply acting_user_invalid.
Qed.

End AuditProperties.

Lemma audit_shares_fate_witness :
  Audit.touched (Audit.Insert Audit.new_patient)
    (Audit.rows Audit.office Audit.patients) <> [] /\
  Audit.execute Audit.canonical_uuid (Some Audit.u_gone) Audit.patients
    (Audit.Insert Audit.new_patient) Audit.office
  = Throw (PgError foreign_key_violation) /\
  Audit.execute Audit.canonical_uuid (Some Audit.u_alice) Audit.patients
    (Audit.Insert Audit.new_patient) Audit.office
  = Ok {| Audit.rows := Audit.rows
                          (Audit.business_write Audit.patients
                             (Audit.Insert Audit.new_patient) Audit.office);
          Audit.audit_logs :=
            [ {| Audit.table_name := "patients"; Audit.operation := "INSERT";
                 Audit.user_id := Some Audit.u_alice;
                 Audit.record_id := Some (Audit.id Audit.new_patient);
                 Audit.old_data := None;
                 Audit.new_data := Some Audit.new_patient |} ] |}.
Proof.
  assert (Hne : Audit.touched (Audit.Insert Audit.new_patient)
                  (Audit.rows Audit.office Audit.patients) <> [])
    by discriminate.
  split; [exact Hne |]. split.
  - apply (proj1 (@audit_shares_fate Audit.canonical_uuid (Some Audit.u_gone)
                    Audit.patients (Audit.Insert Audit.new_patient)
                    Audit.office Hne)).
    reflexivity.
  - apply (proj1 (proj2 (@audit_shares_fate Audit.canonical_uuid
                           (Some Audit.u_alice) Audit.patients
                           (Audit.Insert Audit.new_patient) Audit.office Hne))).
    reflexivity.
Defined.

(** C9 as stated fails: when the audit insert fails the statement fails and
    the business write is lost.  On a connection whose acting user no longer
    exists, inserting a patient raises; and a user deleting their own row
    raises, because the entry would reference the row just deleted. *)
Lemma audit_failure_counterexample :
  Audit.execute Audit.canonical_uuid (Some Audit.u_gone) Audit.patients
    (Audit.Insert Audit.new_patient) Audit.office
  = Throw (PgError foreign_key_violation) /\
  Audit.execute Audit.canonical_uuid (Some Audit.u_alice) Audit.users
    (Audit.Delete Audit.u_alice) Audit.office
  = Throw (PgError foreign_key_violation) /\
  Audit.rows (Audit.business_write Audit.patients
                (Audit.Insert Audit.new_patient) Audit.office) Audit.patients
  = [Audit.new_patient].
Proof. repeat split; reflexivity. Qed.

(** ** Password hashing, strength and generation *)

Section AuthServiceProperties.

Import Auth AuthService.

(** X1.  [validatePasswordStrength] accepts a password exactly when it has
    at least 8 characters, an uppercase letter, a lowercase letter, a digit
    and a special character; and it reports every violated rule, not only
    the first: each message is in [errors] exactly when its rule is
    broken. *)
Theorem validatePasswordStrength_spec (password : string) :
  let v := validatePasswordStrength password in
  (isValid v = true <->
   (8 <= String.length password)%nat /\ test is_upper password = true /\
   test is_lower password = true /\ test is_digit password = true /\
   test is_special password = true) /\
  (In "Password must be at least 8 characters long" (errors v)
   <-> (String.length password < 8)%nat) /\
  (In "Password must contain at least one uppercase letter" (errors v)
   <-> test is_upper password = false) /\
  (In "Password must contain at least one lowercase letter" (errors v)
   <-> test is_lower password = false) /\
  (In "Password must contain at least one digit" (errors v)
   <-> test is_digit password = false) /\
  (In "Password must contain at least one special character" (errors v)
   <-> test is_special password = false).
Proof.
  cbv zeta. unfold validatePasswordStrength. cbn [isValid errors].
  destruct (Nat.ltb_spec (String.length password) 8) as [Hlen | Hlen];
    destruct (test is_upper password);
    destruct (test is_lower password);
    destruct (test is_digit password);
    destruct (test is_special password);
    cbn [negb app List.length Nat.eqb In];
    repeat split; intros;
    repeat match goal with
      | H : _ /\ _ |- _ => destruct H
      | H : _ \/ _ |- _ => destruct H
      | H : False |- _ => contradiction
      end;
    try discriminate; try lia; try reflexivity; auto 10.
Qed.

Example validatePasswordStrength_weak :
  validatePasswordStrength "weak"
  = {| isValid := false;
       errors := ["Password must be at least 8 characters long";
                  "Password must contain at least one uppercase letter";
                  "Password must contain at least one digit";
                  "Password must contain at least one special character"] |} /\
  isValid (validatePasswordStrength "Strong123!") = true.
Proof. split; reflexivity. Qed.

Lemma isValid_length (password : string) :
  isValid (validatePasswordStrength password) = true ->
  (8 <= String.length password)%nat.
Proof.
  unfold validatePasswordStrength. cbn [isValid].
  destruct (Nat.ltb_spec (String.length password) 8) as [Hlen | Hlen];
    [discriminate | intros _; exact Hlen].
Qed.

Lemma hashPassword_short (pg : pgcrypto) (p salt : string) :
  (String.length p < 8)%nat ->
  hashPassword (Some pg) p salt
  = (Throw (JsError "[Auth] Password must be at least 8 characters long"), []).
Proof.
  intros Hlen. unfold hashPassword.
  apply Nat.ltb_lt in Hlen. rewrite Hlen. now rewrite orb_true_r.
Qed.

Lemma hashPassword_long (pg : pgcrypto) (p salt : string) :
  (8 <= String.length p)%nat ->
  hashPassword (Some pg) p salt
  = (Throw (JsErrorOf "Password hashing failed: "
              (match crypt pg p salt with
               | Ok _ => TypeError
               | Throw e => e
               end)), [select_crypt_gen_salt p]).
Proof.
  intros Hlen. unfold hashPassword.
  assert (Hne : String.eqb p "" = false).
  { destruct p; [cbn in Hlen; lia | reflexivity]. }
  apply Nat.ltb_ge in Hlen. rewrite Hne, Hlen. cbn [orb].
  now destruct (crypt pg p salt).
Qed.

(** X2.  [hashPassword] refuses a password of fewer than 8 characters
    before anything is sent to the database.  A password that
    [validatePasswordStrength] accepts gets past that check and the
    statement is sent, but no digest comes back: the call rejects with
    "Password hashing failed", the cause being the error of the engine when
    [crypt] raises and otherwise the [TypeError] of the read of the
    result.  So [hashPassword] never resolves. *)
Theorem hashPassword_length_guard (pg : pgcrypto) (p salt : string) :
  ((String.length p < 8)%nat ->
   hashPassword (Some pg) p salt
   = (Throw (JsError "[Auth] Password must be at least 8 characters long"), [])) /\
  (isValid (validatePasswordStrength p) = true ->
   hashPassword (Some pg) p salt
   = (Throw (JsErrorOf "Password hashing failed: "
               (match crypt pg p salt with
                | Ok _ => TypeError
                | Throw e => e
                end)), [select_crypt_gen_salt p])) /\
  (forall database, is_ok (fst (hashPassword database p salt)) = false).
Proof.
  split; [| split].
  - apply hashPassword_short.
  - intros Hv. apply hashPassword_long.
    exact (isValid_length p Hv).
  - intros [pg' |]; [| reflexivity].
    destruct (Nat.ltb_spec (String.length p) 8) as [Hlen | Hlen].
    + now rewrite (@hashPassword_short pg' p salt Hlen).
    + now rewrite (@hashPassword_long pg' p salt Hlen).
Qed.

Lemma hashPassword_length_guard_witness :
  (String.length "short" < 8)%nat /\
  isValid (validatePasswordStrength "Strong123!") = true /\
  hashPassword (Some toy_crypt) "short" "$2a$06$salt"
  = (Throw (JsError "[Auth] Password must be at least 8 characters long"), []) /\
  hashPassword (Some toy_crypt) "Strong123!" "$2a$06$salt"
  = (Throw (JsErrorOf "Password hashing failed: " TypeError),
     [select_crypt_gen_salt "Strong123!"]).
Proof.
  split; [cbn; lia |]. split; [reflexivity |].
  destruct (hashPassword_length_guard toy_crypt "short" "$2a$06$salt")
    as (Hshort & _ & _).
  destruct (hashPassword_length_guard toy_crypt "Strong123!" "$2a$06$salt")
    as (_ & Hlong & _).
  split.
  - apply Hshort. cbn; lia.
  - rewrite (Hlong eq_refl). reflexivity.
Defined.

(** X3.  [verifyPassword] never answers [true].  With a database it
    resolves to [false] for every password and every digest, the right
    password included: unless one of the two is empty the comparison is
    sent to the engine, but its result is read through [result.rows[0]]
    and the [catch] answers [false]. *)
Theorem verifyPassword_always_false (pg : pgcrypto) (p d : string) :
  verifyPassword (Some pg) p d
  = (Ok false,
     if String.eqb p "" || String.eqb d "" then []
     else [select_crypt_matches d p]) /\
  (forall database, fst (verifyPassword database p d) <> Ok true).
Proof.
  split.
  - destruct (String.eqb_spec p "") as [-> | Hp]; [reflexivity |].
    destruct (String.eqb_spec d "") as [-> | Hd].
    + unfold verifyPassword. cbn [String.eqb]. now rewrite orb_true_r.
    + cbn [orb]. now apply verifyPassword_false.
  - intros database. apply verifyPassword_never_true.
Qed.

Example verifyPassword_right_password :
  crypt toy_crypt "Admin123!" "$2a$Admin123!" = Ok "$2a$Admin123!" /\
  verifyPassword (Some toy_crypt) "Admin123!" "$2a$Admin123!"
  = (Ok false, [select_crypt_matches "$2a$Admin123!" "Admin123!"]).
Proof. split; reflexivity. Qed.

(** X4.  [rehashPassword] verifies first, and the verification never
    succeeds: with a database it resolves to [null] for every password and
    digest, and what it sent is at most the verification; no hashing
    statement is ever sent.  Without a database it rejects as
    [verifyPassword] does. *)
Theorem rehashPassword_returns_null (pg : pgcrypto) (p current salt : string) :
  fst (rehashPassword (Some pg) p current salt) = Ok None /\
  (forall s, In s (snd (rehashPassword (Some pg) p current salt)) ->
             exists v, s = verification v) /\
  rehashPassword None p current salt
  = (Throw (JsError "[Auth] Database not available"), []).
Proof.
  split; [| split; [| reflexivity]].
  - unfold rehashPassword.
    pose proof (verifyPassword_never_true (Some pg) p current) as Hnever.
    destruct (verifyPassword (Some pg) p current) as [[[|] | e] log] eqn:Hv;
      cbn [fst] in *; [now elim Hnever | reflexivity |].
    exfalso. revert Hv. unfold verifyPassword.
    destruct (String.eqb p "" || String.eqb current ""); [discriminate |].
    now destruct (crypt pg p current).
  - unfold rehashPassword.
    pose proof (verifyPassword_never_true (Some pg) p current) as Hnever.
    destruct (verifyPassword (Some pg) p current) as [[[|] | e] log];
      cbn [fst snd] in *; [now elim Hnever | |];
      intros s Hin; apply in_map_iff in Hin; destruct Hin as (v & <- & _);
      now exists v.
Qed.

Lemma length_string_of_list_ascii (l : list ascii) :
  String.length (string_of_list_ascii l) = List.length l.
Proof. induction l as [| a l IH]; cbn; [reflexivity | now rewrite IH]. Qed.

Lemma test_string_of_list_ascii (class : ascii -> bool) (l : list ascii) :
  test class (string_of_list_ascii l) = existsb class l.
Proof. unfold test. now rewrite list_ascii_of_string_of_list_ascii. Qed.

Lemma existsb_Permutation (class : ascii -> bool) (l l' : list ascii) :
  Permutation l l' -> existsb class l = true -> existsb class l' = true.
Proof.
  intros Hp He. apply existsb_exists in He. destruct He as (a & Hin & Ha).
  apply existsb_exists. exists a. split; [| exact Ha].
  now apply (Permutation_in a Hp).
Qed.

(** A draw from an alphabet is a character of that alphabet. *)
Lemma pick_class (class : ascii -> bool) (s : string) (r : nat) :
  forallb class (list_ascii_of_string s) = true ->
  List.length (list_ascii_of_string s) = String.length s ->
  String.length s <> 0 ->
  class (pick s r) = true.
Proof.
  intros Hall Hlen Hne. unfold pick.
  rewrite forallb_forall in Hall. apply Hall. apply nth_In.
  rewrite Hlen. now apply Nat.mod_upper_bound.
Qed.

Lemma length_fill (rnd : nat -> nat) (count : nat) :
  forall from, List.length (fill rnd from count) = count.
Proof.
  induction count as [| count IH]; intros from; cbn [fill List.length];
    [reflexivity | now rewrite IH].
Qed.

(** X5.  [generateSecurePassword] refuses a length below 12; otherwise,
    whatever the random draws and whatever order the shuffle leaves the
    characters in, the password has the requested length and passes
    [validatePasswordStrength]. *)
Theorem generateSecurePassword_strong (length : nat) (rnd : nat -> nat)
  (shuffle : list ascii -> list ascii) :
  (forall l, Permutation l (shuffle l)) ->
  ((length < 12)%nat ->
   generateSecurePassword length rnd shuffle
   = Throw (JsError "Password length must be at least 12 characters")) /\
  ((12 <= length)%nat ->
   exists password,
     generateSecurePassword length rnd shuffle = Ok password /\
     String.length password = length /\
     validatePasswordStrength password = {| isValid := true; errors := [] |}).
Proof.
  intros Hperm. split.
  - intros Hlen. unfold generateSecurePassword.
    apply Nat.ltb_lt in Hlen. now rewrite Hlen.
  - intros Hlen. unfold generateSecurePassword.
    assert (Hge : (length <? 12)%nat = false) by (apply Nat.ltb_ge; lia).
    rewrite Hge. eexists. split; [reflexivity |].
    set (chars := drawn length rnd).
    assert (Hsize : List.length (shuffle chars) = length).
    { rewrite <- (Permutation_length (Hperm chars)). subst chars.
      unfold drawn. rewrite length_app, length_fill. cbn [List.length]. lia. }
    assert (Hhas : forall class a,
               In a chars -> class a = true ->
               test class (string_of_list_ascii (shuffle chars)) = true).
    { intros class a Hin Ha. rewrite test_string_of_list_ascii.
      apply (existsb_Permutation class (Hperm chars)).
      apply existsb_exists. now exists a. }
    assert (Hup : test is_upper (string_of_list_ascii (shuffle chars)) = true).
    { apply (Hhas is_upper (pick uppercase (rnd 0))).
      - subst chars. unfold drawn. cbn [app In]. auto.
      - apply pick_class; [reflexivity | reflexivity | discriminate]. }
    assert (Hlo : test is_lower (string_of_list_ascii (shuffle chars)) = true).
    { apply (Hhas is_lower (pick lowercase (rnd 1))).
      - subst chars. unfold drawn. cbn [app In]. auto.
      - apply pick_class; [reflexivity | reflexivity | discriminate]. }
    assert (Hdi : test is_digit (string_of_list_ascii (shuffle chars)) = true).
    { apply (Hhas is_digit (pick digits (rnd 2))).
      - subst chars. unfold drawn. cbn [app In]. auto.
      - apply pick_class; [reflexivity | reflexivity | discriminate]. }
    assert (Hsp : test is_special (string_of_list_ascii (shuffle chars)) = true).
    { apply (Hhas is_special (pick special (rnd 3))).
      - subst chars. unfold drawn. cbn [app In]. auto.
      - apply pick_class; [reflexivity | reflexivity | discriminate]. }
    split.
    + now rewrite length_string_of_list_ascii.
    + unfold validatePasswordStrength.
      rewrite Hup, Hlo, Hdi, Hsp, length_string_of_list_ascii, Hsize.
      assert (Hl8 : (length <? 8)%nat = false) by (apply Nat.ltb_ge; lia).
      now rewrite Hl8.
Qed.

Lemma generateSecurePassword_strong_witness :
  (forall l : list ascii, Permutation l (rev l)) /\
  (12 <= 16)%nat /\
  exists password,
    generateSecurePassword 16 (fun i => 7 * i + 3) (@rev ascii) = Ok password /\
    String.length password = 16 /\
    validatePasswordStrength password = {| isValid := true; errors := [] |}.
Proof.
  split; [apply Permutation_rev |]. split; [lia |].
  apply (proj2 (@generateSecurePassword_strong 16 (fun i => 7 * i + 3)
                  (@rev ascii) (@Permutation_rev ascii))).
  lia.
Defined.

End AuthServiceProperties.

(** ** Batches and the change of key *)

Section PGPServiceProperties.

Import Pgp PGPService.

Lemma encryptOptional_total (C : cipher) (database : option pg)
  (text : option js_string) (rnd : N) :
  exists c, encryptOptional C database text rnd = Ok c.
Proof.
  unfold encryptOptional. destruct text as [p |]; [| eauto].
  destruct (blank p); [eauto |].
  destruct (encrypt C database p rnd); eauto.
Qed.

Lemma decryptOptional_total (C : cipher) (database : option pg)
  (cipher : option buffer) :
  exists p, decryptOptional C database cipher = Ok p.
Proof.
  unfold decryptOptional. destruct cipher as [c |]; [| eauto].
  destruct (empty c); [eauto |].
  destruct (decrypt C database c); eauto.
Qed.

(** [Promise.all] of promises that all resolve. *)
Lemma all_resolved {A B : Type} (f : nat -> A -> result B) (l : list A) :
  forall from,
    (forall i x, exists y, f i x = Ok y) ->
    exists out,
      all (map_from f from l) = Ok out /\
      List.length out = List.length l /\
      forall i x, nth_error l i = Some x ->
                  exists y, nth_error out i = Some y /\ f (from + i) x = Ok y.
Proof.
  induction l as [| x rest IH]; intros from Hf; cbn [map_from all].
  - exists []. split; [reflexivity |]. split; [reflexivity |].
    intros i x Hi. destruct i; discriminate.
  - destruct (Hf from x) as [y Hy]. rewrite Hy.
    destruct (IH (S from) Hf) as (out & Hout & Hlen & Hnth).
    rewrite Hout. exists (y :: out).
    split; [reflexivity |]. split; [cbn [List.length]; now rewrite Hlen |].
    intros [| i] x' Hi; cbn [nth_error] in *.
    + injection Hi as <-. exists y. split; [reflexivity |].
      now rewrite Nat.add_0_r.
    + destruct (Hnth i x' Hi) as (y' & Hy' & Hfy).
      exists y'. split; [exact Hy' |].
      now rewrite Nat.add_succ_r.
Qed.

Lemma map_from_const {A B : Type} (f : A -> B) (l : list A) :
  forall from, map_from (fun _ x => f x) from l = map f l.
Proof.
  induction l as [| x rest IH]; intros from; cbn [map_from map];
    [reflexivity | now rewrite IH].
Qed.

(** X6.  The batch helpers never reject, whatever the fields and whatever
    the state of the database or of the key: they resolve to a list as long
    as their input whose [i]-th entry is what the optional variant gives
    for the [i]-th field alone, so a field that cannot be processed comes
    back as [null] beside the others, without a trace of the failure. *)
Theorem batches_never_reject (C : cipher) (database : option pg)
  (plaintexts : list (option js_string)) (ciphertexts : list (option buffer))
  (rnd : nat -> N) :
  (exists out,
      encryptBatch C database plaintexts rnd = Ok out /\
      List.length out = List.length plaintexts /\
      forall i text, nth_error plaintexts i = Some text ->
                     exists c, nth_error out i = Some c /\
                               encryptOptional C database text (rnd i) = Ok c) /\
  (exists out,
      decryptBatch C database ciphertexts = Ok out /\
      List.length out = List.length ciphertexts /\
      forall i cipher, nth_error ciphertexts i = Some cipher ->
                       exists p, nth_error out i = Some p /\
                                 decryptOptional C database cipher = Ok p).
Proof.
  split.
  - unfold encryptBatch.
    destruct (@all_resolved _ _
                (fun i text => encryptOptional C database text (rnd i))
                plaintexts 0) as (out & Hout & Hlen & Hnth).
    { intros i x. apply encryptOptional_total. }
    exists out. split; [exact Hout |]. split; [exact Hlen |]. exact Hnth.
  - unfold decryptBatch.
    rewrite <- (map_from_const (fun cipher => decryptOptional C database cipher)
                  ciphertexts 0).
    destruct (@all_resolved _ _
                (fun (_ : nat) cipher => decryptOptional C database cipher)
                ciphertexts 0) as (out & Hout & Hlen & Hnth).
    { intros i x. apply decryptOptional_total. }
    exists out. split; [exact Hout |]. split; [exact Hlen |]. exact Hnth.
Qed.

Lemma all_nulls {A B : Type} (l : list A) :
  all (map (fun _ => @Ok (option B) None) l) = Ok (map (fun _ => None) l).
Proof.
  induction l as [| x l IH]; cbn [map all]; [reflexivity | now rewrite IH].
Qed.

(** X7.  Every field of a batch comes back [null].  Whatever the cipher,
    the key and the fields, [encryptBatch] resolves to a list of [null]s
    as long as its input, and so does [decryptBatch], good envelopes
    included: each field goes through the optional variant, whose [catch]
    absorbs the [TypeError] of the read of the result. *)
Theorem batches_resolve_to_nulls (C : cipher) (database : option pg)
  (plaintexts : list (option js_string)) (ciphertexts : list (option buffer))
  (rnd : nat -> N) :
  encryptBatch C database plaintexts rnd = Ok (map (fun _ => None) plaintexts) /\
  decryptBatch C database ciphertexts = Ok (map (fun _ => None) ciphertexts).
Proof.
  split.
  - unfold encryptBatch.
    assert (Hmap : forall from,
               map_from (fun i text => encryptOptional C database text (rnd i))
                 from plaintexts
               = map (fun _ => Ok None) plaintexts).
    { induction plaintexts as [| text rest IH]; intros from;
        cbn [map_from map]; [reflexivity |].
      now rewrite encryptOptional_null, IH. }
    rewrite Hmap. apply all_nulls.
  - unfold decryptBatch.
    rewrite (map_ext (fun cipher => decryptOptional C database cipher)
               (fun _ => Ok None))
      by (intros c; apply decryptOptional_null).
    apply all_nulls.
Qed.

Example decryptBatch_mixed :
  pgp_sym_decrypt sealed (x01 :: bytes_of (js "notes")) "k-2025"
  = Some (js "notes") /\
  decryptBatch sealed (Some configured)
    [Some (x01 :: bytes_of (js "notes")); Some malformed; None]
  = Ok [None; None; None].
Proof. split; [apply units_of_bytes_of | reflexivity]. Qed.

(** X8.  [updateEncryptionKey] refuses a key of fewer than 32 characters and
    leaves the settings alone.  Otherwise it reports success; if the
    [encryption] row exists the key is replaced, and from then on an envelope
    that does not open under the new key makes [decrypt] raise and
    [decryptOptional] resolve to [null]; if the row does not exist, nothing
    is stored and no key is configured afterwards either. *)
Theorem updateEncryptionKey_effect (C : cipher) (s : settings) (newKey : string) :
  ((String.length newKey < 32)%nat ->
   updateEncryptionKey (Some s) newKey
   = (Throw (JsError "[PGP] Encryption key must be at least 32 characters long"),
      Some s)) /\
  ((32 <= String.length newKey)%nat ->
   exists s',
     updateEncryptionKey (Some s) newKey = (Ok tt, Some s') /\
     (encryption s = None -> encryption_key (pg_of s') = None) /\
     (encryption s <> None ->
      encryption_key (pg_of s') = Some newKey /\
      forall envelope,
        empty envelope = false ->
        pgp_sym_decrypt C envelope newKey = None ->
        decrypt C (Some (pg_of s')) envelope
        = Throw (JsErrorOf "Decryption failed: "
                   (PgError external_routine_exception)) /\
        decryptOptional C (Some (pg_of s')) (Some envelope) = Ok None)).
Proof.
  split.
  - intros Hlen. unfold updateEncryptionKey.
    apply Nat.ltb_lt in Hlen. now rewrite Hlen.
  - intros Hlen. unfold updateEncryptionKey.
    apply Nat.ltb_ge in Hlen. rewrite Hlen.
    eexists. split; [reflexivity |]. split.
    + intros Hrow. unfold pg_of. cbn [encryption]. now rewrite Hrow.
    + intros Hrow. destruct (encryption s) as [v |] eqn:Hv; [| contradiction].
      split; [reflexivity |].
      intros envelope Hne Hrej.
      split; [| apply decryptOptional_null].
      rewrite (@decrypt_throws C (pg_of {| encryption := Some (Some newKey) |})
                 envelope Hne).
      unfold pg_of. cbn [encryption encryption_key]. now rewrite Hrej.
Qed.

Lemma updateEncryptionKey_effect_witness :
  (32 <= String.length new_key)%nat /\
  exists s',
    updateEncryptionKey (Some installed) new_key = (Ok tt, Some s') /\
    encryption_key (pg_of s') = Some new_key /\
    decryptOptional keyed (Some (pg_of s'))
      (Some (pgp_sym_encrypt keyed (js "plan") old_key 0))
    = Ok None.
Proof.
  assert (Hlen : (32 <= String.length new_key)%nat) by (cbn; lia).
  split; [exact Hlen |].
  destruct (proj2 (updateEncryptionKey_effect keyed installed new_key) Hlen)
    as (s' & Hupd & _ & Hrow).
  exists s'. split; [exact Hupd |].
  destruct (Hrow ltac:(discriminate)) as (Hkey & Hold).
  split; [exact Hkey |].
  apply (Hold (pgp_sym_encrypt keyed (js "plan") old_key 0));
    reflexivity.
Defined.

End PGPServiceProperties.

(** ** Middlewares, context lifetime and confined writes *)

Section AccessProperties.

Import Rls Access.

Variable E : env.

Lemma requireUser_center {A : Type} (st : pg) (u : principal) (c : uuid)
  (next : principal -> M A) :
  centerId u = Some c -> c <> "" ->
  requireUser E (Some u) next (Some st) = next u (Some (under st (user_id u) c)).
Proof.
  intros Hc Hne. unfold requireUser.
  now rewrite Hc, (truthy_some Hne), (setRLSContext_center _ _ _ Hne).
Qed.


Lemma filter_idem {A : Type} (f : A -> bool) (l : list A) :
  filter f (filter f l) = filter f l.
Proof.
  induction l as [| x l IH]; cbn [filter]; [reflexivity |].
  destruct (f x) eqn:Hx; cbn [filter]; [now rewrite Hx, IH | exact IH].
Qed.

(** X10.  The context outlives the request that set it.  After a request of
    a principal of center [A], a read made on the same connection outside
    any middleware still returns the rows of [A]; and if the next request
    comes from a principal without a center on an engine that rejects
    [SET app.center_id = NULL], that request fails and leaves the connection
    marked with the new user but still scoped to [A]. *)
Theorem context_outlives_request (st : pg) (u : principal) (c : uuid)
  (tbl : table) (cond : row -> bool) :
  centerId u = Some c -> c <> "" ->
  exists st',
    snd (requireUser E (Some u) (fun _ => query tbl cond) (Some st)) = Some st' /\
    getPatientsByCenterId c (Some st')
    = (Ok (patients_of st c), Some st') /\
    (forall v (next : principal -> M unit),
        truthy (centerId v) = None -> null_literal_accepted E = false ->
        exists st'',
          requireUser E (Some v) next (Some st')
          = (Throw (TRPCError INTERNAL_SERVER_ERROR
                      "Failed to initialize secure context"), Some st'') /\
          app_user_id (sess st'') = Some (user_id v) /\
          get_user_center_id (sess st'') = Some c /\
          getPatientsByCenterId c (Some st'')
          = (Ok (patients_of st c), Some st'')).
Proof.
  intros Hc Hne. exists (under st (user_id u) c).
  assert (Hread : forall uid,
             select_from (under st uid c) patients (center_is c)
             = patients_of st c).
  { intros uid. unfold select_from, patients_of, under.
    cbn [contents set_center_id set_user_id].
    rewrite (filter_ext (visible (set_center_id (set_user_id st uid) (Some c)) patients)
               (owned_by st patients c))
      by (intros r; now apply visible_center_scoped).
    change (center_is c) with (owned_by st patients c).
    apply filter_idem. }
  split; [| split].
  - rewrite (@requireUser_center _ st u c _ Hc Hne). reflexivity.
  - unfold getPatientsByCenterId. now rewrite Hread.
  - intros v next Hv Hrej.
    exists (set_user_id (under st (user_id u) c) (user_id v)).
    split; [| split; [| split]].
    + unfold requireUser.
      rewrite (setRLSContext_null E (under st (user_id u) c) (user_id v)
                 (truthy (centerId v))) by (rewrite truthy_idem; exact Hv).
      now rewrite Hrej.
    + reflexivity.
    + cbn. apply String.eqb_neq in Hne. now rewrite Hne.
    + unfold getPatientsByCenterId.
      assert (Hsame : select_from
                        (set_user_id (under st (user_id u) c) (user_id v))
                        patients (center_is c)
                      = select_from (under st (user_id u) c) patients (center_is c))
        by reflexivity.
      now rewrite Hsame, Hread.
Qed.

Lemma check_under (st : pg) (uid : string) (c : uuid) (tbl : table) (r : row) :
  c <> "" -> center_scoped tbl = true ->
  passes (policy_with_check (under st uid c) tbl r) = owned_by st tbl c r.
Proof.
  intros Hc Htbl.
  rewrite <- (@visible_center_scoped st uid c tbl r Hc Htbl).
  unfold visible, under. destruct tbl; try discriminate; reflexivity.
Qed.

Lemma id_is_fresh (target : uuid) (g : row -> bool) (l : list row) :
  Forall (fun r => id r <> target) l -> filter (id_is target) (filter g l) = [].
Proof.
  induction 1 as [| r l Hr _ IH]; cbn [filter]; [reflexivity |].
  destruct (g r); cbn [filter]; [| exact IH].
  unfold id_is at 1. apply String.eqb_neq in Hr. now rewrite Hr.
Qed.

Lemma owned_by_patients (st : pg) (c : uuid) (r : row) :
  owned_by st patients c r = true <-> center_id r = Some c.
Proof. unfold owned_by, owner. apply holds_eq_some. Qed.

(** What the audit triggers of a statement leave behind. *)
Lemma fire_audit_inv (tbl : table) (op : tg_op)
  (events : list (option row * option row)) :
  forall st r,
    fire_audit tbl op events st = r ->
    match r with
    | Ok st' =>
        sess st' = sess st /\ contents st' = contents st /\
        exists added,
          audit_logs st' = audit_logs st ++ added /\
          List.length added = (if audited tbl then List.length events else 0) /\
          Forall (fun e => audit_table e = tbl /\ audit_operation e = op /\
                           audit_user_id e = get_current_user_id (sess st)) added
    | Throw e =>
        e = PgError foreign_key_violation /\ audited tbl = true /\
        events <> [] /\ referenced st (get_current_user_id (sess st)) = false
    end.
Proof.
  induction events as [| [OLD NEW] rest IH]; intros st r <-; cbn [fire_audit].
  - split; [reflexivity |]. split; [reflexivity |].
    exists []. rewrite app_nil_r. split; [reflexivity |].
    split; [now destruct (audited tbl) | constructor].
  - destruct (audited tbl) eqn:Haud.
    + unfold log_audit_change.
      destruct (referenced st (get_current_user_id (sess st))) eqn:Href;
        cbn [bind].
      * match goal with
        | |- context [fire_audit tbl op rest ?s1] =>
            specialize (IH s1 _ eq_refl);
            destruct (fire_audit tbl op rest s1) as [st' | e]
        end; cbn [sess contents audit_logs] in IH.
        -- destruct IH as (Hs & Hc & added & Hlog & Hlen & Hall).
           split; [exact Hs |]. split; [exact Hc |].
           eexists (_ :: added). rewrite Hlog, <- app_assoc. cbn [app].
           split; [reflexivity |].
           split; [cbn [List.length]; now rewrite Hlen |].
           constructor; [now repeat split | exact Hall].
        -- destruct IH as (He & _ & _ & Hdang).
           unfold referenced in Hdang, Href. cbn [contents] in Hdang.
           congruence.
      * split; [reflexivity |]. split; [reflexivity |].
        split; [discriminate | reflexivity].
    + specialize (IH st _ eq_refl).
      destruct (fire_audit tbl op rest st) as [st' | e].
      * exact IH.
      * destruct IH as (_ & Habs & _). discriminate.
Qed.

Lemma referenced_users (st st1 : pg) (usr : option uuid) :
  map id (contents st1 users) = map id (contents st users) ->
  referenced st1 usr = referenced st usr.
Proof.
  intros Hids. unfold referenced. destruct usr as [u |]; [| reflexivity].
  revert Hids. generalize (contents st users) as l2.
  induction (contents st1 users) as [| x l1 IH]; intros [| y l2] Hids;
    try discriminate; [reflexivity |].
  cbn [map] in Hids. injection Hids as Hxy Hrest.
  cbn [existsb]. now rewrite Hxy, (IH l2 Hrest).
Qed.

(** X11.  On a connection whose context is the center [A], [createPatient]
    writes inside [A] only.  A patient carrying another center, or none, is
    refused by the policy.  A patient of [A] is refused when its key is
    taken, and when the user of the context is no row of [users] (the audit
    trigger cannot store it); in each refusal nothing changes.  Otherwise
    the patient is appended, one audit entry is written, and
    [getPatientById] then returns the patient. *)
Theorem createPatient_confined (st : pg) (uid : string) (c : uuid) (data : row) :
  c <> "" ->
  (center_id data <> Some c ->
   createPatient data (Some (under st uid c))
   = (Throw (PgError row_security_violation), Some (under st uid c))) /\
  (center_id data = Some c ->
   ~ Forall (fun r => id r <> id data) (contents st patients) ->
   createPatient data (Some (under st uid c))
   = (Throw (PgError unique_violation), Some (under st uid c))) /\
  (center_id data = Some c ->
   Forall (fun r => id r <> id data) (contents st patients) ->
   referenced st (acting uid) = false ->
   createPatient data (Some (under st uid c))
   = (Throw (PgError foreign_key_violation), Some (under st uid c))) /\
  (center_id data = Some c ->
   Forall (fun r => id r <> id data) (contents st patients) ->
   referenced st (acting uid) = true ->
   exists st',
     createPatient data (Some (under st uid c)) = (Ok (Some data), Some st') /\
     contents st' patients = contents st patients ++ [data] /\
     (forall t, t <> patients -> contents st' t = contents st t) /\
     (exists e, audit_logs st' = audit_logs st ++ [e] /\
                audit_table e = patients /\ audit_operation e = INSERT /\
                audit_user_id e = acting uid /\ audit_new e = Some data) /\
     getPatientById (id data) (Some st') = (Ok (Some data), Some st')).
Proof.
  intros Hne.
  assert (Hchk : passes (policy_with_check (under st uid c) patients data)
                 = owned_by st patients c data)
    by exact (@check_under st uid c patients data Hne eq_refl).
  assert (Hkey : Forall (fun r => id r <> id data) (contents st patients) <->
                 existsb (fun x => String.eqb (id x) (id data))
                   (contents st patients) = false).
  { rewrite Forall_forall. split.
    - intros Hall. destruct (existsb _ (contents st patients)) eqn:Hex;
        [| reflexivity].
      apply existsb_exists in Hex. destruct Hex as (x & Hx & Heq).
      apply String.eqb_eq in Heq. now elim (Hall x Hx).
    - intros Hex x Hx Heq.
      assert (Hyes : existsb (fun x => String.eqb (id x) (id data))
                       (contents st patients) = true).
      { apply existsb_exists. exists x. split; [exact Hx |].
        now apply String.eqb_eq. }
      congruence. }
  unfold createPatient, insert_into. rewrite Hchk.
  change (contents (under st uid c) patients) with (contents st patients).
  split; [| split; [| split]].
  - intros Hdata.
    destruct (owned_by st patients c data) eqn:Ho; [| reflexivity].
    apply owned_by_patients in Ho. contradiction.
  - intros Hdata Hdup.
    rewrite (proj2 (owned_by_patients st c data) Hdata).
    destruct (existsb (fun x => String.eqb (id x) (id data))
                (contents st patients)) eqn:Hex; [reflexivity |].
    elim Hdup. now apply Hkey.
  - intros Hdata Hfresh Hdang.
    rewrite (proj2 (owned_by_patients st c data) Hdata).
    rewrite (proj1 Hkey Hfresh).
    cbn [fire_audit audited]. unfold log_audit_change.
    assert (Href : referenced
                     (set_contents (under st uid c) patients
                        (contents st patients ++ [data]))
                     (get_current_user_id
                        (sess (set_contents (under st uid c) patients
                                 (contents st patients ++ [data]))))
                   = false) by exact Hdang.
    now rewrite Href.
  - intros Hdata Hfresh Href0.
    assert (Hown : owned_by st patients c data = true)
      by now apply owned_by_patients.
    rewrite Hown, (proj1 Hkey Hfresh).
    cbn [fire_audit audited]. unfold log_audit_change.
    assert (Href : referenced
                     (set_contents (under st uid c) patients
                        (contents st patients ++ [data]))
                     (get_current_user_id
                        (sess (set_contents (under st uid c) patients
                                 (contents st patients ++ [data]))))
                   = true) by exact Href0.
    rewrite Href. cbn [bind].
    eexists. split; [reflexivity |].
    cbn [contents set_contents audit_logs].
    split; [| split; [| split]].
    + destruct (table_eq_dec patients patients) as [_ | Hn]; [| now elim Hn].
      reflexivity.
    + intros t Ht.
      destruct (table_eq_dec t patients) as [-> | _]; [now elim Ht | reflexivity].
    + eexists. split; [reflexivity |]. now repeat split.
    + unfold getPatientById, get_by_id, select_from.
      cbn [contents set_contents].
      destruct (table_eq_dec patients patients) as [_ | Hn]; [| now elim Hn].
      rewrite (filter_ext
                 (visible _ patients) (owned_by st patients c))
        by (intros r;
            apply (@visible_center_scoped st uid c patients r Hne eq_refl)).
      rewrite !filter_app. cbn [filter]. rewrite Hown. cbn [filter].
      unfold id_is at 2. rewrite String.eqb_refl.
      now rewrite (@id_is_fresh (id data) (owned_by st patients c) _ Hfresh).
Qed.

Lemma update_reach (vis chk own cond : row -> bool) (set : row -> row)
  (l : list row) :
  (forall r, vis r = own r) -> (forall r, chk r = own r) ->
  (forallb chk (map set (filter (fun r => vis r && cond r) l)) = true ->
   Forall2 (fun r r' => if own r then own r' = true else r' = r) l
     (map (fun r => if vis r && cond r then set r else r) l)) /\
  (forallb chk (map set (filter (fun r => vis r && cond r) l)) = false <->
   exists r, In r (filter own l) /\ cond r = true /\ own (set r) = false).
Proof.
  intros Hvis Hchk. induction l as [| r l [IH1 IH2]]; cbn [map filter forallb].
  - split; [constructor |]. split; [discriminate | now intros (r & [] & _)].
  - rewrite Hvis. destruct (own r) eqn:Hown; cbn [andb].
    + destruct (cond r) eqn:Hcond; cbn [map forallb].
      * rewrite Hchk. destruct (own (set r)) eqn:Hset; cbn [andb].
        -- split.
           ++ intros H. constructor; [now rewrite Hown | now apply IH1].
           ++ rewrite IH2. split.
              ** intros (x & Hin & Hx). exists x. split; [now right | exact Hx].
              ** intros (x & [<- | Hin] & Hc & Hs); [congruence |].
                 exists x. now repeat split.
        -- split; [discriminate |]. split; [| reflexivity].
           intros _. exists r. split; [now left | now split].
      * split.
        -- intros H. constructor; [now rewrite Hown | now apply IH1].
        -- rewrite IH2. split.
           ++ intros (x & Hin & Hx). exists x. split; [now right | exact Hx].
           ++ intros (x & [<- | Hin] & Hc & Hs); [congruence |].
              exists x. now repeat split.
    + split.
      * intros H. constructor; [now rewrite Hown | now apply IH1].
      * exact IH2.
Qed.

Lemma Forall2_same {A : Type} (R : A -> A -> Prop) (l : list A) :
  (forall x, R x x) -> Forall2 R l l.
Proof. intros HR. induction l; constructor; auto. Qed.

(** X12.  On a connection whose context is the center [A], [updatePatient]
    stays inside [A]: whatever the assignment and whatever the outcome, a
    patient of another center is left as it was, a patient of [A] is still
    a patient of [A] afterwards, no table other than [patients] changes,
    and the audit trail only grows, by entries about updates of
    [patients].  The update is refused with a row-security violation
    exactly when it reaches a patient of [A] whose new row would carry
    another center, and an update that is refused, for this or for another
    reason, changes nothing. *)
Theorem updatePatient_confined (st : pg) (uid : string) (c target : uuid)
  (data : row -> row) :
  c <> "" ->
  exists res st',
    updatePatient target data (Some (under st uid c)) = (res, Some st') /\
    Forall2 (fun r r' => if owned_by st patients c r
                         then center_id r' = Some c else r' = r)
      (contents st patients) (contents st' patients) /\
    (forall t, t <> patients -> contents st' t = contents st t) /\
    (exists added,
        audit_logs st' = audit_logs st ++ added /\
        Forall (fun e => audit_table e = patients /\ audit_operation e = UPDATE)
          added) /\
    (res = Throw (PgError row_security_violation) <->
     exists r, In r (patients_of st c) /\ id r = target /\
               center_id (data r) <> Some c) /\
    (is_ok res = false -> st' = under st uid c).
Proof.
  intros Hne. set (cx := under st uid c).
  destruct (@update_reach (visible cx patients)
              (fun r => passes (policy_with_check cx patients r))
              (owned_by st patients c) (id_is target) data (contents st patients))
    as [Hok Hko].
  { intros r. apply (@visible_center_scoped st uid c patients r Hne eq_refl). }
  { intros r. apply (@check_under st uid c patients r Hne eq_refl). }
  assert (Hwhy : (exists r, In r (filter (owned_by st patients c) (contents st patients)) /\
                            id_is target r = true /\
                            owned_by st patients c (data r) = false)
                 <-> exists r, In r (patients_of st c) /\ id r = target /\
                               center_id (data r) <> Some c).
  { split; intros (r & Hin & Hid & Hout); exists r; (split; [exact Hin |]).
    - split; [now apply String.eqb_eq |].
      intros Habs. apply (proj2 (@owned_by_patients st c (data r))) in Habs.
      congruence.
    - split; [now apply String.eqb_eq |].
      destruct (owned_by st patients c (data r)) eqn:Ho; [| reflexivity].
      apply owned_by_patients in Ho. contradiction. }
  assert (Hsame : Forall2 (fun r r' => if owned_by st patients c r
                                       then center_id r' = Some c else r' = r)
                    (contents st patients) (contents cx patients)).
  { apply Forall2_same. intros r.
    destruct (owned_by st patients c r) eqn:Ho; [| reflexivity].
    exact (proj1 (@owned_by_patients st c r) Ho). }
  assert (Hnone : exists added,
             audit_logs cx = audit_logs st ++ added /\
             Forall (fun e => audit_table e = patients /\ audit_operation e = UPDATE)
               added).
  { exists []. now rewrite app_nil_r. }
  unfold updatePatient, update_by_id, update_set. cbv zeta.
  change (contents cx patients) with (contents st patients).
  destruct (forallb (fun r => passes (policy_with_check cx patients r))
              (map data
                 (filter (fun r => visible cx patients r && id_is target r)
                    (contents st patients)))) eqn:Hall.
  - assert (Hnot : ~ exists r, In r (patients_of st c) /\ id r = target /\
                               center_id (data r) <> Some c).
    { intros H. apply Hwhy, Hko in H. discriminate. }
    destruct (forallb _ (filter _ (contents st patients))) eqn:Hpk.
    + match goal with
      | |- context [fire_audit patients UPDATE ?ev ?s1] =>
          pose proof (@fire_audit_inv patients UPDATE ev s1 _ eq_refl) as Hfire;
          destruct (fire_audit patients UPDATE ev s1) as [st2 | e]
      end; cbn [bind].
      * destruct Hfire as (_ & Hc & added & Hlog & _ & Hadded).
        eexists _, st2. split; [reflexivity |].
        split; [| split; [| split; [| split]]].
        -- rewrite Hc. cbn [contents set_contents].
           destruct (table_eq_dec patients patients) as [_ | Hn]; [| now elim Hn].
           eapply Forall2_impl; [| exact (Hok eq_refl)].
           intros r r'. cbv beta. destruct (owned_by st patients c r); [| tauto].
           exact (proj1 (@owned_by_patients st c r')).
        -- intros t Ht. rewrite Hc. cbn [contents set_contents].
           destruct (table_eq_dec t patients) as [-> | _];
             [now elim Ht | reflexivity].
        -- exists added. split; [exact Hlog |].
           eapply Forall_impl; [| exact Hadded]. cbv beta. tauto.
        -- split; [discriminate | intros H; now elim Hnot].
        -- discriminate.
      * destruct Hfire as (-> & _).
        exists (Throw (PgError foreign_key_violation)), cx.
        split; [reflexivity |]. split; [exact Hsame |].
        split; [reflexivity |]. split; [exact Hnone |].
        split; [| reflexivity].
        split; [discriminate | intros H; now elim Hnot].
    + exists (Throw (PgError unique_violation)), cx.
      split; [reflexivity |]. split; [exact Hsame |].
      split; [reflexivity |]. split; [exact Hnone |].
      split; [| reflexivity].
      split; [discriminate | intros H; now elim Hnot].
  - exists (Throw (PgError row_security_violation)), cx.
    split; [reflexivity |]. split; [exact Hsame |].
    split; [reflexivity |]. split; [exact Hnone |].
    split; [| reflexivity].
    split; [| reflexivity]. intros _. apply Hwhy, Hko. reflexivity.
Qed.

Lemma filter_only {A : Type} (f : A -> bool) (x : A) (l : list A) :
  In x l -> f x = true -> (forall y, In y l -> f y = true -> y = x) ->
  exists n, filter f l = x :: repeat x n.
Proof.
  intros Hin Hx Hall.
  assert (Hrep : forall l', (forall y, In y l' -> y = x) ->
                            l' = repeat x (List.length l')).
  { induction l' as [| y l' IH]; intros Hl; [reflexivity |].
    cbn [List.length repeat]. f_equal; [apply Hl; now left |].
    apply IH. intros z Hz. apply Hl. now right. }
  assert (Hf : filter f l = repeat x (List.length (filter f l))).
  { apply Hrep. intros y Hy. apply filter_In in Hy. now apply Hall. }
  assert (Hmem : In x (filter f l)) by (apply filter_In; now split).
  destruct (filter f l) as [| y rest]; [contradiction |].
  cbn [List.length repeat] in Hf. exists (List.length rest).
  exact Hf.
Qed.

Lemma forallb_repeat {A : Type} (f : A -> bool) (x : A) (n : nat) :
  f x = true -> forallb f (repeat x n) = true.
Proof.
  intros Hx. induction n as [| n IH]; cbn [repeat forallb]; [reflexivity |].
  now rewrite Hx.
Qed.

(** X13.  The policy of [users] shows every superadmin row but checks only
    the center of the row written.  So, on a connection whose context is
    the center [A] and whose user can be stored in the audit trail,
    [updateUser] on a superadmin account of any center (its key being
    unique) succeeds as soon as the assignment keeps the key and puts the
    row in [A]; the account then belongs to [A].  An assignment that leaves
    it outside [A] is refused with a row-security violation and changes
    nothing. *)
Theorem updateUser_superadmin_row (st : pg) (uid : string) (c target : uuid)
  (r : row) (data : row -> row) :
  c <> "" -> In r (contents st users) -> id r = target ->
  is_superadmin r = Some true ->
  (forall r', In r' (contents st users) -> id r' = target -> r' = r) ->
  (center_id (data r) = Some c -> id (data r) = id r ->
   referenced st (acting uid) = true ->
   exists st',
     updateUser target data (Some (under st uid c))
     = (Ok (Some (data r)), Some st') /\
     In (data r) (contents st' users) /\
     getUserById (id (data r)) (Some st') <> (Ok None, Some st')) /\
  (center_id (data r) <> Some c ->
   updateUser target data (Some (under st uid c))
   = (Throw (PgError row_security_violation), Some (under st uid c))).
Proof.
  intros Hne Hin Hid Hsuper Huniq. set (cx := under st uid c).
  assert (Hmine : get_user_center_id (sess cx) = Some c).
  { unfold cx, under, get_user_center_id, NULLIF.
    cbn [sess set_center_id set_user_id app_center_id].
    apply String.eqb_neq in Hne. now rewrite Hne. }
  assert (Hchk : forall x, passes (policy_with_check cx users x) = true
                           <-> center_id x = Some c).
  { intros x. unfold policy_with_check, passes. rewrite Hmine.
    apply holds_eq_some. }
  assert (Hsee : forall s x, is_superadmin x = Some true ->
                             visible s users x = true).
  { intros s x Hx. unfold visible, policy_using, passes, is_true.
    now rewrite Hx. }
  assert (Hhit : visible cx users r && id_is target r = true).
  { rewrite (Hsee cx r Hsuper). unfold id_is. now apply String.eqb_eq. }
  destruct (@filter_only _ (fun x => visible cx users x && id_is target x) r
              (contents st users) Hin Hhit) as [n Hn].
  { intros y Hy Hh. apply andb_prop in Hh. destruct Hh as [_ Hy'].
    apply Huniq; [exact Hy | now apply String.eqb_eq]. }
  unfold updateUser, update_by_id, update_set. cbv zeta.
  change (contents cx users) with (contents st users).
  rewrite Hn. cbn [map forallb]. rewrite !map_repeat. split.
  - intros Hin_c Hkeep Href0.
    pose proof (proj2 (Hchk (data r)) Hin_c) as Hpass. rewrite Hpass.
    cbn [andb].
    rewrite (@forallb_repeat _ (fun x => passes (policy_with_check cx users x))
               (data r) n Hpass).
    assert (Hk : String.eqb (id (data r)) (id r) = true)
      by now apply String.eqb_eq.
    rewrite Hk. cbn [orb andb].
    rewrite forallb_repeat by (now rewrite Hk).
    set (after := map (fun x => if visible cx users x && id_is target x
                                then data x else x) (contents st users)).
    assert (Hids : map id after = map id (contents st users)).
    { unfold after. rewrite map_map. apply map_ext_in. intros x Hx.
      destruct (visible cx users x && id_is target x) eqn:Hx_hit;
        [| reflexivity].
      apply andb_prop in Hx_hit. destruct Hx_hit as [_ Hxid].
      apply String.eqb_eq in Hxid. rewrite (Huniq x Hx Hxid). exact Hkeep. }
    assert (Href : referenced (set_contents cx users after)
                     (get_current_user_id (sess (set_contents cx users after)))
                   = true).
    { rewrite <- Href0. apply referenced_users. cbn [contents set_contents].
      destruct (table_eq_dec users users) as [_ | Hx]; [| now elim Hx].
      exact Hids. }
    match goal with
    | |- context [fire_audit users UPDATE ?ev ?s1] =>
        pose proof (@fire_audit_inv users UPDATE ev s1 _ eq_refl) as Hfire;
        destruct (fire_audit users UPDATE ev s1) as [st2 | e]
    end; cbn [bind].
    2:{ destruct Hfire as (_ & _ & _ & Hdang). congruence. }
    destruct Hfire as (Hs2 & Hc2 & _).
    exists st2. split; [reflexivity |].
    assert (Hthere : In (data r) (contents st2 users)).
    { rewrite Hc2. cbn [contents set_contents].
      destruct (table_eq_dec users users) as [_ | Hx]; [| now elim Hx].
      apply in_map_iff. exists r. split; [now rewrite Hhit | exact Hin]. }
    split; [exact Hthere |].
    unfold getUserById, get_by_id, select_from. intros Habs.
    assert (Hsel : In (data r)
                     (filter (id_is (id (data r)))
                        (filter (visible st2 users) (contents st2 users)))).
    { apply filter_In. split; [| apply String.eqb_refl].
      apply filter_In. split; [exact Hthere |].
      unfold visible, policy_using, passes, get_user_center_id.
      rewrite Hs2. cbn [sess set_contents].
      fold (get_user_center_id (sess cx)). rewrite Hmine, Hin_c. cbn.
      rewrite String.eqb_refl.
      now destruct (is_true (is_superadmin (data r))) as [[|] |]. }
    destruct (filter (id_is (id (data r))) _) as [| y rest];
      [contradiction | discriminate].
  - intros Hout.
    destruct (passes (policy_with_check cx users (data r))) eqn:Hp.
    + apply Hchk in Hp. contradiction.
    + reflexivity.
Qed.


(** X14.  [testRLSIsolation] never gives its report.  On a connection, once
    the context of the first user is set, the count of its patients is
    read through [result.rows[0]], which raises; the [TypeError] reaches
    the caller, the second user is never tried and the context is not
    reset: the connection stays scoped to the center of the first user.
    Whatever its arguments and the database, the call rejects. *)
Theorem testRLSIsolation_never_reports (st : pg) (u1 c1 u2 c2 : string) :
  c1 <> "" ->
  testRLSIsolation E (u1, c1) (u2, c2) (Some st)
  = (Throw TypeError, Some (under st u1 c1)) /\
  get_user_center_id (sess (under st u1 c1)) = Some c1 /\
  getPatientsByCenterId c1 (Some (under st u1 c1))
  = (Ok (patients_of st c1), Some (under st u1 c1)) /\
  (forall user1 user2 database,
      is_ok (fst (testRLSIsolation E user1 user2 database)) = false).
Proof.
  intros H1. split; [| split; [| split]].
  - unfold testRLSIsolation. cbn [fst snd].
    now rewrite (setRLSContext_center E st u1 H1).
  - cbn. apply String.eqb_neq in H1. now rewrite H1.
  - unfold getPatientsByCenterId, select_from, patients_of, under.
    cbn [contents set_center_id set_user_id].
    rewrite (filter_ext (visible (set_center_id (set_user_id st u1) (Some c1)) patients)
               (owned_by st patients c1))
      by (intros r; now apply visible_center_scoped).
    change (center_is c1) with (owned_by st patients c1).
    now rewrite filter_idem.
  - intros user1 user2 [st0 |]; [| reflexivity].
    unfold testRLSIsolation.
    destruct (setRLSContext E (fst user1) (Some (snd user1)) (Some st0))
      as [[[] | e] [st1 |]]; reflexivity.
Qed.


End AccessProperties.

Lemma context_outlives_request_witness :
  exists st',
    snd (Rls.requireUser Rls.E0 (Some Rls.alice)
           (fun _ => Rls.query Rls.patients Rls.everything) (Some Rls.clinic))
    = Some st' /\
    Rls.getPatientsByCenterId "center-a" (Some st') = (Ok [Rls.P1], Some st').
Proof.
  destruct (@context_outlives_request Rls.E0 Rls.clinic Rls.alice "center-a"
              Rls.patients Rls.everything eq_refl)
    as (st' & Hst & Hread & _); [discriminate |].
  exists st'. split; [exact Hst | exact Hread].
Defined.

Lemma createPatient_confined_witness :
  Rls.createPatient (Rls.plain "p3" (Some "center-b"))
    (Some (Access.under Rls.clinic "u1" "center-a"))
  = (Throw (PgError row_security_violation),
     Some (Access.under Rls.clinic "u1" "center-a")) /\
  fst (Rls.createPatient (Rls.plain "p3" (Some "center-a"))
         (Some (Access.under Rls.clinic "u1" "center-a")))
  = Ok (Some (Rls.plain "p3" (Some "center-a"))) /\
  Rls.createPatient (Rls.plain "p3" (Some "center-a"))
    (Some (Access.under Rls.clinic "u9" "center-a"))
  = (Throw (PgError foreign_key_violation),
     Some (Access.under Rls.clinic "u9" "center-a")).
Proof.
  assert (Hfresh : Forall (fun r => Rls.id r <> "p3")
                     (Rls.contents Rls.clinic Rls.patients)).
  { repeat constructor; discriminate. }
  split; [| split].
  - apply (@createPatient_confined Rls.clinic "u1" "center-a"
             (Rls.plain "p3" (Some "center-b"))); discriminate.
  - destruct (@createPatient_confined Rls.clinic "u1" "center-a"
                (Rls.plain "p3" (Some "center-a")))
      as (_ & _ & _ & Hyes); [discriminate |].
    destruct (Hyes eq_refl Hfresh eq_refl) as (st' & Hrun & _).
    now rewrite Hrun.
  - destruct (@createPatient_confined Rls.clinic "u9" "center-a"
                (Rls.plain "p3" (Some "center-a")))
      as (_ & _ & Hdang & _); [discriminate |].
    exact (Hdang eq_refl Hfresh eq_refl).
Defined.

Lemma updatePatient_confined_witness :
  exists res st',
    Access.updatePatient "p2" (Access.move_to "center-a")
      (Some (Access.under Rls.clinic "u1" "center-a")) = (res, Some st') /\
    Rls.contents st' Rls.doctors = [Rls.D2].
Proof.
  destruct (@updatePatient_confined Rls.clinic "u1" "center-a" "p2"
              (Access.move_to "center-a"))
    as (res & st' & Hrun & _ & Hframe & _); [discriminate |].
  exists res, st'. split; [exact Hrun |].
  rewrite (Hframe Rls.doctors); [reflexivity | discriminate].
Defined.

Lemma updateUser_superadmin_row_witness :
  exists st',
    Access.updateUser "u0" (Access.move_to "center-a")
      (Some (Access.under Rls.clinic "u1" "center-a"))
    = (Ok (Some (Access.move_to "center-a" Rls.admin_row)), Some st').
Proof.
  destruct (@updateUser_superadmin_row Rls.clinic "u1" "center-a" "u0"
              Rls.admin_row (Access.move_to "center-a"))
    as [Hyes _].
  - discriminate.
  - now left.
  - reflexivity.
  - reflexivity.
  - intros r' [<- | [<- | [<- | []]]]; [reflexivity | discriminate | discriminate].
  - destruct (Hyes eq_refl eq_refl eq_refl) as (st' & Hrun & _). now exists st'.
Defined.

Lemma testRLSIsolation_never_reports_witness :
  Access.testRLSIsolation Rls.E0 ("u1", "center-a") ("u2", "center-b")
    (Some Rls.clinic)
  = (Throw TypeError, Some (Access.under Rls.clinic "u1" "center-a")).
Proof.
  apply (@testRLSIsolation_never_reports Rls.E0 Rls.clinic "u1" "center-a"
           "u2" "center-b").
  discriminate.
Defined.


(** ** The ledger accounts for the stock *)

Section LedgerProperties.

Import Pharmacy Ledger.
Local Open Scope Z_scope.

Lemma add_stock_range (items items' : list pharmacy_item) (target : uuid)
  (delta : Z) :
  add_stock items target (Ok delta) = Ok items' ->
  forall it s, In it items -> id it = target -> current_stock it = Some s ->
               int4 (s + delta) = true.
Proof.
  revert items'. induction items as [| x rest IH]; intros items' H it s Hin Hid Hs;
    [contradiction |].
  cbn [add_stock bind] in H.
  destruct (add_stock rest target (Ok delta)) as [rest' |] eqn:Hrest.
  - destruct Hin as [-> | Hin]; [| now apply (IH rest' eq_refl it s)].
    apply String.eqb_eq in Hid. rewrite Hid, Hs in H.
    destruct (int4 (s + delta)); [reflexivity | discriminate].
  - destruct (String.eqb (id x) target); [| discriminate].
    destruct (current_stock x) as [s' |]; [| discriminate].
    destruct (int4 (s' + delta)); discriminate.
Qed.

(** A quantity that cannot be negated stops the update at the first row
    it reaches. *)
Lemma add_stock_raises (items : list pharmacy_item) (target : uuid) (e : exn) :
  existsb (fun it => String.eqb (id it) target) items = true ->
  add_stock items target (Throw e) = Throw e.
Proof.
  induction items as [| x rest IH]; cbn [existsb add_stock]; [discriminate |].
  destruct (String.eqb (id x) target); cbn [orb bind]; [reflexivity |].
  intros H. now rewrite (IH H).
Qed.

(** What the trigger adds, as the engine evaluates it. *)
Lemma trigger_delta (NEW : pharmacy_transaction) :
  int4 (quantity NEW) = true ->
  match tx_type NEW with
  | tx_in => Ok (quantity NEW)
  | tx_out => int4um (quantity NEW)
  end
  = if match tx_type NEW with
       | tx_in => true
       | tx_out => - 2 ^ 31 <? quantity NEW
       end
    then Ok (signed NEW) else Throw (PgError integer_out_of_range).
Proof.
  intros Hq. unfold signed. destruct (tx_type NEW); [reflexivity |].
  destruct (- 2 ^ 31 <? quantity NEW) eqn:Hlow.
  - apply Z.ltb_lt in Hlow. now apply int4um_in_range.
  - apply Z.ltb_ge in Hlow. unfold int4um, int4 in *.
    apply andb_prop in Hq. destruct Hq as [Hlo _]. apply Z.leb_le in Hlo.
    assert (H : (- quantity NEW <=? 2 ^ 31 - 1) = false)
      by (apply Z.leb_gt; lia).
    now rewrite H, andb_false_r.
Qed.

Lemma bump_moved (target : uuid) (delta : Z) (it : pharmacy_item) :
  bump target delta it = if String.eqb (id it) target then moved delta it else it.
Proof. reflexivity. Qed.

Lemma insert_effect (d : db) (NEW : pharmacy_transaction) (d' : db) :
  insert_pharmacy_transaction d NEW = Ok d' ->
  pharmacy_transactions d' = pharmacy_transactions d ++ [NEW] /\
  pharmacy_items d'
  = map (fun it => if String.eqb (id it) (item_id NEW)
                   then moved (signed NEW) it else it) (pharmacy_items d).
Proof.
  unfold insert_pharmacy_transaction, fn_update_pharmacy_stock.
  cbn [pharmacy_items pharmacy_transactions].
  destruct (int4 (quantity NEW)) eqn:Hq; cbn [negb]; [| discriminate].
  destruct (existsb _ (pharmacy_items d)) eqn:Hex; cbn [negb]; [| discriminate].
  rewrite (trigger_delta NEW Hq).
  destruct (match tx_type NEW with
            | tx_in => true
            | tx_out => - 2 ^ 31 <? quantity NEW
            end).
  2:{ now rewrite (add_stock_raises _ _ _ Hex). }
  destruct (add_stock (pharmacy_items d) (item_id NEW) _) as [items |] eqn:Hadd;
    cbn [bind]; [| discriminate].
  intros [= <-]. cbn [pharmacy_items pharmacy_transactions].
  split; [reflexivity |]. now apply add_stock_ok in Hadd.
Qed.

(** X17.  One [INSERT] into the ledger, with its trigger, for a row that
    names an item.  It succeeds exactly when the quantity is an [INTEGER],
    the item exists, the quantity of an issue can be negated (it is not
    the least [INTEGER]) and no stock of that item leaves the [INTEGER]
    range; it then appends the row to the ledger and moves the stock of
    that item, and of no other, by the signed quantity. *)
Theorem insert_pharmacy_transaction_spec (d : db) (NEW : pharmacy_transaction) :
  (is_ok (insert_pharmacy_transaction d NEW) = true <->
   int4 (quantity NEW) = true /\
   (exists it, In it (pharmacy_items d) /\ id it = item_id NEW) /\
   (tx_type NEW = tx_out -> - 2 ^ 31 < quantity NEW) /\
   (forall it s, In it (pharmacy_items d) -> id it = item_id NEW ->
                 current_stock it = Some s -> int4 (s + signed NEW) = true)) /\
  (forall d', insert_pharmacy_transaction d NEW = Ok d' ->
     pharmacy_transactions d' = pharmacy_transactions d ++ [NEW] /\
     pharmacy_items d'
     = map (fun it => if String.eqb (id it) (item_id NEW)
                      then moved (signed NEW) it else it) (pharmacy_items d)).
Proof.
  split; [| apply insert_effect].
  unfold insert_pharmacy_transaction, fn_update_pharmacy_stock.
  cbn [pharmacy_items pharmacy_transactions].
  destruct (int4 (quantity NEW)) eqn:Hq; cbn [negb].
  2:{ cbn [is_ok]. split; [discriminate |]. intros (Habs & _). discriminate. }
  destruct (existsb (fun it => String.eqb (id it) (item_id NEW))
              (pharmacy_items d)) eqn:Hex; cbn [negb].
  2:{ cbn [is_ok]. split; [discriminate |].
      intros (_ & (it & Hin & Hid) & _).
      assert (Hyes : existsb (fun it => String.eqb (id it) (item_id NEW))
                       (pharmacy_items d) = true).
      { apply existsb_exists. exists it. split; [exact Hin |].
        now apply String.eqb_eq. }
      congruence. }
  rewrite (trigger_delta NEW Hq).
  destruct (match tx_type NEW with
            | tx_in => true
            | tx_out => - 2 ^ 31 <? quantity NEW
            end) eqn:Hneg.
  2:{ rewrite (add_stock_raises _ _ _ Hex). cbn [bind is_ok].
      split; [discriminate |]. intros (_ & _ & Hlow & _).
      destruct (tx_type NEW); [discriminate |].
      apply Z.ltb_ge in Hneg. specialize (Hlow eq_refl). lia. }
  assert (Hlow : tx_type NEW = tx_out -> - 2 ^ 31 < quantity NEW).
  { intros Ht. rewrite Ht in Hneg. now apply Z.ltb_lt. }
  apply existsb_exists in Hex. destruct Hex as (it0 & Hin0 & Hid0).
  apply String.eqb_eq in Hid0.
  destruct (add_stock (pharmacy_items d) (item_id NEW) (Ok (signed NEW)))
    as [items |] eqn:Hadd; cbn [bind is_ok].
  - split; [| reflexivity]. intros _. split; [reflexivity |].
    split; [now exists it0 |]. split; [exact Hlow |].
    exact (@add_stock_range _ _ _ _ Hadd).
  - split; [discriminate |].
    intros (_ & _ & _ & Hrange).
    rewrite (@add_stock_in_range _ _ _ Hrange) in Hadd. discriminate.
Qed.

(** The least [INTEGER] can be received, not issued. *)
Example least_integer_cannot_be_issued :
  insert_pharmacy_transaction
    {| pharmacy_items := [ {| id := "item1"; center_id := Some "c1";
                              current_stock := None |} ];
       pharmacy_transactions := [] |} (entry "t1" tx_out (- 2 ^ 31))
  = Throw (PgError integer_out_of_range) /\
  is_ok (insert_pharmacy_transaction
           {| pharmacy_items := [ {| id := "item1"; center_id := Some "c1";
                                     current_stock := None |} ];
              pharmacy_transactions := [] |} (entry "t1" tx_in (- 2 ^ 31)))
  = true.
Proof. repeat split; reflexivity. Qed.

Lemma movement_app (target : uuid) (a b : list pharmacy_transaction) :
  movement target (a ++ b) = movement target a + movement target b.
Proof.
  induction a as [| tx a IH]; cbn [movement app]; [reflexivity |].
  rewrite IH. lia.
Qed.

(** X18.  The ledger accounts for the stock.  After any run of inserts that
    went through, the ledger is the former ledger followed by the rows
    inserted, in order, and every item holds its former stock plus the
    signed sum of the rows inserted for it; a stock that was NULL is still
    NULL. *)
Theorem ledger_accounts_for_stock (txs : list pharmacy_transaction) :
  forall d d',
    insert_all d txs = Ok d' ->
    pharmacy_transactions d' = pharmacy_transactions d ++ txs /\
    pharmacy_items d'
    = map (fun it => moved (movement (id it) txs) it) (pharmacy_items d).
Proof.
  induction txs as [| tx rest IH]; intros d d' Hrun; cbn [insert_all] in Hrun.
  - injection Hrun as <-. split; [now rewrite app_nil_r |].
    rewrite <- (map_id (pharmacy_items d)) at 1. apply map_ext.
    intros it. unfold moved. cbn [movement]. destruct it as [i c [s |]];
      cbn [id center_id current_stock option_map]; [| reflexivity].
    now rewrite Z.add_0_r.
  - destruct (insert_pharmacy_transaction d tx) as [d1 |] eqn:H1;
      cbn [bind] in Hrun; [| discriminate].
    destruct (@insert_effect d tx d1 H1) as [Hl1 Hi1].
    destruct (IH d1 d' Hrun) as [Hl Hi]. split.
    + rewrite Hl, Hl1, <- app_assoc. reflexivity.
    + rewrite Hi, Hi1, map_map. apply map_ext. intros [i c stock].
      cbn [movement id]. unfold moved.
      destruct (String.eqb i (item_id tx)) eqn:Hid;
        cbn [id center_id current_stock].
      * apply String.eqb_eq in Hid. subst i. rewrite String.eqb_refl.
        f_equal. destruct stock as [s |]; cbn [option_map];
          [f_equal; lia | reflexivity].
      * rewrite String.eqb_sym, Hid. reflexivity.
Qed.

(** X19.  An item whose stock is NULL.  [createTransaction] of the
    pharmacy-items router reads the stock as 0: it refuses every issue, and
    it accepts a receipt, which is written to the ledger while the stock
    stays NULL and the stock reported back is 0. *)
Theorem createTransaction_null_stock (d : db) (new_id : uuid)
  (input : transaction_input) (item : pharmacy_item) :
  primary_key d ->
  select_item d (itemId input) = Some item ->
  current_stock item = None ->
  0 < input_quantity input -> int4 (input_quantity input) = true ->
  match transactionType input with
  | tx_out =>
      createTransaction (Some d) new_id input
      = Throw (TRPCError BAD_REQUEST
                 ("Insufficient stock. Current: 0, Requested: "
                  ++ show_Z (input_quantity input)))
  | tx_in =>
      exists d' tx,
        createTransaction (Some d) new_id input
        = Ok (d', {| transaction := tx; newStock := 0 |}) /\
        pharmacy_transactions d' = pharmacy_transactions d ++ [tx] /\
        quantity tx = input_quantity input /\ tx_type tx = tx_in /\
        stock_of d' (itemId input) = None
  end.
Proof.
  intros Hpk Hsel Hnull Hq Hint.
  destruct (transactionType input) eqn:Htype.
  - destruct (select_item_some _ _ Hsel) as [Hin Hid].
    assert (Hsame : map (bump (itemId input) (input_quantity input))
                      (pharmacy_items d) = pharmacy_items d).
    { rewrite <- (map_id (pharmacy_items d)) at 2. apply map_ext_in.
      intros it Hit. unfold bump.
      destruct (String.eqb (id it) (itemId input)) eqn:Hit_id; [| reflexivity].
      apply String.eqb_eq in Hit_id.
      pose proof (select_item_unique Hpk Hsel it Hit Hit_id) as ->.
      destruct item as [i c stock]. cbn [current_stock] in Hnull. subst stock.
      reflexivity. }
    unfold createTransaction. rewrite Htype.
    apply Z.leb_gt in Hq. rewrite Hq, Hsel.
    unfold insert_pharmacy_transaction. cbn [quantity item_id].
    rewrite Hint. cbn [negb].
    assert (Hex : existsb (fun it => String.eqb (id it) (itemId input))
                    (pharmacy_items d) = true).
    { apply existsb_exists. exists item. split; [exact Hin |].
      now apply String.eqb_eq. }
    rewrite Hex. cbn [negb].
    unfold fn_update_pharmacy_stock.
    cbn [pharmacy_items pharmacy_transactions item_id tx_type quantity].
    rewrite add_stock_in_range.
    2:{ intros it s Hit Hit_id Hs.
        pose proof (select_item_unique Hpk Hsel it Hit Hit_id) as ->.
        congruence. }
    cbn [bind]. rewrite Hsame.
    assert (Hsel' : forall ledger,
               select_item {| pharmacy_items := pharmacy_items d;
                              pharmacy_transactions := ledger |} (itemId input)
               = Some item) by (intros ledger; exact Hsel).
    rewrite Hsel'. unfold parse_stock. rewrite Hnull. cbn [COALESCE].
    eexists _, _. split; [reflexivity |].
    cbn [pharmacy_transactions quantity tx_type].
    repeat (split; [reflexivity |]).
    unfold stock_of. now rewrite Hsel'.
  - rewrite (@createTransaction_insufficient d new_id input item Hsel Htype Hq).
    + unfold parse_stock. rewrite Hnull. reflexivity.
    + unfold parse_stock. rewrite Hnull. cbn [COALESCE]. exact Hq.
Qed.

End LedgerProperties.

Lemma ledger_accounts_for_stock_witness :
  exists d',
    Ledger.insert_all Pharmacy.shelf
      [Ledger.entry "t1" Pharmacy.tx_in 5; Ledger.entry "t2" Pharmacy.tx_out 12]
    = Ok d' /\
    Pharmacy.stock_of d' "item1" = Some 3%Z.
Proof.
  eexists. split; [reflexivity |].
  pose proof (@ledger_accounts_for_stock
                [Ledger.entry "t1" Pharmacy.tx_in 5;
                 Ledger.entry "t2" Pharmacy.tx_out 12]
                Pharmacy.shelf _ eq_refl) as [_ Hitems].
  unfold Pharmacy.stock_of, Pharmacy.select_item. rewrite Hitems. reflexivity.
Defined.

Lemma createTransaction_null_stock_witness :
  exists d' tx,
    Pharmacy.createTransaction (Some Ledger.unfilled) "t1" (Ledger.receipt 5)
    = Ok (d', {| Pharmacy.transaction := tx; Pharmacy.newStock := 0 |}) /\
    Pharmacy.stock_of d' "item2" = None.
Proof.
  assert (Hpk : Pharmacy.primary_key Ledger.unfilled).
  { unfold Pharmacy.primary_key. cbn. constructor; [intros [] | constructor]. }
  destruct (@createTransaction_null_stock Ledger.unfilled "t1" (Ledger.receipt 5)
              _ Hpk eq_refl eq_refl eq_refl eq_refl)
    as (d' & tx & Hrun & _ & _ & _ & Hstock).
  exists d', tx. split; [exact Hrun | exact Hstock].
Defined.

(** ** Commission amounts stay within the price *)

Section CommissionBounds.

Import Commission.
Local Open Scope Z_scope.

Lemma round_half_away_scaled (p r : Z) :
  0 <= p -> 0 <= r <= 10 ^ 4 ->
  0 <= Numeric.round_half_away (p * r) (10 ^ 4) <= p.
Proof.
  intros Hp Hr.
  assert (Hpr : 0 <= p * r <= p * 10 ^ 4) by nia.
  rewrite round_half_away_nonneg by (try reflexivity; lia).
  change (10 ^ 4) with 10000 in *. split.
  - apply Z.div_pos; lia.
  - apply Z.lt_succ_r. apply Z.div_lt_upper_bound; lia.
Qed.

Lemma fits_between (v p : Z) :
  0 <= v <= p -> Numeric.fits 10 p = true -> Numeric.fits 10 v = true.
Proof.
  unfold Numeric.fits. intros Hv Hp.
  apply Z.ltb_lt in Hp. apply Z.ltb_lt. lia.
Qed.

(** X20.  For an act with a price that is not negative and rates between 0
    and 1 (a missing rate counts as 0), the trigger never raises: the row is
    written with each amount between 0 and the price, and an amount of 0
    for a missing rate.  Running the trigger again on the row it produced,
    as an update that changes nothing does, gives the same row. *)
Theorem commissions_within_price (NEW : medical_act) :
  0 <= price NEW -> Numeric.fits 10 (price NEW) = true ->
  0 <= COALESCE (commission_internal_rate NEW) 0 <= 10 ^ 4 ->
  0 <= COALESCE (commission_external_rate NEW) 0 <= 10 ^ 4 ->
  exists row,
    compute_act_commissions NEW = Ok row /\
    (exists ia ea,
        commission_internal_amount row = Some ia /\ 0 <= ia <= price NEW /\
        commission_external_amount row = Some ea /\ 0 <= ea <= price NEW) /\
    (commission_internal_rate NEW = None -> commission_internal_amount row = Some 0) /\
    (commission_external_rate NEW = None -> commission_external_amount row = Some 0) /\
    compute_act_commissions row = Ok row /\
    (forall tbl, update_medical_act (tbl ++ [row]) (id row) (fun OLD => OLD)
                 = (rest <- update_medical_act tbl (id row) (fun OLD => OLD) ;;
                    Ok (rest ++ [row]))).
Proof.
  intros Hp Hfit Hi He.
  pose proof (round_half_away_scaled Hp Hi) as Bi.
  pose proof (round_half_away_scaled Hp He) as Be.
  assert (Hok : compute_act_commissions NEW = Ok (persisted NEW)).
  { apply compute_act_commissions_ok. split; unfold derived_amount.
    - exact (fits_between Bi Hfit).
    - exact (fits_between Be Hfit). }
  assert (Hagain : compute_act_commissions (persisted NEW) = Ok (persisted NEW)).
  { unfold compute_act_commissions, persisted at 1 2 3 4.
    cbn [price commission_internal_rate commission_external_rate].
    rewrite (store_fits 10 4 _ (fits_between Bi Hfit)). cbn [bind].
    rewrite (store_fits 10 4 _ (fits_between Be Hfit)). reflexivity. }
  exists (persisted NEW). split; [exact Hok |]. split; [| split; [| split; [| split]]].
  - exists (derived_amount NEW (commission_internal_rate NEW)),
           (derived_amount NEW (commission_external_rate NEW)).
    repeat split; try reflexivity; unfold derived_amount; lia.
  - intros Hnone. cbn [persisted commission_internal_amount].
    unfold derived_amount. rewrite Hnone. cbn [COALESCE].
    now rewrite Z.mul_0_r.
  - intros Hnone. cbn [persisted commission_external_amount].
    unfold derived_amount. rewrite Hnone. cbn [COALESCE].
    now rewrite Z.mul_0_r.
  - exact Hagain.
  - intros tbl. induction tbl as [| r rest IH]; cbn [app update_medical_act].
    + rewrite String.eqb_refl, Hagain. reflexivity.
    + rewrite IH.
      destruct (String.eqb (id r) (id (persisted NEW))).
      * destruct (compute_act_commissions r); cbn [bind]; [| reflexivity].
        now destruct (update_medical_act rest (id (persisted NEW)) (fun OLD => OLD)).
      * now destruct (update_medical_act rest (id (persisted NEW)) (fun OLD => OLD)).
Qed.

End CommissionBounds.

Lemma commissions_within_price_witness :
  exists row,
    Commission.compute_act_commissions Commission.act_sub_cent = Ok row /\
    Commission.commission_internal_amount row = Some 2%Z.
Proof.
  destruct (@commissions_within_price Commission.act_sub_cent)
    as (row & Hrun & _); try (cbn; lia); try reflexivity.
  exists row. split; [exact Hrun |].
  vm_compute in Hrun. injection Hrun as <-. reflexivity.
Defined.

(** ** What a line-item statement leaves alone *)

Section InvoiceFrameProperties.

Import Invoice InvoiceFrame.
Local Open Scope Z_scope.

(** X21.  A statement on line items that passes its checks, on a
    connection whose user can be stored in the audit trail, goes through
    and touches nothing but totals: the invoices it recomputes and that
    the context reaches get the sum of their stored line totals, every
    other invoice (one it does not recompute, or one of a center the
    context does not reach) is left exactly as it was, no invoice appears,
    disappears or changes center, and the audit trail grows by entries of
    the user of the context about the recomputed invoices. *)
Theorem line_item_statement_frame (d : db) (m : mutation) :
  admissible d m -> storable d = true ->
  exists d',
    run d m = Ok d' /\
    invoice_items d' = surviving d m /\
    invoices d'
    = map (fun inv => if invoices_center d inv
                         && existsb (String.eqb (id inv)) (recomputed d m)
                      then retotal (surviving d m) inv else inv) (invoices d) /\
    map center_id (invoices d') = map center_id (invoices d) /\
    (forall inv, In inv (invoices d) ->
                 ~ In (id inv) (recomputed d m) \/ invoices_center d inv = false ->
                 In inv (invoices d')) /\
    (exists added,
        audit_logs d' = audit_logs d ++ added /\
        Forall (fun e => audit_user_id e = Rls.get_current_user_id (sess d) /\
                         In (audit_record_id e) (recomputed d m)) added).
Proof.
  intros Hadm Hst. destruct (run_succeeds Hadm Hst) as [d' Hrun].
  destruct (run_shape _ _ Hrun) as (_ & _ & Hitems & Hinvs & Haudit).
  exists d'. split; [exact Hrun |]. split; [exact Hitems |].
  split; [exact Hinvs |]. split; [| split; [| exact Haudit]].
  - rewrite Hinvs, map_map. apply map_ext. intros inv.
    now destruct (invoices_center d inv && existsb _ (recomputed d m)).
  - intros inv Hin Hout. rewrite Hinvs. apply in_map_iff. exists inv.
    split; [| exact Hin].
    destruct (invoices_center d inv) eqn:Hreach; cbn [andb]; [| reflexivity].
    destruct (existsb (String.eqb (id inv)) (recomputed d m)) eqn:Hex;
      [| reflexivity].
    apply existsb_exists in Hex. destruct Hex as (t & Ht & Heq).
    apply String.eqb_eq in Heq. subst t.
    destruct Hout as [Hout | Hout]; [contradiction | discriminate].
Qed.

Lemma filter_unrecomputed (d : db) (m : mutation) (t : uuid) :
  keeps_parent d m -> ~ In t (recomputed d m) ->
  filter (fun it => String.eqb (invoice_id it) t) (surviving d m)
  = filter (fun it => String.eqb (invoice_id it) t) (invoice_items d).
Proof.
  destruct m as [it | target set | target];
    cbn [keeps_parent recomputed surviving]; intros Hkeep Hout.
  - rewrite filter_app. cbn [filter].
    destruct (String.eqb_spec (invoice_id it) t) as [Heq | _];
      [| now rewrite app_nil_r].
    exfalso. apply Hout. now left.
  - induction (invoice_items d) as [| x rest IH]; cbn [map filter] in *;
      [reflexivity |].
    assert (IH' : filter (fun it => String.eqb (invoice_id it) t)
                    (map (fun it => if String.eqb (item_id it) target
                                    then set it else it) rest)
                  = filter (fun it => String.eqb (invoice_id it) t) rest).
    { apply IH.
      - intros it Hin. apply Hkeep. now right.
      - intros Hin. apply Hout.
        destruct (String.eqb (item_id x) target); [now right | exact Hin]. }
    destruct (String.eqb (item_id x) target) eqn:Hx.
    + assert (Hp : invoice_id (set x) = invoice_id x).
      { apply Hkeep; [now left | now apply String.eqb_eq]. }
      assert (Hne : String.eqb (invoice_id (set x)) t = false).
      { apply String.eqb_neq. intros Heq. apply Hout. cbn [map]. now left. }
      rewrite Hne. rewrite Hp in Hne. now rewrite Hne.
    + now rewrite IH'.
  - induction (invoice_items d) as [| x rest IH]; cbn [map filter] in *;
      [reflexivity |].
    destruct (String.eqb (item_id x) target) eqn:Hx; cbn [negb map filter] in *.
    + assert (Hne : String.eqb (invoice_id x) t = false).
      { apply String.eqb_neq. intros Heq. apply Hout. now left. }
      rewrite Hne. apply IH. intros Hin. apply Hout. now right.
    + now rewrite (IH Hout).
Qed.

(** X22.  The totals stay consistent where the context reaches.  If every
    invoice agrees with its line items, it still does after an insert, a
    delete, or an update that leaves the items under their invoice,
    whenever the statement passes its checks, the user of the context can
    be stored in the audit trail and the context reaches the invoices the
    statement recomputes.  The hypothesis on updates is needed, since
    moving an item leaves the total of its former invoice behind; so is
    the one on the context, since an invoice out of reach keeps its
    total. *)
Theorem totals_stay_consistent (d : db) (m : mutation) :
  consistent d -> keeps_parent d m -> admissible d m ->
  storable d = true -> in_reach d m ->
  exists d', run d m = Ok d' /\ consistent d'.
Proof.
  intros Hcons Hkeep Hadm Hst Hreach. destruct (run_succeeds Hadm Hst) as [d' Hrun].
  destruct (run_shape _ _ Hrun) as (_ & _ & Hitems & Hinvs & _).
  exists d'. split; [exact Hrun |].
  intros t. unfold total_consistent. apply Forall_forall. intros x Hx.
  apply in_map_iff in Hx. destruct Hx as (inv' & <- & Hin').
  apply filter_In in Hin'. destruct Hin' as [Hin' Hid'].
  apply String.eqb_eq in Hid'.
  rewrite Hinvs in Hin'. apply in_map_iff in Hin'.
  destruct Hin' as (inv & Hg & Hin). rewrite Hitems.
  destruct (existsb (String.eqb (id inv)) (recomputed d m)) eqn:Hex.
  - assert (Hyes : invoices_center d inv = true).
    { apply Hreach; [exact Hin |].
      apply existsb_exists in Hex. destruct Hex as (u & Hu & Heq).
      apply String.eqb_eq in Heq. now subst u. }
    rewrite Hyes in Hg. cbn [andb] in Hg.
    subst inv'. cbn [retotal with_total id total_amount] in *. now subst t.
  - rewrite andb_false_r in Hg. subst inv'.
    assert (Hout : ~ In t (recomputed d m)).
    { intros Habs.
      assert (Hyes : existsb (String.eqb (id inv)) (recomputed d m) = true).
      { apply existsb_exists. exists t. split; [exact Habs |].
        now apply String.eqb_eq. }
      congruence. }
    unfold sum_total_price. rewrite (@filter_unrecomputed d m t Hkeep Hout).
    specialize (Hcons t). unfold total_consistent in Hcons.
    rewrite Forall_forall in Hcons. apply Hcons.
    apply in_map_iff. exists inv. split; [reflexivity |].
    apply filter_In. split; [exact Hin | now apply String.eqb_eq].
Qed.

End InvoiceFrameProperties.

Lemma line_item_statement_frame_witness :
  exists d',
    Invoice.run (InvoiceFrame.two_invoices_at "c1") (Invoice.Insert Invoice.item_1x25)
    = Ok d' /\
    map Invoice.total_amount (Invoice.invoices d') = [Some 12500%Z; Some 2500%Z].
Proof.
  assert (Hadm : Invoice.admissible (InvoiceFrame.two_invoices_at "c1")
                   (Invoice.Insert Invoice.item_1x25)).
  { split; [reflexivity |]. intros t [<- | []]. reflexivity. }
  destruct (@line_item_statement_frame _ _ Hadm eq_refl)
    as (d' & Hrun & _ & Hinvs & _).
  exists d'. split; [exact Hrun |]. rewrite Hinvs. reflexivity.
Defined.

Lemma totals_stay_consistent_witness :
  InvoiceFrame.consistent (InvoiceFrame.two_invoices_at "c2") /\
  exists d',
    Invoice.run (InvoiceFrame.two_invoices_at "c2") (Invoice.Delete "i9") = Ok d' /\
    InvoiceFrame.consistent d'.
Proof.
  assert (Hcons : InvoiceFrame.consistent (InvoiceFrame.two_invoices_at "c2")).
  { intros t. unfold Invoice.total_consistent, InvoiceFrame.two_invoices_at.
    cbn [Invoice.invoices filter Invoice.id].
    destruct (String.eqb_spec "inv1" t) as [<- | H1];
      [repeat constructor |].
    destruct (String.eqb_spec "inv2" t) as [<- | H2];
      [repeat constructor |].
    constructor. }
  split; [exact Hcons |].
  apply (@totals_stay_consistent (InvoiceFrame.two_invoices_at "c2")
           (Invoice.Delete "i9") Hcons I).
  - split; [reflexivity |]. intros t [<- | []]. reflexivity.
  - reflexivity.
  - intros inv [<- | [<- | []]] [Hid | []]; [discriminate Hid | reflexivity].
Defined.

(** Out of reach, the totals drift: the same delete on a connection of the
    other center goes through and leaves the total of the invoice
    behind. *)
Example total_out_of_reach_drifts :
  exists d',
    Invoice.run (InvoiceFrame.two_invoices_at "c1") (Invoice.Delete "i9") = Ok d' /\
    Invoice.invoice_items d' = [Invoice.item_2x50] /\
    map Invoice.total_amount (Invoice.invoices d') = [Some 10000%Z; Some 2500%Z] /\
    Invoice.sum_total_price (Invoice.invoice_items d') "inv2" = 0%Z.
Proof. eexists. repeat split; reflexivity. Qed.

(** ** Cancelling an appointment and its notes *)

Section AppointmentsProperties.

Import Pgp PGPService Appointments.

Variable C : cipher.

Lemma getAppointmentById_reachable (d : db) (a : appointment) :
  reachable d a -> getAppointmentById (Some d) (id a) = Some a.
Proof.
  intros (Hin & Hvis & Huniq). unfold getAppointmentById.
  destruct (@filter_only _ (id_is (id a)) a
              (filter (appointments_center d) (appointments d))) as [n Hn].
  - apply filter_In. now split.
  - apply String.eqb_refl.
  - intros y Hy Hid. apply filter_In in Hy. destruct Hy as [Hy _].
    apply Huniq; [exact Hy | now apply String.eqb_eq].
  - now rewrite Hn.
Qed.

(** An update of an appointment within reach goes through and changes
    that row only. *)
Lemma updateAppointment_reachable (d : db) (a : appointment)
  (data : appointment_update) :
  reachable d a ->
  exists d',
    updateAppointment (Some d) (id a) data = (Ok (Some (assign data a)), Some d') /\
    center d' = center d /\ settings d' = settings d /\
    reachable d' (assign data a) /\
    List.length (appointments d') = List.length (appointments d) /\
    (forall x, In x (appointments d) -> id x <> id a -> In x (appointments d')).
Proof.
  intros Hreach. pose proof Hreach as (Hin & Hvis & Huniq).
  unfold updateAppointment. cbv zeta.
  assert (Hhit : appointments_center d a && id_is (id a) a = true).
  { unfold id_is. now rewrite Hvis, String.eqb_refl. }
  assert (Honly : forall x, In x (appointments d) ->
                            appointments_center d x && id_is (id a) x = true ->
                            x = a).
  { intros x Hx Hh. apply andb_prop in Hh. destruct Hh as [_ Hid].
    apply Huniq; [exact Hx | now apply String.eqb_eq]. }
  destruct (@filter_only _ (fun x => appointments_center d x && id_is (id a) x)
              a (appointments d) Hin Hhit Honly) as [n Hn].
  rewrite Hn. cbn [map]. rewrite map_repeat.
  assert (Hvis' : appointments_center d (assign data a) = true) by exact Hvis.
  cbn [forallb]. rewrite Hvis'. cbn [andb].
  rewrite (@forallb_repeat _ (appointments_center d) (assign data a) n Hvis').
  cbn [hd_error].
  eexists. split; [reflexivity |]. cbn [center settings appointments].
  split; [reflexivity |]. split; [reflexivity |]. split; [| split].
  - split; [| split].
    + apply in_map_iff. exists a. split; [now rewrite Hhit | exact Hin].
    + exact Hvis.
    + intros a' Ha' Hid. apply in_map_iff in Ha'.
      destruct Ha' as (x & <- & Hx).
      destruct (appointments_center d x && id_is (id a) x) eqn:Hx_hit.
      * now rewrite (Honly x Hx Hx_hit).
      * exfalso. pose proof (Huniq x Hx Hid) as ->. congruence.
  - now rewrite length_map.
  - intros x Hx Hne. apply in_map_iff. exists x. split; [| exact Hx].
    destruct (appointments_center d x && id_is (id a) x) eqn:Hx_hit;
      [| reflexivity].
    exfalso. apply Hne. now rewrite (Honly x Hx Hx_hit).
Qed.

(** What [cancel] does to an appointment within reach, given what the two
    optional helpers answer. *)
Lemma cancel_reachable (d : db) (a : appointment) (reason : option js_string)
  (timestamp : js_string) (rnd : N) (former : option js_string)
  (envelope : option buffer) :
  reachable d a ->
  decryptOptional C (Some (settings d)) (notes_encrypted a) = Ok former ->
  encryptOptional C (Some (settings d))
    (match truthy reason with
     | Some r =>
         match truthy former with
         | Some n => Some (appended n timestamp r)
         | None => Some (cancellation timestamp r)
         end
     | None => former
     end) rnd = Ok envelope ->
  exists d',
    cancel C (id a) reason timestamp rnd (Some d) = (Ok tt, Some d') /\
    settings d' = settings d /\
    getAppointmentById (Some d') (id a)
    = Some {| id := id a; center_id := center_id a;
              status := Some "cancelled"; notes_encrypted := envelope |}.
Proof.
  intros Hreach Hdec Henc. unfold cancel.
  rewrite (getAppointmentById_reachable Hreach). cbn [option_map].
  rewrite Hdec, Henc.
  destruct (@updateAppointment_reachable d a
              {| new_status := Some (Some "cancelled");
                 new_notesEncrypted := Some envelope |} Hreach)
    as (d' & Hup & _ & Hset & Hreach' & _).
  rewrite Hup. exists d'. split; [reflexivity |]. split; [exact Hset |].
  exact (getAppointmentById_reachable Hreach').
Qed.

(** X24.  [cancel] rewrites the notes from what it could read.  When the
    envelope of an appointment cannot be opened (no key, another key,
    corrupt data), cancelling without a reason reports success and erases
    the envelope; and when no key is configured, cancelling with a reason
    erases it as well and the reason is not recorded. *)
Theorem cancel_erases_unreadable_notes (d : db) (a : appointment)
  (reason : option js_string) (timestamp : js_string) (rnd : N) :
  reachable d a ->
  (decryptOptional C (Some (settings d)) (notes_encrypted a) = Ok None /\
   truthy reason = None) \/
  encryption_key (settings d) = None ->
  exists d',
    cancel C (id a) reason timestamp rnd (Some d) = (Ok tt, Some d') /\
    getAppointmentById (Some d') (id a)
    = Some {| id := id a; center_id := center_id a;
              status := Some "cancelled"; notes_encrypted := None |} /\
    getById C (id a) (Some d')
    = Ok {| out_id := id a; out_center_id := center_id a;
            out_status := Some "cancelled"; notes := None |}.
Proof.
  intros Hreach Hwhy.
  assert (H : decryptOptional C (Some (settings d)) (notes_encrypted a) = Ok None /\
              forall text,
                (truthy reason = None -> text = None) ->
                encryptOptional C (Some (settings d)) text rnd = Ok None).
  { destruct Hwhy as [[Hdec Hreason] | Hkey].
    - split; [exact Hdec |]. intros text Htext. now rewrite (Htext Hreason).
    - split.
      + unfold decryptOptional, decrypt, decrypt_pgp_data, app_get_encryption_key.
        rewrite Hkey. destruct (notes_encrypted a) as [c |]; [| reflexivity].
        now destruct (empty c).
      + intros text _. unfold encryptOptional, encrypt, encrypt_pgp_data,
          app_get_encryption_key.
        rewrite Hkey. destruct text as [p |]; [| reflexivity].
        now destruct (blank p). }
  destruct H as [Hdec Henc].
  destruct (@cancel_reachable d a reason timestamp rnd None None Hreach Hdec)
    as (d' & Hrun & Hset & Hget).
  { apply Henc. intros Hreason. now rewrite Hreason. }
  exists d'. split; [exact Hrun |]. split; [exact Hget |].
  unfold getById. rewrite Hget. reflexivity.
Qed.

(** X23.  [cancel] does not keep the notes of an appointment.  The notes it
    reads come from [decryptOptional] and the envelope it writes from
    [encryptOptional], and both resolve to [null]: for every appointment
    within reach, whatever the key, the envelope, the reason and the
    cipher, [cancel] reports success, the appointment is stored cancelled
    with no envelope, and [getById] shows no notes, after as before. *)
Theorem cancel_erases_notes (d : db) (a : appointment)
  (reason : option js_string) (timestamp : js_string) (rnd : N) :
  reachable d a ->
  exists d',
    cancel C (id a) reason timestamp rnd (Some d) = (Ok tt, Some d') /\
    getAppointmentById (Some d') (id a)
    = Some {| id := id a; center_id := center_id a;
              status := Some "cancelled"; notes_encrypted := None |} /\
    getById C (id a) (Some d')
    = Ok {| out_id := id a; out_center_id := center_id a;
            out_status := Some "cancelled"; notes := None |} /\
    getById C (id a) (Some d)
    = Ok {| out_id := id a; out_center_id := center_id a;
            out_status := status a; notes := None |}.
Proof.
  intros Hreach.
  destruct (@cancel_reachable d a reason timestamp rnd None None Hreach)
    as (d' & Hrun & Hset & Hget).
  { apply decryptOptional_null. }
  { apply encryptOptional_null. }
  exists d'. split; [exact Hrun |]. split; [exact Hget |]. split.
  - unfold getById. rewrite Hget. reflexivity.
  - unfold getById. rewrite (getAppointmentById_reachable Hreach).
    cbn [option_map]. now rewrite decryptOptional_null.
Qed.

End AppointmentsProperties.

Lemma cancel_erases_unreadable_notes_witness :
  exists d',
    Appointments.cancel Pgp.sealed "a1" (Some (Pgp.js "patient called")) (Pgp.js "T0") 7
      (Some (Appointments.agenda None)) = (Ok tt, Some d') /\
    Appointments.getAppointmentById (Some d') "a1"
    = Some {| Appointments.id := "a1"; Appointments.center_id := Some "c1";
              Appointments.status := Some "cancelled";
              Appointments.notes_encrypted := None |}.
Proof.
  assert (Hreach : Appointments.reachable (Appointments.agenda None)
                     {| Appointments.id := "a1";
                        Appointments.center_id := Some "c1";
                        Appointments.status := Some "pending";
                        Appointments.notes_encrypted :=
                          Some (x01 :: Pgp.bytes_of (Pgp.js "allergy")) |}).
  { split; [now left |]. split; [reflexivity |].
    intros a' [<- | []] _. reflexivity. }
  destruct (@cancel_erases_unreadable_notes Pgp.sealed _ _
              (Some (Pgp.js "patient called")) (Pgp.js "T0") 7 Hreach
              (or_intror eq_refl)) as (d' & Hrun & Hget & _).
  exists d'. split; [exact Hrun | exact Hget].
Defined.

Lemma cancel_erases_notes_witness :
  Pgp.pgp_sym_decrypt Pgp.sealed (x01 :: Pgp.bytes_of (Pgp.js "allergy")) "k-2025"
  = Some (Pgp.js "allergy") /\
  exists d',
    Appointments.cancel Pgp.sealed "a1" (Some (Pgp.js "patient called")) (Pgp.js "T0") 7
      (Some (Appointments.agenda (Some "k-2025"))) = (Ok tt, Some d') /\
    Appointments.getAppointmentById (Some d') "a1"
    = Some {| Appointments.id := "a1"; Appointments.center_id := Some "c1";
              Appointments.status := Some "cancelled";
              Appointments.notes_encrypted := None |}.
Proof.
  split; [reflexivity |].
  assert (Hreach : Appointments.reachable (Appointments.agenda (Some "k-2025"))
                     {| Appointments.id := "a1";
                        Appointments.center_id := Some "c1";
                        Appointments.status := Some "pending";
                        Appointments.notes_encrypted :=
                          Some (x01 :: Pgp.bytes_of (Pgp.js "allergy")) |}).
  { split; [now left |]. split; [reflexivity |].
    intros a' [<- | []] _. reflexivity. }
  destruct (@cancel_erases_notes Pgp.sealed _ _
              (Some (Pgp.js "patient called")) (Pgp.js "T0") 7 Hreach)
    as (d' & Hrun & Hget & _).
  exists d'. split; [exact Hrun | exact Hget].
Defined.

(** ** Who can log in *)

Section LoginProperties.

Import Auth Login.

Variable S : sdk.

Lemma shown_spec (d : db) (u : account) :
  shown d u = true <->
  Rls.is_superadmin (row u) = Some true \/
  (exists c, Rls.get_user_center_id (sess d) = Some c /\
             Rls.center_id (row u) = Some c).
Proof.
  unfold shown, Rls.policy_using, Rls.passes, Rls.is_true, connection.
  cbn [Rls.sess].
  destruct (Rls.is_superadmin (row u)) as [[|] |],
           (Rls.center_id (row u)) as [x |],
           (Rls.get_user_center_id (sess d)) as [c |]; cbn;
    try (destruct (String.eqb_spec x c) as [-> | Hne]);
    split; intros H; try discriminate; try reflexivity; try (now left);
    try (right; now exists c);
    destruct H as [H | (c' & Hc & Hx)]; congruence.
Qed.

Lemma getUserByUsername_shown (d : db) (u : account) :
  registered d u -> shown d u = true ->
  getUserByUsername (Some d) (username u) = Some u.
Proof.
  intros [Hin Huniq] Hshown. unfold getUserByUsername.
  destruct (@filter_only _ (fun v => String.eqb (username v) (username u)) u
              (filter (shown d) (accounts d))) as [n Hn].
  - apply filter_In. now split.
  - apply String.eqb_refl.
  - intros v Hv Hname. apply filter_In in Hv. destruct Hv as [Hv _].
    apply Huniq; [exact Hv |]. left. now apply String.eqb_eq.
  - now rewrite Hn.
Qed.

Lemma getUserByUsername_hidden (d : db) (u : account) :
  registered d u -> shown d u = false ->
  getUserByUsername (Some d) (username u) = None.
Proof.
  intros [Hin Huniq] Hhidden. unfold getUserByUsername.
  destruct (filter (fun v => String.eqb (username v) (username u))
              (filter (shown d) (accounts d))) as [| v rest] eqn:Hf;
    [reflexivity |].
  assert (Hv : In v (filter (fun v => String.eqb (username v) (username u))
                       (filter (shown d) (accounts d))))
    by (rewrite Hf; now left).
  apply filter_In in Hv. destruct Hv as [Hv Hname].
  apply filter_In in Hv. destruct Hv as [Hv Hshown].
  apply String.eqb_eq in Hname.
  rewrite (Huniq v Hv (or_introl Hname)) in Hshown. congruence.
Qed.

Lemma verifyPassword_answers_false (pg : pgcrypto) (p h : string) :
  fst (verifyPassword (Some pg) p h) = Ok false.
Proof.
  unfold verifyPassword.
  destruct (String.eqb p "" || String.eqb h ""); [reflexivity |].
  now destruct (crypt pg p h).
Qed.

Lemma login_rejects (d : db) (name password : string) (now : Z) :
  exists e, login S name password now (Some d) = (Throw e, Some d).
Proof.
  unfold login.
  destruct (loginSchema name password); cbn [negb]; [| eauto].
  destruct (getUserByUsername (Some d) name) as [u |]; [| eauto].
  destruct (isActive u) as [[|] |]; eauto.
  cbn [option_map]. rewrite verifyPassword_answers_false. eauto.
Qed.

(** X25.  Nobody logs in.  [login] goes on only when [verifyPassword]
    answers [true], and it never does: every call of [login] is rejected
    and leaves the database as it was, [last_login] is never set and no
    token is made.  The owner of an active account that the connection
    shows is told that the name or the password is wrong, whatever the
    password. *)
Theorem login_never_succeeds (d : db) (name password : string) (now : Z) :
  (exists e, login S name password now (Some d) = (Throw e, Some d)) /\
  (exists e, login S name password now None = (Throw e, None)) /\
  (forall u,
      registered d u -> username u = name -> shown d u = true ->
      isActive u = Some true -> loginSchema name password = true ->
      login S name password now (Some d)
      = (Throw (TRPCError UNAUTHORIZED "Invalid username or password"), Some d)).
Proof.
  split; [apply login_rejects |]. split.
  - unfold login. destruct (loginSchema name password); cbn; eauto.
  - intros u Hreg <- Hshown Hact Hvalid. unfold login.
    rewrite Hvalid. cbn [negb].
    rewrite (@getUserByUsername_shown d u Hreg Hshown), Hact. cbn [option_map].
    now rewrite verifyPassword_answers_false.
Qed.

(** X26.  The rejections of [login], in their order, for a stored account
    and an input that passes the schema.  An account that the policy of
    [users] hides from the connection gets the answer of an unknown name,
    [UNAUTHORIZED]; this is every account that is not a superadmin when the
    connection has no center in its context.  An account that is shown but
    not active gets [FORBIDDEN], whatever the password: the password is
    looked at only afterwards.  In each case the database is left as it
    was. *)
Theorem login_rejections_in_order (d : db) (u : account) (password : string)
  (now : Z) :
  registered d u -> loginSchema (username u) password = true ->
  (shown d u = false ->
   login S (username u) password now (Some d)
   = (Throw (TRPCError UNAUTHORIZED "Invalid username or password"), Some d)) /\
  (Rls.get_user_center_id (sess d) = None ->
   Rls.is_superadmin (row u) <> Some true -> shown d u = false) /\
  (shown d u = true -> isActive u <> Some true ->
   login S (username u) password now (Some d)
   = (Throw (TRPCError FORBIDDEN "Account is inactive. Contact administrator."),
      Some d)).
Proof.
  intros Hreg Hvalid. split; [| split].
  - intros Hhidden. unfold login. rewrite Hvalid. cbn [negb].
    now rewrite (@getUserByUsername_hidden d u Hreg Hhidden).
  - intros Hctx Hplain. destruct (shown d u) eqn:Hshown; [| reflexivity].
    apply shown_spec in Hshown. destruct Hshown as [Hs | (c & Hc & _)];
      congruence.
  - intros Hshown Hact. unfold login. rewrite Hvalid. cbn [negb].
    rewrite (@getUserByUsername_shown d u Hreg Hshown).
    destruct (isActive u) as [[|] |]; [now elim Hact | reflexivity | reflexivity].
Qed.

End LoginProperties.

(** The engine accepts the password of [alice], and [login] rejects it. *)
Example login_right_password :
  Auth.crypt Auth.toy_crypt "correct horse" (Login.hashedPassword Login.member)
  = Ok (Login.hashedPassword Login.member) /\
  Login.login Login.tokens "alice" "correct horse" 0
    (Some (Login.site (Some "center-a")))
  = (Throw (TRPCError UNAUTHORIZED "Invalid username or password"),
     Some (Login.site (Some "center-a"))).
Proof. split; reflexivity. Qed.

Lemma login_rejections_in_order_witness :
  Login.login Login.tokens "alice" "correct horse" 0 (Some (Login.site None))
  = (Throw (TRPCError UNAUTHORIZED "Invalid username or password"),
     Some (Login.site None)) /\
  Login.login Login.tokens "carol" "any password" 0
    (Some (Login.site (Some "center-a")))
  = (Throw (TRPCError FORBIDDEN "Account is inactive. Contact administrator."),
     Some (Login.site (Some "center-a"))).
Proof.
  assert (Hmember : Login.registered (Login.site None) Login.member).
  { split; [right; now left |].
    intros v [<- | [<- | [<- | []]]] [H | H];
      solve [reflexivity | discriminate H]. }
  assert (Hcarol : Login.registered (Login.site (Some "center-a")) Login.suspended).
  { split; [right; right; now left |].
    intros v [<- | [<- | [<- | []]]] [H | H];
      solve [reflexivity | discriminate H]. }
  split.
  - destruct (@login_rejections_in_order Login.tokens (Login.site None)
                Login.member "correct horse" 0%Z Hmember eq_refl)
      as (Hhidden & _).
    exact (Hhidden eq_refl).
  - destruct (@login_rejections_in_order Login.tokens (Login.site (Some "center-a"))
                Login.suspended "any password" 0%Z Hcarol eq_refl)
      as (_ & _ & Hdormant).
    apply Hdormant; [reflexivity | discriminate].
Defined.
